(** * Receipt verification pipeline: sanitizer, splitter and job state machine

    A shallow embedding of [receipts.service.ts] (the sanitizer
    [stripUndefinedDeep], the summary/sidecar split and the background task
    [analyzeReceiptAsync], [scanReceipt], [anchorReceiptToHedera]), of the
    progress gateway and of [HederaService.anchorToHCS].

    JavaScript values are modelled by the inductive type [value].  Numbers are
    integers ([Z]); strings are sequences of code units in the range
    0..255 (Rocq's [string]), so that the [length] of a string is the number
    of UTF-16 code units and its UTF-8 size is computed by [utf8_size].
    Objects are association lists in property order. *)

From Stdlib Require Import ZArith List String Ascii Bool Lia.
From Stdlib Require Import DecimalString DecimalZ DecimalPos.
Import ListNotations.

Local Open Scope Z_scope.

(* ================================================================== *)
(** ** JavaScript values *)

Module JS.

Unset Elimination Schemes.
Inductive value : Type :=
| VUndef
| VNull
| VBool (b : bool)
| VNum (n : Z)
| VStr (s : string)
| VArr (l : list value)
| VObj (fs : list (string * value)).
Set Elimination Schemes.

(** Induction over values, with the entries of arrays and objects. *)
Definition value_ind' (P : value -> Prop)
  (HUndef : P VUndef) (HNull : P VNull)
  (HBool : forall b, P (VBool b)) (HNum : forall n, P (VNum n))
  (HStr : forall s, P (VStr s))
  (HArr : forall l, Forall P l -> P (VArr l))
  (HObj : forall fs, Forall (fun kv => P (snd kv)) fs -> P (VObj fs))
  : forall v, P v :=
  fix go (v : value) : P v :=
    match v with
    | VUndef => HUndef
    | VNull => HNull
    | VBool b => HBool b
    | VNum n => HNum n
    | VStr s => HStr s
    | VArr l =>
        HArr l ((fix all (l : list value) : Forall P l :=
                   match l with
                   | [] => Forall_nil P
                   | x :: r => Forall_cons x (go x) (all r)
                   end) l)
    | VObj fs =>
        HObj fs ((fix all (fs : list (string * value))
                    : Forall (fun kv => P (snd kv)) fs :=
                    match fs with
                    | [] => Forall_nil _
                    | kv :: r => Forall_cons kv (go (snd kv)) (all r)
                    end) fs)
    end.

(** Truthiness, as used by [if (x)], [x && y] and [x || y]. *)
Definition truthy (v : value) : bool :=
  match v with
  | VUndef | VNull => false
  | VBool b => b
  | VNum n => negb (n =? 0)
  | VStr s => negb (String.eqb s EmptyString)
  | VArr _ | VObj _ => true
  end.

(** [a || b] *)
Definition or_else (a b : value) : value := if truthy a then a else b.

Definition isArray (v : value) : bool :=
  match v with VArr _ => true | _ => false end.

Definition is_string (v : value) : bool :=
  match v with VStr _ => true | _ => false end.

Definition is_undefined (v : value) : bool :=
  match v with VUndef => true | _ => false end.

(** [x === null || x === undefined] *)
Definition nullish (v : value) : bool :=
  match v with VUndef | VNull => true | _ => false end.

(** Own-property lookup in an object literal. *)
Fixpoint lookup (k : string) (fs : list (string * value)) : option value :=
  match fs with
  | [] => None
  | (k', v) :: r => if String.eqb k k' then Some v else lookup k r
  end.

(** [obj.k], for a receiver that is neither [null] nor [undefined]: a missing
    property reads as [undefined]; the names read by the pipeline are own
    properties of no array and of no primitive. *)
Definition get (v : value) (k : string) : value :=
  match v with
  | VObj fs => match lookup k fs with Some x => x | None => VUndef end
  | _ => VUndef
  end.

(** Following a path of property names. *)
Fixpoint get_path (v : value) (p : list string) : value :=
  match p with
  | [] => v
  | k :: r => get_path (get v k) r
  end.

(** *** Strings *)

Definition dquote : ascii := ascii_of_N 34.
Definition backslash : ascii := ascii_of_N 92.

Definition str1 (c : ascii) : string := String c EmptyString.

(** [s.length] *)
Definition js_length (s : string) : Z := Z.of_nat (String.length s).

(** Size of the UTF-8 encoding: one byte below U+0080, two up to U+00FF. *)
Fixpoint utf8_size (s : string) : Z :=
  match s with
  | EmptyString => 0
  | String c r => (if (N_of_ascii c <? 128)%N then 1 else 2) + utf8_size r
  end.

(** [s.includes(needle)] *)
Fixpoint includes (needle s : string) : bool :=
  String.prefix needle s
  || match s with
     | EmptyString => false
     | String _ r => includes needle r
     end.

(** *** JSON.stringify *)

Definition hex_digit (n : N) : ascii :=
  ascii_of_N (if (n <? 10)%N then 48 + n else 87 + n)%N.

(** The escape of one code unit inside a JSON string literal. *)
Definition escape_char (c : ascii) : string :=
  let n := N_of_ascii c in
  if (n =? 34)%N then String backslash (str1 dquote)
  else if (n =? 92)%N then String backslash (str1 backslash)
  else if (n =? 8)%N then String backslash "b"
  else if (n =? 12)%N then String backslash "f"
  else if (n =? 10)%N then String backslash "n"
  else if (n =? 13)%N then String backslash "r"
  else if (n =? 9)%N then String backslash "t"
  else if (n <? 32)%N then
    String backslash
      (String "u" (String "0" (String "0"
         (String (hex_digit (n / 16)) (str1 (hex_digit (n mod 16)))))))
  else str1 c.

Fixpoint escape (s : string) : string :=
  match s with
  | EmptyString => EmptyString
  | String c r => (escape_char c ++ escape r)%string
  end.

Definition quote (s : string) : string :=
  String dquote (escape s ++ str1 dquote)%string.

(** The text of an integer, as [JSON.stringify] writes the integers that a
    double holds exactly (those below 2^53 in absolute value).  Larger
    numbers, which JavaScript rounds and from 10^21 on writes with an
    exponent, are outside the modelled values. *)
Definition print_Z (n : Z) : string := NilZero.string_of_int (Z.to_int n).

Fixpoint join (sep : string) (l : list string) : string :=
  match l with
  | [] => EmptyString
  | [x] => x
  | x :: r => (x ++ sep ++ join sep r)%string
  end.

(** The text of a value that is not [undefined].  Inside an array
    [undefined] is written [null]; a property whose value is [undefined] is
    left out. *)
Fixpoint ser (v : value) : string :=
  match v with
  | VUndef => "null"
  | VNull => "null"
  | VBool true => "true"
  | VBool false => "false"
  | VNum n => print_Z n
  | VStr s => quote s
  | VArr l => ("[" ++ join "," (map ser l) ++ "]")%string
  | VObj fs =>
      ("{" ++ join ","
         (flat_map (fun kv : string * value =>
            let (k, x) := kv in
            if is_undefined x then []
            else [(quote k ++ ":" ++ ser x)%string]) fs) ++ "}")%string
  end.

(** [JSON.stringify(v)]: [undefined] for [undefined], a string otherwise. *)
Definition JSON_stringify (v : value) : option string :=
  match v with
  | VUndef => None
  | _ => Some (ser v)
  end.

(** *** JSON.parse

    A recursive-descent reader of JSON text.  Numbers are read when they are
    integers in plain decimal notation; a fraction or an exponent, and a
    [\u] escape above U+00FF, are outside the modelled values and are
    refused. *)

Definition is_ws (c : ascii) : bool :=
  let n := N_of_ascii c in
  ((n =? 32) || (n =? 9) || (n =? 10) || (n =? 13))%N.

Definition is_digit (c : ascii) : bool :=
  let n := N_of_ascii c in ((48 <=? n) && (n <=? 57))%N.

Fixpoint skip_ws (s : string) : string :=
  match s with
  | String c r => if is_ws c then skip_ws r else s
  | EmptyString => s
  end.

Definition hex_val (c : ascii) : option N :=
  let n := N_of_ascii c in
  if ((48 <=? n) && (n <=? 57))%N then Some (n - 48)%N
  else if ((97 <=? n) && (n <=? 102))%N then Some (n - 87)%N
  else if ((65 <=? n) && (n <=? 70))%N then Some (n - 55)%N
  else None.

Definition hex4 (a b c d : ascii) : option ascii :=
  match hex_val a, hex_val b, hex_val c, hex_val d with
  | Some x, Some y, Some z, Some w =>
      let n := (((x * 16 + y) * 16 + z) * 16 + w)%N in
      if (n <? 256)%N then Some (ascii_of_N n) else None
  | _, _, _, _ => None
  end.

(** The character denoted by a one-letter escape. *)
Definition unescape (e : ascii) : option ascii :=
  let n := N_of_ascii e in
  if (n =? 34)%N then Some dquote
  else if (n =? 92)%N then Some backslash
  else if (n =? 47)%N then Some "/"%char
  else if (n =? 98)%N then Some (ascii_of_N 8)
  else if (n =? 102)%N then Some (ascii_of_N 12)
  else if (n =? 110)%N then Some (ascii_of_N 10)
  else if (n =? 114)%N then Some (ascii_of_N 13)
  else if (n =? 116)%N then Some (ascii_of_N 9)
  else None.

Definition cons_char (c : ascii) (r : option (string * string))
  : option (string * string) :=
  match r with
  | Some (t, rest) => Some (String c t, rest)
  | None => None
  end.

(** The body of a string literal, after its opening quote: the string it
    denotes and the text after the closing quote. *)
Fixpoint parse_string_body (s : string) : option (string * string) :=
  match s with
  | EmptyString => None
  | String c r =>
      if (N_of_ascii c =? 34)%N then Some (EmptyString, r)
      else if (N_of_ascii c =? 92)%N then
        match r with
        | String e r1 =>
            if (N_of_ascii e =? 117)%N then
              match r1 with
              | String h1 (String h2 (String h3 (String h4 r2))) =>
                  match hex4 h1 h2 h3 h4 with
                  | Some c' => cons_char c' (parse_string_body r2)
                  | None => None
                  end
              | _ => None
              end
            else
              match unescape e with
              | Some c' => cons_char c' (parse_string_body r1)
              | None => None
              end
        | EmptyString => None
        end
      else if (N_of_ascii c <? 32)%N then None
      else cons_char c (parse_string_body r)
  end.

Fixpoint take_digits (s : string) : string * string :=
  match s with
  | String c r =>
      if is_digit c then
        let (d, rest) := take_digits r in (String c d, rest)
      else (EmptyString, s)
  | EmptyString => (EmptyString, EmptyString)
  end.

(** Does the text go on with a fraction or an exponent? *)
Definition continues_number (s : string) : bool :=
  match s with
  | String c _ =>
      let n := N_of_ascii c in ((n =? 46) || (n =? 101) || (n =? 69))%N
  | EmptyString => false
  end.

(** An integer literal: an optional minus sign and digits that are the
    canonical decimal text of their value (no leading zero), or [-0]. *)
Definition parse_number (s : string) : option (Z * string) :=
  let (sign, body) :=
    match s with
    | String c r => if (N_of_ascii c =? 45)%N then ("-"%string, r)
                    else (EmptyString, s)
    | EmptyString => (EmptyString, s)
    end in
  let (d, rest) := take_digits body in
  if continues_number rest then None
  else
    let lit := (sign ++ d)%string in
    if String.eqb lit "-0" then Some (0, rest)
    else
      match NilZero.int_of_string lit with
      | Some i =>
          let z := Z.of_int i in
          if String.eqb (print_Z z) lit then Some (z, rest) else None
      | None => None
      end.

(** [obj[k] = v] on an object under construction: an existing property keeps
    its place and takes the new value. *)
Fixpoint obj_set (k : string) (v : value) (fs : list (string * value))
  : list (string * value) :=
  match fs with
  | [] => [(k, v)]
  | (k', v') :: r =>
      if String.eqb k k' then (k', v) :: r else (k', v') :: obj_set k v r
  end.

Definition obj_of_members (l : list (string * value)) : list (string * value) :=
  fold_left (fun acc kv => obj_set (fst kv) (snd kv) acc) l [].

(** [word] is read off the front of the text. *)
Fixpoint expect (word s : string) : option string :=
  match word with
  | EmptyString => Some s
  | String a w =>
      match s with
      | String b r => if Ascii.eqb a b then expect w r else None
      | EmptyString => None
      end
  end.

Fixpoint parse_value (fuel : nat) (s : string) {struct fuel}
  : option (value * string) :=
  match fuel with
  | O => None
  | S f =>
      match skip_ws s with
      | EmptyString => None
      | String c r =>
          let n := N_of_ascii c in
          if (n =? 110)%N then
            match expect "ull" r with
            | Some rest => Some (VNull, rest) | None => None end
          else if (n =? 116)%N then
            match expect "rue" r with
            | Some rest => Some (VBool true, rest) | None => None end
          else if (n =? 102)%N then
            match expect "alse" r with
            | Some rest => Some (VBool false, rest) | None => None end
          else if (n =? 34)%N then
            match parse_string_body r with
            | Some (t, rest) => Some (VStr t, rest) | None => None end
          else if (n =? 91)%N then
            match skip_ws r with
            | String c1 r1 =>
                if (N_of_ascii c1 =? 93)%N then Some (VArr [], r1)
                else
                  match parse_elems f r with
                  | Some (l, rest) => Some (VArr l, rest) | None => None end
            | EmptyString => None
            end
          else if (n =? 123)%N then
            match skip_ws r with
            | String c1 r1 =>
                if (N_of_ascii c1 =? 125)%N then Some (VObj [], r1)
                else
                  match parse_members f r with
                  | Some (l, rest) => Some (VObj (obj_of_members l), rest)
                  | None => None end
            | EmptyString => None
            end
          else
            match parse_number (String c r) with
            | Some (z, rest) => Some (VNum z, rest) | None => None end
      end
  end

with parse_elems (fuel : nat) (s : string) {struct fuel}
  : option (list value * string) :=
  match fuel with
  | O => None
  | S f =>
      match parse_value f s with
      | Some (v, r) =>
          match skip_ws r with
          | String c r1 =>
              if (N_of_ascii c =? 44)%N then
                match parse_elems f r1 with
                | Some (l, rest) => Some (v :: l, rest) | None => None end
              else if (N_of_ascii c =? 93)%N then Some ([v], r1)
              else None
          | EmptyString => None
          end
      | None => None
      end
  end

with parse_members (fuel : nat) (s : string) {struct fuel}
  : option (list (string * value) * string) :=
  match fuel with
  | O => None
  | S f =>
      match skip_ws s with
      | String q r =>
          if (N_of_ascii q =? 34)%N then
            match parse_string_body r with
            | Some (k, r0) =>
                match skip_ws r0 with
                | String c0 r1 =>
                    if (N_of_ascii c0 =? 58)%N then
                      match parse_value f r1 with
                      | Some (v, r2) =>
                          match skip_ws r2 with
                          | String c r3 =>
                              if (N_of_ascii c =? 44)%N then
                                match parse_members f r3 with
                                | Some (l, rest) => Some ((k, v) :: l, rest)
                                | None => None end
                              else if (N_of_ascii c =? 125)%N
                              then Some ([(k, v)], r3)
                              else None
                          | EmptyString => None
                          end
                      | None => None
                      end
                    else None
                | EmptyString => None
                end
            | None => None
            end
          else None
      | EmptyString => None
      end
  end.

(** [JSON.parse(s)]: [None] stands for the [SyntaxError]. *)
Definition JSON_parse (s : string) : option value :=
  match parse_value (S (String.length s)) s with
  | Some (v, rest) =>
      match skip_ws rest with
      | EmptyString => Some v
      | String _ _ => None
      end
  | None => None
  end.

(** The value of [JSON.parse(JSON.stringify(v))], written directly:
    [undefined] array entries become [null], [undefined] properties
    disappear. *)
Fixpoint json_clone (v : value) : value :=
  match v with
  | VUndef => VNull
  | VArr l => VArr (map json_clone l)
  | VObj fs =>
      VObj (obj_of_members
              (flat_map (fun kv : string * value =>
                 let (k, x) := kv in
                 if is_undefined x then [] else [(k, json_clone x)]) fs))
  | _ => v
  end.

(** [String(v)] *)
Fixpoint to_string (v : value) : string :=
  match v with
  | VUndef => "undefined"
  | VNull => "null"
  | VBool true => "true"
  | VBool false => "false"
  | VNum n => print_Z n
  | VStr s => s
  | VArr l =>
      join "," (map (fun e => if nullish e then EmptyString else to_string e) l)
  | VObj _ => "[object Object]"
  end.

Definition typeof (v : value) : string :=
  match v with
  | VUndef => "undefined"
  | VNull | VArr _ | VObj _ => "object"
  | VBool _ => "boolean"
  | VNum _ => "number"
  | VStr _ => "string"
  end.

(** [(n / 1024).toFixed(2)] for an integer [n >= 0]: the nearest multiple of
    0.01, the larger one on a tie. *)
Definition toFixed2_div1024 (n : Z) : string :=
  let h := (n * 100 + 512) / 1024 in
  (print_Z (h / 100) ++ "." ++ print_Z (h mod 100 / 10)
     ++ print_Z (h mod 10))%string.

End JS.
Export JS.

(* ================================================================== *)
(** ** The sanitizer *)

Definition oversized_keys : list string :=
  ["heatmap"; "pixel_diff"; "ela_analysis"]%string.

Definition heavy_keys : list string :=
  ["technical_details"; "forensic_findings"; "agent_logs"]%string.

(** [list.includes(key)] *)
Definition mem (k : string) (l : list string) : bool :=
  existsb (String.eqb k) l.

(** One property of the object loop of [stripUndefinedDeep]: the properties
    it adds to [cleaned] (none or one).  [rec] is the recursive call.
    [cleaned] is a plain object, so that the assignment
    [cleaned["__proto__"] = ...] runs the setter of [Object.prototype]: it
    creates no property.  The prototype that it may set is not modelled:
    the outputs of the sanitizer are only serialized, measured and handed
    to the store. *)
Definition strip_field (rec : value -> value) (kv : string * value)
  : list (string * value) :=
  let (key, v) := kv in
  if is_undefined v then []
  else if mem key oversized_keys then []
  else if mem key heavy_keys then
    if truthy v && negb (is_string v) then [(key, VStr (ser v))]
    else if truthy v then [(key, v)]
    else []
  else if String.eqb key "__proto__"%string then []
  else [(key, rec v)].

Fixpoint stripUndefinedDeep (obj : value) : value :=
  match obj with
  | VUndef => VNull
  | VNull => VNull
  | VBool _ | VNum _ | VStr _ => obj
  | VArr l =>
      match l with
      | VArr _ :: _ => VStr (ser obj)
      | _ => VArr (filter (fun item => negb (nullish item))
                     (map stripUndefinedDeep l))
      end
  | VObj fs => VObj (flat_map (strip_field stripUndefinedDeep) fs)
  end.

(* ================================================================== *)
(** ** The summary/sidecar split (layers 1 to 5 of [analyzeReceiptAsync]) *)

Inductive result (A : Type) : Type :=
| Ok (a : A)
| Throw (message : string).
Arguments Ok {A} a.
Arguments Throw {A} message.

Definition safeParse (data : value) : value :=
  match data with
  | VStr s => match JSON_parse s with Some v => v | None => data end
  | _ => data
  end.

(** The named own properties of an object; an array carries none of the
    names the pipeline reads. *)
Definition props (v : value) : list (string * value) :=
  match v with VObj fs => fs | _ => [] end.

(** [o.k = safeParse(o.k) || dflt] *)
Definition reparse_field (k : string) (dflt : value)
    (o : list (string * value)) : list (string * value) :=
  obj_set k (or_else (safeParse (get (VObj o) k)) dflt) o.

Definition lightForensics_of (fd agentLogs : value) : value :=
  VObj [("ocr_confidence", get fd "ocr_confidence");
        ("manipulation_score", get fd "manipulation_score");
        ("metadata_flags", get fd "metadata_flags");
        ("forensic_verdict", get fd "forensic_verdict");
        ("forensic_summary", get fd "forensic_summary");
        ("suspicious_regions_count", get fd "suspicious_regions_count");
        ("manipulation_detected", get fd "manipulation_detected");
        ("techniques_detected", get fd "techniques_detected");
        ("authenticity_indicators", get fd "authenticity_indicators");
        ("forensic_findings",
           match get fd "forensic_findings" with
           | VArr l => VArr (firstn 5 l)
           | x => x
           end);
        ("agent_logs", agentLogs);
        ("forensic_progress", or_else (get fd "forensic_progress") (VArr []))
       ]%string.

Definition sidecarData_of (fd agentLogs : value) : value :=
  VObj [("heatmap", or_else (get fd "heatmap") (VArr []));
        ("pixel_diff", or_else (get fd "pixel_diff") (VObj []));
        ("technical_details", or_else (get fd "technical_details") (VObj []));
        ("ela_analysis", or_else (get fd "ela_analysis") (VObj []));
        ("agent_logs", agentLogs);
        ("forensic_progress", or_else (get fd "forensic_progress") (VArr []));
        ("forensic_findings_full",
           or_else (get fd "forensic_findings") (VArr []));
        ("image_dimensions", get fd "image_dimensions");
        ("statistics", get fd "statistics")]%string.

Definition mainPayload_of (step2 lightForensics : value) (elapsed : Z) : value :=
  VObj [("ocr_text", or_else (get step2 "ocr_text") (VStr EmptyString));
        ("analysis",
           VObj [("trust_score", or_else (get step2 "trust_score") (VNum 0));
                 ("verdict", or_else (get step2 "verdict") (VStr "unknown"));
                 ("issues", or_else (get step2 "issues") (VArr []));
                 ("recommendation",
                    or_else (get step2 "recommendation") (VStr EmptyString));
                 ("merchant", or_else (get step2 "merchant") VNull);
                 ("forensic_details", lightForensics)]);
        ("processing_time", VNum elapsed);
        ("status", VStr "completed")]%string.

(** Layers 3 and 4 on the normalized response [step2]: the two payloads
    before their final cleaning. *)
Definition payloads_of (step2 : value) (elapsed : Z) : result (value * value) :=
  if nullish step2 then
    Throw "Cannot read properties of null (reading 'forensic_details')"
  else
    let fd0 := or_else (get step2 "forensic_details") (VObj []) in
    match fd0 with
    | VObj _ | VArr _ =>
        let agentLogs :=
          or_else (safeParse (get step2 "agent_logs")) (VArr []) in
        let fd :=
          VObj (reparse_field "forensic_progress" (VArr [])
               (reparse_field "pixel_diff" (VObj [])
               (reparse_field "heatmap" (VArr [])
               (reparse_field "technical_details" (VObj [])
               (reparse_field "forensic_findings" (VArr [])
                  (props fd0)))))) in
        Ok (mainPayload_of step2 (lightForensics_of fd agentLogs) elapsed,
            sidecarData_of fd agentLogs)
    | _ =>
        (* a property cannot be created on a primitive in strict code *)
        Throw ("Cannot create property 'forensic_findings' on "
               ++ typeof fd0 ++ " '" ++ to_string fd0 ++ "'")
    end.

(** Layers 1 to 5: from the analyzer's response to [cleanedMain] and
    [cleanedSidecar].  [elapsed] is [Date.now() - startTime]. *)
Definition split (elapsed : Z) (analysisResult : value)
  : result (value * value) :=
  let step1 := stripUndefinedDeep analysisResult in
  match JSON_stringify step1 with
  | None => Throw "undefined is not valid JSON"
  | Some text =>
      match JSON_parse text with
      | None => Throw "Unexpected token in JSON"
      | Some step2 =>
          match payloads_of step2 elapsed with
          | Ok (mainPayload, sidecarData) =>
              Ok (stripUndefinedDeep mainPayload,
                  stripUndefinedDeep sidecarData)
          | Throw m => Throw m
          end
      end
  end.

(* ================================================================== *)
(** ** The job pipeline: store, gateway and collaborators *)

Record upload_result : Type :=
  { secure_url : string; cloudinary_public_id : string }.

(** What an [axios] failure carries: [code], [message] and the fields
    [response.data.detail] and [response.data.message] ([undefined] when
    there is no response). *)
Record ai_error : Type :=
  { ae_code : option string;
    ae_message : string;
    ae_detail : value;
    ae_data_message : value }.

(** The object built by [anchorToHCS]. *)
Record anchor : Type :=
  { transaction_id : string;
    consensus_timestamp : string;
    message_hash : string;
    explorer_url : string }.

Definition anchor_value (a : anchor) : value :=
  VObj [("transaction_id", VStr (transaction_id a));
        ("consensus_timestamp", VStr (consensus_timestamp a));
        ("message_hash", VStr (message_hash a));
        ("explorer_url", VStr (explorer_url a))]%string.

(** The outcome of every call that leaves the process, for one job. *)
Record env : Type :=
  { upload_outcome : result upload_result;   (* uploadToCloudinary *)
    server_time : Z;                          (* FieldValue.serverTimestamp() *)
    create_outcome : result unit;             (* receipts/{id}.set *)
    ai_outcome : ai_error + value;            (* axios.post *)
    elapsed : Z;                              (* Date.now() - startTime *)
    commit_outcome : result unit;             (* batch.commit *)
    sha256_hex : string -> string;            (* crypto sha256, hex digest *)
    hedera_network : string;                  (* config hedera.network *)
    now_iso : string;                         (* new Date().toISOString() *)
    hcs_submit : string -> result (string * string);
                                              (* execute and getRecord *)
    anchors_add_outcome : result unit;        (* hedera_anchors.add *)
    anchor_update_outcome : result unit;      (* update of hedera_anchor *)
    get_outcome : result unit;                (* receiptRef.get *)
    fail_update_outcome : result unit }.      (* update in the catch block *)

(** What the outside sees of a job, in order. *)
Inductive effect : Type :=
| EProgress (receipt_id : string) (progress : Z) (status message : string)
| EComplete (receipt_id : string) (data : value)
| EError (receipt_id : string) (error : string)
| WCreate (receipt_id : string) (doc : list (string * value))
| WBatch (receipt_id : string) (main sidecar : value)
| WUpdate (receipt_id : string) (fields : list (string * value))
| CAnchor (entity_id : string) (data : value).

(** The documents of one job, every version its record went through, and
    the trace of its effects. *)
Record world : Type :=
  { doc : option (list (string * value));     (* receipts/{id} *)
    sidecar : option value;                   (* receipts/{id}/details/forensics *)
    anchors : list value;                     (* hedera_anchors *)
    history : list (list (string * value));   (* versions of receipts/{id} *)
    trace : list effect }.

Definition world0 : world :=
  {| doc := None; sidecar := None; anchors := []; history := [];
     trace := [] |}.

Definition log (e : effect) (w : world) : world :=
  {| doc := doc w; sidecar := sidecar w; anchors := anchors w;
     history := history w; trace := trace w ++ [e] |}.

Definition set_doc (d : list (string * value)) (w : world) : world :=
  {| doc := Some d; sidecar := sidecar w; anchors := anchors w;
     history := history w ++ [d]; trace := trace w |}.

Definition set_sidecar (v : value) (w : world) : world :=
  {| doc := doc w; sidecar := Some v; anchors := anchors w;
     history := history w; trace := trace w |}.

Definition add_anchor (v : value) (w : world) : world :=
  {| doc := doc w; sidecar := sidecar w; anchors := anchors w ++ [v];
     history := history w; trace := trace w |}.

(** A computation on the world that returns or throws. *)
Definition M (A : Type) : Type := world -> result A * world.

Definition ret {A} (a : A) : M A := fun w => (Ok a, w).
Definition throw {A} (m : string) : M A := fun w => (Throw m, w).
Definition bind {A B} (c : M A) (k : A -> M B) : M B :=
  fun w => match c w with
           | (Ok a, w') => k a w'
           | (Throw m, w') => (Throw m, w')
           end.
Definition try_catch {A} (c : M A) (h : string -> M A) : M A :=
  fun w => match c w with
           | (Ok a, w') => (Ok a, w')
           | (Throw m, w') => h m w'
           end.
Definition tell (e : effect) : M unit := fun w => (Ok tt, log e w).
Definition lift {A} (r : result A) : M A := fun w => (r, w).
Definition read_doc : M (option (list (string * value))) :=
  fun w => (Ok (doc w), w).

Notation "x <- c ;; k" := (bind c (fun x => k))
  (at level 61, c at next level, right associativity).
Notation "c ;;; k" := (bind c (fun _ => k))
  (at level 61, right associativity).

(** *** ReceiptsGateway *)

Definition emitProgress (receiptId : string) (progress : Z)
    (status message : string) : M unit :=
  tell (EProgress receiptId progress status
          (if String.eqb message EmptyString then status else message)).

Definition emitComplete (receiptId : string) (data : value) : M unit :=
  tell (EComplete receiptId data).

Definition emitError (receiptId : string) (error : string) : M unit :=
  tell (EError receiptId error).

(** *** Firestore *)

(** The fields of [new] laid over [old], as [set(..., {merge: true})] does:
    a map is merged into a map field by field, anything else replaces. *)
Fixpoint merge_value (old new : value) {struct new} : value :=
  match new with
  | VObj ((_ :: _) as nfs) =>
      match old with
      | VObj ofs =>
          VObj (fold_left
                  (fun acc kv =>
                     obj_set (fst kv)
                       (merge_value (get old (fst kv)) (snd kv)) acc)
                  nfs ofs)
      | _ => new
      end
  | _ => new
  end.

Definition merge_doc (old : option (list (string * value))) (new : value)
  : list (string * value) :=
  match old with
  | Some ofs => props (merge_value (VObj ofs) new)
  | None => props new
  end.

(** [update(fields)]: each named field is replaced. *)
Definition update_fields (fields old : list (string * value))
  : list (string * value) :=
  fold_left (fun acc kv => obj_set (fst kv) (snd kv) acc) fields old.

(** [receipts/{id}.set(doc)] *)
Definition doc_create (e : env) (receiptId : string)
    (d : list (string * value)) : M unit :=
  lift (create_outcome e) ;;;
  fun w => (Ok tt, log (WCreate receiptId d) (set_doc d w)).

(** [batch.set(receiptRef, main, {merge: true}); batch.set(sidecarRef,
    sidecar); batch.commit()]: both documents or none. *)
Definition batch_commit (e : env) (receiptId : string)
    (main side : value) : M unit :=
  lift (commit_outcome e) ;;;
  fun w => (Ok tt,
            log (WBatch receiptId main side)
              (set_sidecar side (set_doc (merge_doc (doc w) main) w))).

(** [receiptRef.update(fields)]; the document must exist. *)
Definition doc_update (outcome : result unit) (receiptId : string)
    (fields : list (string * value)) : M unit :=
  fun w =>
    match doc w with
    | None => (Throw "No document to update", w)
    | Some d =>
        match outcome with
        | Ok _ => (Ok tt, log (WUpdate receiptId fields)
                            (set_doc (update_fields fields d) w))
        | Throw m => (Throw m, w)
        end
    end.

(** *** HederaService.anchorToHCS *)

(** The message submitted to the topic. *)
Definition hcs_message (e : env) (entityId dataHash : string) : string :=
  ser (VObj [("entity_id", VStr entityId);
             ("data_hash", VStr dataHash);
             ("timestamp", VStr (now_iso e))]%string).

(** The anchor built from the transaction id and consensus timestamp. *)
Definition anchor_of (e : env) (dataHash : string) (tx : string * string)
  : anchor :=
  {| transaction_id := fst tx;
     consensus_timestamp := snd tx;
     message_hash := dataHash;
     explorer_url :=
       ("https://hashscan.io/" ++ hedera_network e
          ++ "/transaction/" ++ fst tx)%string |}.

Definition anchorToHCS (e : env) (entityId : string) (data : value)
  : M anchor :=
  tell (CAnchor entityId data) ;;;
  match JSON_stringify data with
  | None =>
      throw ("The " ++ str1 dquote ++ "data" ++ str1 dquote
             ++ " argument must be of type string or an instance of Buffer, TypedArray, or DataView. Received undefined")
  | Some text =>
      let dataHash := sha256_hex e text in
      tx <- lift (hcs_submit e (hcs_message e entityId dataHash)) ;;
      let a := anchor_of e dataHash tx in
      lift (anchors_add_outcome e) ;;;
      (fun w =>
         (Ok tt,
          add_anchor
            (VObj ([("entity_type", VStr "receipt");
                    ("entity_id", VStr entityId)]%string
                   ++ props (anchor_value a)
                   ++ [("created_at", VNum (server_time e))]%string)) w)) ;;;
      ret a
  end.

(** *** ReceiptsService *)

Definition getUserFriendlyError (error_message : string) : string :=
  let message :=
    if String.eqb error_message EmptyString then "Unknown error"%string
    else error_message in
  if includes "timeout" message then
    "Analysis timed out. The image might be too large. Please try a smaller image."
  else if includes "unavailable" message || includes "ECONNREFUSED" message then
    "Service temporarily unavailable. Please try again in a few minutes."
  else if includes "invalid image" message || includes "format" message then
    "Invalid image format. Please upload a JPG, PNG, or PDF file."
  else if includes "too large" message || includes "exceeds" message then
    "Analysis data is too large to store. This is a system limitation we are working to resolve."
  else message.

Definition code_is (c : string) (e : ai_error) : bool :=
  match ae_code e with Some c' => String.eqb c c' | None => false end.

(** The message of the error thrown from the [catch (aiError)] block. *)
Definition classify_ai_error (e : ai_error) : string :=
  if code_is "ECONNABORTED" e || includes "timeout" (ae_message e) then
    "AI analysis timed out. The image might be too large or the service is busy. Please try again."
  else if code_is "ECONNREFUSED" e || code_is "ENOTFOUND" e then
    "AI service is currently unavailable. Our team has been notified. Please try again in a few minutes."
  else
    to_string
      (or_else (ae_detail e)
         (or_else (ae_data_message e)
            (VStr "AI analysis failed. Please try again with a clearer image."))).

(** Do the logging statements after the response run to their end?
    [Object.keys(analysisResult)] needs a response that is not [null];
    [analysisResult.ocr_text?.substring(0, 100)] needs [ocr_text] absent,
    [null] or a string. *)
Definition response_logs (analysisResult : value) : bool :=
  negb (nullish analysisResult)
  && (nullish (get analysisResult "ocr_text")
      || is_string (get analysisResult "ocr_text")).

(** The inner [try]: the analyzer call and the logging of its response. *)
Definition call_ai (e : env) : M value :=
  match ai_outcome e with
  | inr analysisResult =>
      if response_logs analysisResult then ret analysisResult
      else
        (* a TypeError, caught by [catch (aiError)]: no code, no response *)
        throw "AI analysis failed. Please try again with a clearer image."
  | inl aiError => throw (classify_ai_error aiError)
  end.

Definition size_limit : Z := 1048576.

(** The message of the error thrown by the size check. *)
Definition size_error (mainSize : Z) : string :=
  ("Main payload size " ++ toFixed2_div1024 mainSize
     ++ "KB exceeds Firestore 1MB limit")%string.

Definition analyzeReceiptAsync (e : env) (receiptId imageUrl : string)
    (anchorOnHedera : bool) : M unit :=
  try_catch
    (emitProgress receiptId 20 "ocr_started" "Extracting text with AI..." ;;;
     emitProgress receiptId 40 "forensics_running"
       "Running forensic analysis..." ;;;
     analysisResult <- call_ai e ;;
     emitProgress receiptId 80 "analysis_complete" "Analysis complete!" ;;;
     payloads <- lift (split (elapsed e) analysisResult) ;;
     let cleanedMain := fst payloads in
     let cleanedSidecar := snd payloads in
     let mainSize := js_length (ser cleanedMain) in
     (if mainSize >? size_limit then throw (size_error mainSize)
      else ret tt) ;;;
     batch_commit e receiptId cleanedMain cleanedSidecar ;;;
     (if anchorOnHedera then
        emitProgress receiptId 90 "hedera_anchoring"
          "Anchoring to blockchain..." ;;;
        hederaResult <- anchorToHCS e receiptId analysisResult ;;
        doc_update (anchor_update_outcome e) receiptId
          [("hedera_anchor", anchor_value hederaResult)]%string ;;;
        emitProgress receiptId 100 "hedera_anchored" "Verified on blockchain!"
      else
        emitProgress receiptId 100 "complete" "Verification complete!") ;;;
     lift (get_outcome e) ;;;
     finalDoc <- read_doc ;;
     emitComplete receiptId
       (match finalDoc with Some d => VObj d | None => VUndef end))
    (fun error_message =>
       let userFriendlyError := getUserFriendlyError error_message in
       doc_update (fail_update_outcome e) receiptId
         [("status", VStr "failed");
          ("error", VStr userFriendlyError);
          ("error_timestamp", VNum (server_time e))]%string ;;;
       emitError receiptId userFriendlyError).

(** [dto.userId || 'anonymous'] *)
Definition or_anonymous (userId : option string) : string :=
  match userId with
  | Some u => if String.eqb u EmptyString then "anonymous"%string else u
  | None => "anonymous"%string
  end.

(** What [scanReceipt] returns; the background task is started and not
    awaited, so that its outcome shows in the world only. *)
Definition scanReceipt (e : env) (receiptId : string) (userId : option string)
    (anchorOnHedera : bool) : M string :=
  emitProgress receiptId 5 "uploading" "Starting upload..." ;;;
  uploadResult <- lift (upload_outcome e) ;;
  emitProgress receiptId 15 "upload_complete" "Image uploaded successfully" ;;;
  doc_create e receiptId
    [("receipt_id", VStr receiptId);
     ("user_id", VStr (or_anonymous userId));
     ("storage_path", VStr (secure_url uploadResult));
     ("cloudinary_public_id", VStr (cloudinary_public_id uploadResult));
     ("upload_timestamp", VNum (server_time e));
     ("status", VStr "processing");
     ("analysis", VNull);
     ("hedera_anchor", VNull)]%string ;;;
  (fun w =>
     (Ok receiptId,
      snd (analyzeReceiptAsync e receiptId (secure_url uploadResult)
             anchorOnHedera w))).

(** What [anchorReceiptToHedera] returns. *)
Record anchor_response : Type :=
  { success : bool; message : string; hedera_anchor : value }.

Definition anchorReceiptToHedera (e : env) (receiptId : string)
  : M anchor_response :=
  lift (get_outcome e) ;;;
  d <- read_doc ;;
  match d with
  | None => throw "Receipt not found"
  | Some receiptData =>
      if truthy (get (VObj receiptData) "hedera_anchor") then
        ret {| success := true;
               message := "Receipt already anchored";
               hedera_anchor := get (VObj receiptData) "hedera_anchor" |}
      else
        hederaResult <-
          anchorToHCS e receiptId (get (VObj receiptData) "analysis") ;;
        doc_update (anchor_update_outcome e) receiptId
          [("hedera_anchor", anchor_value hederaResult)]%string ;;;
        ret {| success := true;
               message := "Successfully anchored to Hedera";
               hedera_anchor := anchor_value hederaResult |}
  end.

(* ================================================================== *)
(** ** Notions used by the statements *)

(** A property name the sanitizer treats as any other: none of the
    oversized and serialized keys, and not [__proto__]. *)
Definition plain_key (k : string) : bool :=
  negb (mem k oversized_keys) && negb (mem k heavy_keys)
  && negb (String.eqb k "__proto__"%string).

(** No array that the sanitizer cleans entry by entry begins with [null] or
    [undefined]. *)
Fixpoint heads_defined (v : value) : bool :=
  match v with
  | VArr l =>
      match l with
      | [] => true
      | VArr _ :: _ => true
      | x :: _ => negb (nullish x) && forallb heads_defined l
      end
  | VObj fs =>
      forallb (fun kv : string * value =>
                 let (k, x) := kv in
                 negb (plain_key k) || heads_defined x) fs
  | _ => true
  end.

(** [obj.length > 0 && Array.isArray(obj[0])] *)
Definition is_matrix (l : list value) : bool :=
  match l with
  | x :: _ => isArray x
  | [] => false
  end.

Fixpoint distinct (l : list string) : bool :=
  match l with
  | [] => true
  | k :: r => negb (mem k r) && distinct r
  end.

Definition keys (fs : list (string * value)) : list string := map fst fs.

(** A value as [JSON.parse] yields it: no [undefined] anywhere and no
    repeated property name. *)
Fixpoint json_data (v : value) : bool :=
  match v with
  | VUndef => false
  | VArr l => forallb json_data l
  | VObj fs =>
      distinct (map fst fs)
      && forallb (fun kv : string * value => json_data (snd kv)) fs
  | _ => true
  end.

(** Every code unit is below U+0080. *)
Fixpoint ascii_only (s : string) : bool :=
  match s with
  | EmptyString => true
  | String c r => (N_of_ascii c <? 128)%N && ascii_only r
  end.

(** [n] copies of [c]. *)
Definition nrepeat (c : ascii) (n : N) : string :=
  N.iter n (String c) EmptyString.

(** *** Reading back what [ser] wrote *)

(** Steps of the reader that a value needs. *)
Fixpoint fuel_of (v : value) : nat :=
  match v with
  | VArr l => S (list_sum (map (fun x => S (fuel_of x)) l))
  | VObj fs =>
      S (list_sum
           (map (fun kv : string * value =>
                   let (k, x) := kv in
                   if is_undefined x then O else S (fuel_of x)) fs))
  | _ => 1%nat
  end.

Definition elem_fuel (l : list value) : nat :=
  list_sum (map (fun x => S (fuel_of x)) l).

Definition member_fuel (ms : list (string * value)) : nat :=
  list_sum (map (fun kv => S (fuel_of (snd kv))) ms).

Definition value_start (c : ascii) : bool :=
  let n := N_of_ascii c in
  ((n =? 110) || (n =? 116) || (n =? 102) || (n =? 34) || (n =? 91)
   || (n =? 123) || (n =? 45) || is_digit c)%N.

Definition starts_digit (s : string) : bool :=
  match s with String c _ => is_digit c | EmptyString => false end.

(** The text after a number does not go on as a number. *)
Definition number_ends (s : string) : bool :=
  negb (starts_digit s) && negb (continues_number s).

Definition defined_members (fs : list (string * value))
  : list (string * value) :=
  filter (fun kv => negb (is_undefined (snd kv))) fs.

(** The text of one property. *)
Definition entry (kv : string * value) : string :=
  (quote (fst kv) ++ ":" ++ ser (snd kv))%string.

(** The reader returns the clone of [v] from the text of [v]. *)
Definition parses (v : value) : Prop :=
  forall fuel rest,
    (fuel_of v <= fuel)%nat -> number_ends rest = true ->
    parse_value fuel (ser v ++ rest)%string = Some (json_clone v, rest).

(** *** Traces and job records *)

Definition percents (t : list effect) : list Z :=
  flat_map (fun ev => match ev with EProgress _ p _ _ => [p] | _ => [] end) t.

Fixpoint nondecreasing (l : list Z) : bool :=
  match l with
  | x :: ((y :: _) as r) => (x <=? y) && nondecreasing r
  | _ => true
  end.

Definition is_terminal (ev : effect) : bool :=
  match ev with EComplete _ _ | EError _ _ => true | _ => false end.

Definition terminal_count (t : list effect) : nat :=
  List.length (filter is_terminal t).

(** A write that puts the job record in a final status. *)
Definition writes_final_status (ev : effect) : bool :=
  match ev with
  | WBatch _ main _ =>
      String.eqb (to_string (get main "status")) "completed"
  | WUpdate _ fields =>
      String.eqb (to_string (get (VObj fields) "status")) "failed"
  | _ => false
  end.

(** The trace ends with its only terminal event, and a write of a final
    status comes before it. *)
Definition ends_with_terminal (t : list effect) : bool :=
  match rev t with
  | ev :: before =>
      is_terminal ev && negb (existsb is_terminal before)
      && existsb writes_final_status before
  | [] => false
  end.

(** The invariant of a job record. *)
Definition record_ok (d : list (string * value)) : Prop :=
  (get (VObj d) "status" = VStr "completed" ->
   nullish (get (VObj d) "analysis") = false
   /\ nullish (get (VObj d) "error") = true)
  /\ (get (VObj d) "status" = VStr "failed" ->
      nullish (get (VObj d) "error") = false).

(** The worlds a job can be in: after [scanReceipt] and its background
    task, and after any number of calls of [anchorReceiptToHedera]. *)
Inductive reachable (receiptId : string) : world -> Prop :=
| reach_scan e userId anchorOnHedera :
    reachable receiptId
      (snd (scanReceipt e receiptId userId anchorOnHedera world0))
| reach_anchor e w :
    reachable receiptId w ->
    reachable receiptId (snd (anchorReceiptToHedera e receiptId w)).

Definition world_ok (w : world) : Prop :=
  Forall record_ok (history w)
  /\ forall d, doc w = Some d -> record_ok d.

(** The anchor field of a record is [null] or an anchor. *)
Definition anchor_field_ok (d : list (string * value)) : Prop :=
  get (VObj d) "hedera_anchor" = VNull
  \/ exists a, get (VObj d) "hedera_anchor" = anchor_value a.

(** *** Concrete inputs *)

Definition env_ok (raw : value) : env :=
  {| upload_outcome := Ok {| secure_url := "https://cdn/r.jpg"%string;
                            cloudinary_public_id := "r"%string |};
     server_time := 1700000000;
     create_outcome := Ok tt;
     ai_outcome := inr raw;
     elapsed := 2000;
     commit_outcome := Ok tt;
     sha256_hex := fun _ => "ab12"%string;
     hedera_network := "testnet"%string;
     now_iso := "2025-01-01T00:00:00.000Z"%string;
     hcs_submit := fun _ => Ok ("0.0.1@1.2", "1.000000002")%string;
     anchors_add_outcome := Ok tt;
     anchor_update_outcome := Ok tt;
     get_outcome := Ok tt;
     fail_update_outcome := Ok tt |}.

(** An authentic receipt, as in scenario A. *)
Definition raw_A : value :=
  VObj [("trust_score", VNum 92); ("verdict", VStr "authentic");
        ("issues", VArr []);
        ("forensic_details", VObj [("manipulation_score", VNum 0)])]%string.

(** The summary of [raw_A] after 2000 ms. *)
Definition main_A : value :=
  VObj [("ocr_text", VStr EmptyString);
        ("analysis",
           VObj [("trust_score", VNum 92);
                 ("verdict", VStr "authentic");
                 ("issues", VArr []);
                 ("recommendation", VStr EmptyString);
                 ("merchant", VNull);
                 ("forensic_details",
                    VObj [("manipulation_score", VNum 0);
                          ("forensic_findings", VStr "[]");
                          ("agent_logs", VStr "[]");
                          ("forensic_progress", VArr [])])]);
        ("processing_time", VNum 2000);
        ("status", VStr "completed")]%string.

(** The ledger refuses the transaction; everything else succeeds. *)
Definition env_anchor_fails : env :=
  {| upload_outcome := upload_outcome (env_ok raw_A);
     server_time := 1700000000;
     create_outcome := Ok tt;
     ai_outcome := inr raw_A;
     elapsed := 2000;
     commit_outcome := Ok tt;
     sha256_hex := fun _ => "ab12"%string;
     hedera_network := "testnet"%string;
     now_iso := "2025-01-01T00:00:00.000Z"%string;
     hcs_submit := fun _ => Throw "INSUFFICIENT_PAYER_BALANCE"%string;
     anchors_add_outcome := Ok tt;
     anchor_update_outcome := Ok tt;
     get_outcome := Ok tt;
     fail_update_outcome := Ok tt |}.

(** The analyzer is down and the store refuses the failure write. *)
Definition env_store_down : env :=
  {| upload_outcome := upload_outcome (env_ok raw_A);
     server_time := 1700000000;
     create_outcome := Ok tt;
     ai_outcome :=
       inl {| ae_code := Some "ECONNREFUSED"%string;
              ae_message := "connect ECONNREFUSED 127.0.0.1:8000"%string;
              ae_detail := VUndef;
              ae_data_message := VUndef |};
     elapsed := 2000;
     commit_outcome := Ok tt;
     sha256_hex := fun _ => "ab12"%string;
     hedera_network := "testnet"%string;
     now_iso := "2025-01-01T00:00:00.000Z"%string;
     hcs_submit := fun _ => Ok ("0.0.1@1.2", "1.000000002")%string;
     anchors_add_outcome := Ok tt;
     anchor_update_outcome := Ok tt;
     get_outcome := Ok tt;
     fail_update_outcome := Throw "14 UNAVAILABLE: No connection established"%string |}.

(** A response with the three oversized fields, one of them as text. *)
Definition raw_heatmap : value :=
  VObj [("trust_score", VNum 80); ("verdict", VStr "suspicious");
        ("forensic_details",
           VObj [("manipulation_score", VNum 35);
                 ("heatmap", VArr [VArr [VNum 1; VNum 2];
                                   VArr [VNum 3; VNum 4]]);
                 ("pixel_diff", VObj [("max", VNum 7)]);
                 ("ela_analysis",
                    VStr (ser (VObj [("mean", VNum 3)])))])]%string.

(** A response with six findings. *)
Definition findings6 : list value :=
  [VStr "a"; VStr "b"; VStr "c"; VStr "d"; VStr "e"; VStr "f"]%string.

Definition raw_findings6 : value :=
  VObj [("trust_score", VNum 40);
        ("forensic_details",
           VObj [("forensic_findings", VArr findings6)])]%string.

(** Six findings, the first of them [null]. *)
Definition raw_findings_null : value :=
  VObj [("forensic_details",
           VObj [("forensic_findings",
                    VArr (VNull :: firstn 5 findings6))])]%string.

(** A nested object with an [undefined] and a [null] property. *)
Definition nested_example : value :=
  VObj [("report",
           VObj [("merchant", VNull); ("tax", VUndef);
                 ("lines", VArr [VNum 1; VNull; VNum 2])])]%string.

(** A response whose text is 600000 times the letter U+00E9. *)
Definition eacute : ascii := ascii_of_N 233.

Definition big_text : string := String eacute (nrepeat eacute 599999).

Definition raw_text (t : string) : value :=
  VObj [("ocr_text", VStr t)]%string.

(** The summary of [raw_text t] for a text [t] that is not empty, and the
    text of that summary before and after [t]. *)
Definition main_rest : list (string * value) :=
  [("analysis",
      VObj [("trust_score", VNum 0);
            ("verdict", VStr "unknown");
            ("issues", VArr []);
            ("recommendation", VStr EmptyString);
            ("merchant", VNull);
            ("forensic_details",
               VObj [("forensic_findings", VStr "[]");
                     ("agent_logs", VStr "[]");
                     ("forensic_progress", VArr [])])]);
   ("processing_time", VNum 2000);
   ("status", VStr "completed")]%string.

Definition main_text (t : string) : value :=
  VObj (("ocr_text"%string, VStr t) :: main_rest).

Definition main_pre : string :=
  ("{" ++ quote "ocr_text" ++ ":" ++ str1 dquote)%string.

Definition main_post : string :=
  (str1 dquote ++ "," ++ join "," (map entry main_rest) ++ "}")%string.

Definition side_empty : value :=
  VObj [("technical_details", VStr "{}");
        ("agent_logs", VStr "[]");
        ("forensic_progress", VArr []);
        ("forensic_findings_full", VArr [])]%string.

(** A record that is still being processed, and one that is anchored. *)
Definition doc_processing : list (string * value) :=
  [("receipt_id", VStr "RCP-1"); ("user_id", VStr "anonymous");
   ("status", VStr "processing"); ("analysis", VNull);
   ("hedera_anchor", VNull)]%string.

Definition anchor_1 : anchor :=
  {| transaction_id := "0.0.1@1.2";
     consensus_timestamp := "1.000000002";
     message_hash := "ab12";
     explorer_url := "https://hashscan.io/testnet/transaction/0.0.1@1.2" |}.

Definition doc_anchored : list (string * value) :=
  [("receipt_id", VStr "RCP-1"); ("user_id", VStr "anonymous");
   ("status", VStr "completed"); ("analysis", VObj [("trust_score", VNum 92)]);
   ("hedera_anchor", anchor_value anchor_1)]%string.

Definition world_of (d : list (string * value)) : world :=
  {| doc := Some d; sidecar := None; anchors := []; history := [d];
     trace := [] |}.

(* ================================================================== *)
(** ** Further functions of the services *)

(** *** ReceiptsService.getReceipt *)

Record receipt_response : Type :=
  { rr_success : bool; rr_data : value }.

Definition getReceipt (e : env) (receiptId : string) : M receipt_response :=
  lift (get_outcome e) ;;;
  d <- read_doc ;;
  match d with
  | None => throw "Receipt not found"
  | Some data => ret {| rr_success := true; rr_data := VObj data |}
  end.

(** *** HederaService.verifyAnchor *)

(** [doc.k == s], for a string [s]. *)
Definition field_is (k s : string) (d : value) : bool :=
  match get d k with
  | VStr t => String.eqb t s
  | _ => false
  end.

(** [query] is the outcome of the read of [hedera_anchors]. *)
Definition verifyAnchor (query : result unit) (transactionId : string)
  : M bool :=
  fun w =>
    match query with
    | Ok _ =>
        (Ok (existsb (field_is "transaction_id" transactionId) (anchors w)), w)
    | Throw _ => (Ok false, w)
    end.

(** *** HederaService.updateTrustScore *)

(** The update record; [recordTime] is [new Date().toISOString()]. *)
Definition updateRecord_of (business : value) (businessId : string)
    (newTrustScore : Z) (recordTime : string) : value :=
  VObj [("business_id", VStr businessId);
        ("old_trust_score", get business "trust_score");
        ("new_trust_score", VNum newTrustScore);
        ("nft_serial",
           get (get (get business "hedera") "trust_id_nft") "serial_number");
        ("timestamp", VStr recordTime)]%string.

(** What [updateTrustScore] returns. *)
Record update_response : Type :=
  { ur_success : bool; ur_update_record : value; ur_hedera_anchor : value }.

(** The state is the world and the collection [trust_score_updates];
    [business_read] is the outcome of the read of the business document
    ([undefined] data when it does not exist), [add_outcome] that of the
    write of the update. *)
Definition updateTrustScore (e : env) (business_read : result value)
    (add_outcome : result unit) (recordTime : string)
    (businessId : string) (newTrustScore : Z)
    (st : world * list value)
  : result update_response * (world * list value) :=
  let (w, updates) := st in
  match business_read with
  | Throw m => (Throw m, st)
  | Ok business =>
      if negb (truthy (get (get business "hedera") "trust_id_nft")) then
        (Throw "No Trust ID NFT found for this business", st)
      else
        let updateRecord :=
          updateRecord_of business businessId newTrustScore recordTime in
        match anchorToHCS e ("TRUST_UPDATE_" ++ businessId)%string
                updateRecord w with
        | (Throw m, w') => (Throw m, (w', updates))
        | (Ok a, w') =>
            match add_outcome with
            | Throw m => (Throw m, (w', updates))
            | Ok _ =>
                (Ok {| ur_success := true;
                       ur_update_record := updateRecord;
                       ur_hedera_anchor := anchor_value a |},
                 (w',
                  updates ++
                  [VObj (props updateRecord ++
                         [("hedera_anchor", anchor_value a);
                          ("created_at", VNum (server_time e))]%string)]))
            end
        end
  end.

(** *** HederaService.mintTrustIdNFT and its caller's score *)

(** [scores[tier] || 50] *)
Definition calculateInitialTrustScore (tier : Z) : Z :=
  match tier with
  | 1 => 50
  | 2 => 70
  | 3 => 85
  | _ => 50
  end.

(** [s.split('T')[0]] *)
Fixpoint before_T (s : string) : string :=
  match s with
  | EmptyString => EmptyString
  | String c r =>
      if (N_of_ascii c =? 84)%N then EmptyString else String c (before_T r)
  end.

Definition compactMetadata (businessId : string)
    (trustScore verificationTier : Z) (nowIso : string) : value :=
  VObj [("id", VStr businessId);
        ("ts", VNum trustScore);
        ("tier", VNum verificationTier);
        ("v", VStr (before_T nowIso))]%string.

(** The outcome of every call that leaves the process in a mint. *)
Record mint_env : Type :=
  { token_id : string;                        (* config hedera.tokenId *)
    mint_network : string;                    (* config hedera.network *)
    mint_now_iso : string;                    (* new Date().toISOString() *)
    verified_at_iso : string;                 (* the later new Date() *)
    mint_outcome : string -> result (string * string);
                          (* serial number and transaction id of the mint *)
    nft_add_outcome : result unit;            (* hedera_nfts.add *)
    business_update_outcome : result unit;    (* businesses/{id}.update *)
    mint_time : Z }.                          (* serverTimestamp() *)

(** What a mint shows outside. *)
Inductive mint_effect : Type :=
| MintTx (token : string) (metadata : string)
| NftAdd (nftData : value)
| BusinessUpdate (businessId : string) (nft : value).

Definition metadata_error (size : Z) : string :=
  ("Metadata too large: " ++ print_Z size ++ " bytes (max 100)")%string.

Definition nftData_of (me : mint_env) (businessId businessName : string)
    (trustScore verificationTier : Z) (minted : string * string) : value :=
  VObj [("token_id", VStr (token_id me));
        ("serial_number", VStr (fst minted));
        ("business_id", VStr businessId);
        ("metadata",
           VObj [("business_id", VStr businessId);
                 ("business_name", VStr businessName);
                 ("trust_score", VNum trustScore);
                 ("verification_tier", VNum verificationTier);
                 ("verified_at", VStr (verified_at_iso me));
                 ("network", VStr "ConfirmIT");
                 ("type", VStr "Trust_ID_Certificate")]);
        ("mint_transaction_id", VStr (snd minted));
        ("explorer_url",
           VStr ("https://hashscan.io/" ++ mint_network me ++ "/token/"
                 ++ token_id me ++ "/" ++ fst minted));
        ("minted_at", VNum (mint_time me))]%string.

(** The trace of the effects is the state. *)
Definition mintTrustIdNFT (me : mint_env) (businessId businessName : string)
    (trustScore verificationTier : Z) (t : list mint_effect)
  : result value * list mint_effect :=
  let metadata :=
    ser (compactMetadata businessId trustScore verificationTier
           (mint_now_iso me)) in
  if utf8_size metadata >? 100 then
    (Throw (metadata_error (utf8_size metadata)), t)
  else
    match mint_outcome me metadata with
    | Throw m => (Throw m, t ++ [MintTx (token_id me) metadata])
    | Ok minted =>
        let t1 := t ++ [MintTx (token_id me) metadata] in
        let nftData :=
          nftData_of me businessId businessName trustScore verificationTier
            minted in
        match nft_add_outcome me with
        | Throw m => (Throw m, t1)
        | Ok _ =>
            let t2 := t1 ++ [NftAdd nftData] in
            match business_update_outcome me with
            | Throw m => (Throw m, t2)
            | Ok _ =>
                (Ok nftData,
                 t2 ++ [BusinessUpdate businessId
                          (VObj [("token_id", VStr (token_id me));
                                 ("serial_number", VStr (fst minted));
                                 ("explorer_url",
                                    get nftData "explorer_url")]%string)])
            end
        end
    end.

(** *** ReceiptsGateway: the table of connected clients *)

(** A [Map] from client ids to counts, in insertion order. *)
Fixpoint map_get (id : string) (m : list (string * Z)) : option Z :=
  match m with
  | [] => None
  | (k, c) :: r => if String.eqb id k then Some c else map_get id r
  end.

Fixpoint map_set (id : string) (c : Z) (m : list (string * Z))
  : list (string * Z) :=
  match m with
  | [] => [(id, c)]
  | (k, c') :: r =>
      if String.eqb id k then (k, c) :: r else (k, c') :: map_set id c r
  end.

Fixpoint map_delete (id : string) (m : list (string * Z))
  : list (string * Z) :=
  match m with
  | [] => []
  | (k, c) :: r => if String.eqb id k then r else (k, c) :: map_delete id r
  end.

(** [connectedClients.get(id) || 0] *)
Definition count_of (id : string) (m : list (string * Z)) : Z :=
  match map_get id m with
  | Some c => c
  | None => 0
  end.

Definition handleConnection (id : string) (m : list (string * Z))
  : list (string * Z) :=
  map_set id (count_of id m + 1) m.

Definition handleDisconnect (id : string) (m : list (string * Z))
  : list (string * Z) :=
  if count_of id m <=? 1 then map_delete id m else m.

Inductive socket_event : Type :=
| Connects (id : string)
| Disconnects (id : string).

Definition gateway_step (m : list (string * Z)) (ev : socket_event)
  : list (string * Z) :=
  match ev with
  | Connects id => handleConnection id m
  | Disconnects id => handleDisconnect id m
  end.

Definition gateway_run (evs : list socket_event) (m : list (string * Z))
  : list (string * Z) :=
  fold_left gateway_step evs m.

(* ================================================================== *)
(** ** Further notions used by the statements *)

(** What every output of the sanitizer is: free of [undefined], its arrays
    free of [null], its objects free of the oversized keys, and a non-empty
    string under each serialized key. *)
Fixpoint sanitized (v : value) : bool :=
  match v with
  | VUndef => false
  | VArr l => forallb (fun x => negb (nullish x) && sanitized x) l
  | VObj fs =>
      forallb (fun kv : string * value =>
                 let (k, x) := kv in
                 negb (mem k oversized_keys)
                 && (if mem k heavy_keys then is_string x && truthy x
                     else sanitized x)) fs
  | _ => true
  end.

(** The same, and no array that begins with an array and no property named
    [__proto__]. *)
Fixpoint settled (v : value) : bool :=
  match v with
  | VUndef => false
  | VArr l =>
      negb (is_matrix l)
      && forallb (fun x => negb (nullish x) && settled x) l
  | VObj fs =>
      forallb (fun kv : string * value =>
                 let (k, x) := kv in
                 negb (mem k oversized_keys)
                 && (if mem k heavy_keys then is_string x && truthy x
                     else negb (String.eqb k "__proto__"%string)
                          && settled x)) fs
  | _ => true
  end.

(** The forensic details on which the split throws: a value on which no
    property can be created. *)
Definition split_rejects (fd : value) : bool :=
  match fd with
  | VBool b => b
  | VNum n => negb (n =? 0)
  | VStr s => negb (String.eqb s EmptyString)
  | VArr l => is_matrix l
  | _ => false
  end.

(** The rank of a status in the life of a job. *)
Definition status_rank (d : list (string * value)) : Z :=
  match get (VObj d) "status" with
  | VStr s =>
      if String.eqb s "processing" then 0
      else if String.eqb s "completed" then 1
      else if String.eqb s "failed" then 2
      else 3
  | _ => 3
  end.

(** The fields that identify a record. *)
Definition identity_keys : list string :=
  ["receipt_id"; "user_id"; "storage_path"; "cloudinary_public_id";
   "upload_timestamp"]%string.

(** Every code unit is written as itself in a JSON string and is ASCII. *)
Definition plain_char (c : ascii) : bool :=
  let n := N_of_ascii c in
  ((32 <=? n) && (n <? 128) && negb (n =? 34) && negb (n =? 92))%N.

Fixpoint plain_text (s : string) : bool :=
  match s with
  | EmptyString => true
  | String c r => plain_char c && plain_text r
  end.

(** A character of a number in decimal notation. *)
Definition number_char (c : ascii) : bool :=
  let n := N_of_ascii c in
  (is_digit c || (n =? 45) || (n =? 46))%N.

Fixpoint number_text (s : string) : bool :=
  match s with
  | EmptyString => true
  | String c r => number_char c && number_text r
  end.

(** No character of [s] is one of a number. *)
Fixpoint wordy (s : string) : bool :=
  match s with
  | EmptyString => true
  | String c r => negb (number_char c) && wordy r
  end.

(** A value on which a property can be created. *)
Definition is_object (v : value) : bool :=
  match v with
  | VObj _ | VArr _ => true
  | _ => false
  end.

(** Every client of the table has connected at least once. *)
Definition counts_positive (m : list (string * Z)) : Prop :=
  Forall (fun kc => 1 <= snd kc) m.

(** *** The versions of a job record *)

(** The record that [scanReceipt] creates. *)
Definition created_doc (receiptId user url publicId : string) (ts : Z)
  : list (string * value) :=
  [("receipt_id", VStr receiptId);
   ("user_id", VStr user);
   ("storage_path", VStr url);
   ("cloudinary_public_id", VStr publicId);
   ("upload_timestamp", VNum ts);
   ("status", VStr "processing");
   ("analysis", VNull);
   ("hedera_anchor", VNull)]%string.

(** The three writes that make a version from the one before. *)
Inductive evolves : list (string * value) -> list (string * value) -> Prop :=
| ev_completed d elapsed raw main side :
    get (VObj d) "status" = VStr "processing" ->
    split elapsed raw = Ok (main, side) ->
    evolves d (merge_doc (Some d) main)
| ev_anchored d a :
    evolves d (update_fields [("hedera_anchor", anchor_value a)]%string d)
| ev_failed d m ts :
    evolves d
      (update_fields
         [("status", VStr "failed");
          ("error", VStr (getUserFriendlyError m));
          ("error_timestamp", VNum ts)]%string d).

Fixpoint chain {A} (R : A -> A -> Prop) (l : list A) : Prop :=
  match l with
  | x :: r =>
      match r with
      | y :: _ => R x y /\ chain R r
      | [] => True
      end
  | [] => True
  end.

Fixpoint last_opt {A} (l : list A) : option A :=
  match l with
  | [] => None
  | x :: r => match r with [] => Some x | _ => last_opt r end
  end.

(** The history of a job: it begins with the created record, every version
    comes from the one before by one of the three writes, and the record
    is the last version. *)
Definition history_ok (receiptId : string) (w : world) : Prop :=
  doc w = last_opt (history w)
  /\ match history w with
     | [] => True
     | d0 :: _ =>
         exists user url publicId ts,
           d0 = created_doc receiptId user url publicId ts
     end
  /\ chain evolves (history w).

(** A mint in which every call succeeds. *)
Definition mint_env_ok : mint_env :=
  {| token_id := "0.0.7"%string;
     mint_network := "testnet"%string;
     mint_now_iso := "2025-01-01T00:00:00.000Z"%string;
     verified_at_iso := "2025-01-01T00:00:01.000Z"%string;
     mint_outcome := fun _ => Ok ("1", "0.0.1@1.3")%string;
     nft_add_outcome := Ok tt;
     business_update_outcome := Ok tt;
     mint_time := 1700000000 |}.

(** The analyzer does not answer in time; everything else succeeds. *)
Definition env_ai_timeout : env :=
  {| upload_outcome := upload_outcome (env_ok raw_A);
     server_time := 1700000000;
     create_outcome := Ok tt;
     ai_outcome :=
       inl {| ae_code := Some "ECONNABORTED"%string;
              ae_message := "timeout of 180000ms exceeded"%string;
              ae_detail := VUndef;
              ae_data_message := VUndef |};
     elapsed := 2000;
     commit_outcome := Ok tt;
     sha256_hex := fun _ => "ab12"%string;
     hedera_network := "testnet"%string;
     now_iso := "2025-01-01T00:00:00.000Z"%string;
     hcs_submit := fun _ => Ok ("0.0.1@1.2", "1.000000002")%string;
     anchors_add_outcome := Ok tt;
     anchor_update_outcome := Ok tt;
     get_outcome := Ok tt;
     fail_update_outcome := Ok tt |}.

(** The document that [anchorToHCS] adds to [hedera_anchors]. *)
Definition anchor_doc (e : env) (entityId : string) (a : anchor) : value :=
  VObj ([("entity_type", VStr "receipt");
         ("entity_id", VStr entityId)]%string
        ++ props (anchor_value a)
        ++ [("created_at", VNum (server_time e))]%string).

(** A business that holds a Trust ID. *)
Definition business_with_nft : value :=
  VObj [("name", VStr "Shop");
        ("trust_score", VNum 70);
        ("hedera",
           VObj [("trust_id_nft",
                    VObj [("token_id", VStr "0.0.7");
                          ("serial_number", VStr "1")])])]%string.

(** Some version of the record is [completed]. *)
Definition has_completed (w : world) : bool :=
  existsb (fun d => status_rank d =? 1) (history w).

(** The anchor that the record holds is in [hedera_anchors]. *)
Definition anchor_recorded (w : world) : Prop :=
  forall d a,
    doc w = Some d -> get (VObj d) "hedera_anchor" = anchor_value a ->
    existsb (field_is "transaction_id" (transaction_id a)) (anchors w) = true.

(** *** The second pass of the sanitizer *)

(** The first entry of an array other than [null] and [undefined]. *)
Fixpoint first_defined (l : list value) : option value :=
  match l with
  | [] => None
  | x :: r => if nullish x then first_defined r else Some x
  end.

(** An array that the sanitizer cleans entry by entry: one that does not
    begin with an array. *)
Definition plain_array (v : value) : bool :=
  match v with
  | VArr l => negb (is_matrix l)
  | _ => false
  end.

(** The inputs that are sanitized in one pass: in every array that is
    cleaned entry by entry, at a place that the sanitizer reaches, the first
    entry other than [null] and [undefined] is not itself an array cleaned
    entry by entry. *)
Fixpoint stable (v : value) : bool :=
  match v with
  | VArr l =>
      is_matrix l
      || (negb (match first_defined l with
                | Some y => plain_array y
                | None => false
                end)
          && forallb stable l)
  | VObj fs =>
      forallb (fun kv : string * value =>
                 let (k, x) := kv in
                 negb (plain_key k) || stable x) fs
  | _ => true
  end.

(** The store of [env_ok] with the answer [c] to the batch. *)
Definition env_store (c : result unit) (raw : value) : env :=
  {| upload_outcome := upload_outcome (env_ok raw);
     server_time := 1700000000;
     create_outcome := Ok tt;
     ai_outcome := inr raw;
     elapsed := 2000;
     commit_outcome := c;
     sha256_hex := fun _ => "ab12"%string;
     hedera_network := "testnet"%string;
     now_iso := "2025-01-01T00:00:00.000Z"%string;
     hcs_submit := fun _ => Ok ("0.0.1@1.2", "1.000000002")%string;
     anchors_add_outcome := Ok tt;
     anchor_update_outcome := Ok tt;
     get_outcome := Ok tt;
     fail_update_outcome := Ok tt |}.

(** Seven findings: an object with a heatmap, a [null], five strings. *)
Definition findings7 : list value :=
  [VObj [("kind", VStr "ela"); ("heatmap", VArr [VNum 1])];
   VStr "b"; VNull; VStr "d"; VStr "e"; VStr "f"; VStr "g"]%string.

Definition raw_findings7 : value :=
  VObj [("forensic_details",
           VObj [("forensic_findings", VArr findings7)])]%string.

(* ================================================================== *)
(** ** Examples *)

Example strip_ex1 :
  stripUndefinedDeep
    (VObj [("a", VUndef); ("b", VNull); ("heatmap", VArr [VNum 1]);
           ("c", VArr [VNull; VNum 2; VUndef])]%string)
  = VObj [("b", VNull); ("c", VArr [VNum 2])]%string.
Proof. reflexivity. Qed.

Example strip_ex2 :
  stripUndefinedDeep (VArr [VArr [VNum 1; VNum (-20)]; VArr []])
  = VStr "[[1,-20],[]]".
Proof. reflexivity. Qed.

Example parse_ex1 :
  JSON_parse " [1, -20 ,null , true,[ ] , {  }, 0 ] "
  = Some (VArr [VNum 1; VNum (-20); VNull; VBool true; VArr []; VObj [];
                VNum 0]).
Proof. reflexivity. Qed.

Example parse_ex2 :
  let v :=
    VObj [("a", VStr (String "x" (String (ascii_of_N 10)
                                    (String dquote "y"))));
          ("b", VObj [("c", VArr [VNum 7; VStr EmptyString])])]%string in
  JSON_parse (ser v) = Some v.
Proof. reflexivity. Qed.

Example parse_ex3 :
  JSON_parse "01" = None /\ JSON_parse "1.5" = None
  /\ JSON_parse "[1,]" = None /\ JSON_parse "-0" = Some (VNum 0).
Proof. repeat split; reflexivity. Qed.

Example toFixed_ex :
  toFixed2_div1024 1048577 = "1024.00"%string
  /\ toFixed2_div1024 1500 = "1.46"%string
  /\ toFixed2_div1024 1029 = "1.00"%string.
Proof. repeat split; reflexivity. Qed.

Example friendly_ex :
  getUserFriendlyError (size_error 2000000)
  = "Analysis data is too large to store. This is a system limitation we are working to resolve."%string.
Proof. reflexivity. Qed.

(** Scenario A: an authentic receipt, without anchoring. *)
Example scenario_A :
  let w := snd (scanReceipt (env_ok raw_A) "RCP-1" None false world0) in
  match doc w with
  | Some d =>
      get (VObj d) "status" = VStr "completed"
      /\ get_path (VObj d) ["analysis"; "trust_score"]%string = VNum 92
      /\ get_path (VObj d) ["analysis"; "verdict"]%string = VStr "authentic"
  | None => False
  end
  /\ percents (trace w) = [5; 15; 20; 40; 80; 100].
Proof. vm_compute. repeat split; reflexivity. Qed.

(* ================================================================== *)
(** ** Facts: JSON text *)

Local Open Scope string_scope.

Lemma append_assoc (a b c : string) : (a ++ b) ++ c = a ++ (b ++ c).
Proof. induction a; simpl; [reflexivity | now rewrite IHa]. Qed.

Lemma append_nil_r (a : string) : a ++ EmptyString = a.
Proof. induction a; simpl; [reflexivity | now rewrite IHa]. Qed.

(** *** String literals are read back *)

Lemma parse_escape_char c t :
  parse_string_body (escape_char c ++ t) = cons_char c (parse_string_body t).
Proof.
  destruct c as [[] [] [] [] [] [] [] []]; reflexivity.
Qed.

Lemma parse_escape s rest :
  parse_string_body (escape s ++ String dquote rest) = Some (s, rest).
Proof.
  induction s as [|c s IH]; [reflexivity|].
  simpl escape. rewrite append_assoc, parse_escape_char, IH. reflexivity.
Qed.

Lemma parse_quote s rest :
  parse_string_body (escape s ++ str1 dquote ++ rest) = Some (s, rest).
Proof. apply parse_escape. Qed.

(** *** Integer literals are read back *)

Lemma take_digits_stop rest :
  starts_digit rest = false -> take_digits rest = (EmptyString, rest).
Proof. destruct rest as [|c r]; simpl; [reflexivity|]. now intros ->. Qed.

Lemma take_digits_uint d rest :
  starts_digit rest = false ->
  take_digits (NilEmpty.string_of_uint d ++ rest)
  = (NilEmpty.string_of_uint d, rest).
Proof.
  intros H. induction d; simpl;
    try (rewrite IHd; reflexivity).
  now apply take_digits_stop.
Qed.

Lemma print_Z_parses n :
  NilZero.int_of_string (print_Z n) = Some (Z.to_int n).
Proof.
  unfold print_Z. apply NilZero.isi; destruct n; simpl; try discriminate;
    intros [= H]; now apply Unsigned.to_uint_nonnil in H.
Qed.

Lemma print_Z_not_minus_zero n : String.eqb (print_Z n) "-0" = false.
Proof.
  apply String.eqb_neq. intros H.
  pose proof (print_Z_parses n) as Hp. rewrite H in Hp.
  simpl in Hp. destruct n; simpl in Hp; try discriminate.
  injection Hp as Hp. symmetry in Hp. now apply Unsigned.to_uint_nonzero in Hp.
Qed.

Lemma parse_number_print n rest :
  number_ends rest = true ->
  parse_number (print_Z n ++ rest) = Some (n, rest).
Proof.
  intros Hr. apply andb_true_iff in Hr. destruct Hr as [Hd Hc].
  apply negb_true_iff in Hd. apply negb_true_iff in Hc.
  assert (Hfin : forall sign d,
    print_Z n = sign ++ NilEmpty.string_of_uint d ->
    (let (d', rest') := take_digits (NilEmpty.string_of_uint d ++ rest) in
     if continues_number rest' then None
     else
       let lit := sign ++ d' in
       if String.eqb lit "-0" then Some (0%Z, rest')
       else match NilZero.int_of_string lit with
            | Some i => let z := Z.of_int i in
                        if String.eqb (print_Z z) lit then Some (z, rest') else None
            | None => None
            end) = Some (n, rest)).
  { intros sign d E. rewrite take_digits_uint by exact Hd.
    rewrite Hc. cbv zeta. rewrite <- E, print_Z_not_minus_zero, print_Z_parses.
    rewrite DecimalZ.of_to, String.eqb_refl. reflexivity. }
  unfold parse_number.
  destruct n as [|p|p].
  - apply (Hfin EmptyString (Decimal.D0 Decimal.Nil)). reflexivity.
  - assert (E : print_Z (Z.pos p) = NilEmpty.string_of_uint (Pos.to_uint p)).
    { unfold print_Z. simpl. pose proof (Unsigned.to_uint_nonnil p).
      destruct (Pos.to_uint p); [contradiction|reflexivity..]. }
    rewrite E.
    pose proof (Unsigned.to_uint_nonnil p) as Hn.
    specialize (Hfin EmptyString (Pos.to_uint p) E).
    destruct (Pos.to_uint p); [contradiction|exact Hfin..].
  - assert (E : print_Z (Z.neg p) = "-" ++ NilEmpty.string_of_uint (Pos.to_uint p)).
    { unfold print_Z. simpl. pose proof (Unsigned.to_uint_nonnil p).
      destruct (Pos.to_uint p); [contradiction|reflexivity..]. }
    rewrite E. exact (Hfin "-" (Pos.to_uint p) E).
Qed.

Lemma value_start_spec c :
  value_start c = true ->
  is_ws c = false /\ (N_of_ascii c =? 93)%N = false
  /\ (N_of_ascii c =? 125)%N = false.
Proof.
  destruct c as [[] [] [] [] [] [] [] []]; cbv; intuition congruence.
Qed.

Lemma uint_start d :
  d <> Decimal.Nil ->
  exists c t, NilEmpty.string_of_uint d = String c t /\ is_digit c = true.
Proof. destruct d; intros H; try contradiction; simpl; eauto. Qed.

Lemma print_Z_start n :
  exists c t, print_Z n = String c t /\ value_start c = true.
Proof.
  unfold print_Z. destruct n as [|p|p]; simpl.
  - exists "0"%char, EmptyString. now split.
  - pose proof (Unsigned.to_uint_nonnil p) as Hn.
    destruct (uint_start _ Hn) as (c & t & E & Hc).
    exists c, t. split.
    + rewrite <- E. now destruct (Pos.to_uint p).
    + unfold value_start. rewrite Hc. now rewrite !orb_true_r.
  - eexists _, _. split; [reflexivity|reflexivity].
Qed.

Lemma ser_start v :
  exists c t, ser v = String c t /\ value_start c = true.
Proof.
  destruct v as [| |[]|n|s|l|fs]; simpl;
    try (eexists _, _; split; reflexivity).
  apply print_Z_start.
Qed.

(** *** Values are read back *)

Lemma skip_ws_start c t : is_ws c = false -> skip_ws (String c t) = String c t.
Proof. simpl. now intros ->. Qed.

Lemma skip_ws_ser v rest : skip_ws (ser v ++ rest) = ser v ++ rest.
Proof.
  destruct (ser_start v) as (c & t & E & Hc). rewrite E. simpl append.
  apply skip_ws_start. now apply value_start_spec.
Qed.

Lemma parse_value_S f s :
  parse_value (S f) s =
  match skip_ws s with
  | EmptyString => None
  | String c r =>
      let n := N_of_ascii c in
      if (n =? 110)%N then
        match expect "ull" r with
        | Some rest => Some (VNull, rest) | None => None end
      else if (n =? 116)%N then
        match expect "rue" r with
        | Some rest => Some (VBool true, rest) | None => None end
      else if (n =? 102)%N then
        match expect "alse" r with
        | Some rest => Some (VBool false, rest) | None => None end
      else if (n =? 34)%N then
        match parse_string_body r with
        | Some (t, rest) => Some (VStr t, rest) | None => None end
      else if (n =? 91)%N then
        match skip_ws r with
        | String c1 r1 =>
            if (N_of_ascii c1 =? 93)%N then Some (VArr [], r1)
            else
              match parse_elems f r with
              | Some (l, rest) => Some (VArr l, rest) | None => None end
        | EmptyString => None
        end
      else if (n =? 123)%N then
        match skip_ws r with
        | String c1 r1 =>
            if (N_of_ascii c1 =? 125)%N then Some (VObj [], r1)
            else
              match parse_members f r with
              | Some (l, rest) => Some (VObj (obj_of_members l), rest)
              | None => None end
        | EmptyString => None
        end
      else
        match parse_number (String c r) with
        | Some (z, rest) => Some (VNum z, rest) | None => None end
  end.
Proof. reflexivity. Qed.

Lemma parse_elems_S f s :
  parse_elems (S f) s =
  match parse_value f s with
  | Some (v, r) =>
      match skip_ws r with
      | String c r1 =>
          if (N_of_ascii c =? 44)%N then
            match parse_elems f r1 with
            | Some (l, rest) => Some (v :: l, rest) | None => None end
          else if (N_of_ascii c =? 93)%N then Some ([v], r1)
          else None
      | EmptyString => None
      end
  | None => None
  end.
Proof. reflexivity. Qed.

Lemma parse_members_S f s :
  parse_members (S f) s =
  match skip_ws s with
  | String q r =>
      if (N_of_ascii q =? 34)%N then
        match parse_string_body r with
        | Some (k, r0) =>
            match skip_ws r0 with
            | String c0 r1 =>
                if (N_of_ascii c0 =? 58)%N then
                  match parse_value f r1 with
                  | Some (v, r2) =>
                      match skip_ws r2 with
                      | String c r3 =>
                          if (N_of_ascii c =? 44)%N then
                            match parse_members f r3 with
                            | Some (l, rest) => Some ((k, v) :: l, rest)
                            | None => None end
                          else if (N_of_ascii c =? 125)%N
                          then Some ([(k, v)], r3)
                          else None
                      | EmptyString => None
                      end
                  | None => None
                  end
                else None
            | EmptyString => None
            end
        | None => None
        end
      else None
  | EmptyString => None
  end.
Proof. reflexivity. Qed.

Lemma parses_num n : parses (VNum n).
Proof.
  intros [|f] rest Hf Hr; [simpl in Hf; lia|].
  rewrite parse_value_S, skip_ws_ser.
  pose proof (parse_number_print n rest Hr) as Hp.
  simpl ser in *.
  destruct (print_Z_start n) as (c & t & E & Hc).
  rewrite E in *. simpl append in *. cbv beta iota zeta.
  rewrite Hp.
  destruct c as [[] [] [] [] [] [] [] []]; try reflexivity;
    cbv in Hc; discriminate.
Qed.

Lemma parses_str s : parses (VStr s).
Proof.
  intros [|f] rest Hf Hr; [simpl in Hf; lia|].
  rewrite parse_value_S. simpl ser. unfold quote. simpl append.
  rewrite append_assoc.
  change (skip_ws (String dquote (escape s ++ str1 dquote ++ rest)))
    with (String dquote (escape s ++ str1 dquote ++ rest)).
  cbv zeta.
  change (N_of_ascii dquote) with 34%N. cbn [N.eqb Pos.eqb].
  now rewrite parse_quote.
Qed.

Lemma parse_elems_ser l :
  l <> [] -> Forall parses l ->
  forall fuel rest,
    (elem_fuel l <= fuel)%nat ->
    parse_elems fuel (join "," (map ser l) ++ "]" ++ rest)
    = Some (map json_clone l, rest).
Proof.
  intros Hne Hall. induction Hall as [|x l Hx Hl IH]; [contradiction|].
  intros [|f] rest Hf; [unfold elem_fuel in Hf; simpl in Hf; lia|].
  unfold elem_fuel in Hf. simpl in Hf.
  rewrite parse_elems_S.
  destruct l as [|y l'].
  - simpl join. simpl map.
    rewrite (Hx f ("]" ++ rest)) by (try reflexivity; lia).
    reflexivity.
  - change (join "," (map ser (x :: y :: l')))
      with (ser x ++ "," ++ join "," (map ser (y :: l'))).
    rewrite !append_assoc.
    rewrite (Hx f) by (try reflexivity; lia).
    change (skip_ws ("," ++ join "," (map ser (y :: l')) ++ "]" ++ rest))
      with (String "," (join "," (map ser (y :: l')) ++ "]" ++ rest)).
    change ((N_of_ascii "," =? 44)%N) with true. cbv iota.
    rewrite IH; [reflexivity|discriminate|].
    unfold elem_fuel. simpl. simpl in Hf. lia.
Qed.

Lemma parse_members_ser ms :
  ms <> [] -> Forall (fun kv => parses (snd kv)) ms ->
  forall fuel rest,
    (member_fuel ms <= fuel)%nat ->
    parse_members fuel (join "," (map entry ms) ++ "}" ++ rest)
    = Some (map (fun kv => (fst kv, json_clone (snd kv))) ms, rest).
Proof.
  intros Hne Hall. induction Hall as [|[k x] ms Hx Hl IH]; [contradiction|].
  intros [|f] rest Hf; [unfold member_fuel in Hf; simpl in Hf; lia|].
  unfold member_fuel in Hf. simpl in Hf. simpl snd in Hx.
  rewrite parse_members_S.
  assert (Hentry : forall tail,
    skip_ws (entry (k, x) ++ tail)
    = String dquote (escape k ++ String dquote (":" ++ ser x ++ tail))).
  { intros tail. unfold entry, quote. simpl fst. simpl snd.
    simpl append. rewrite !append_assoc. reflexivity. }
  destruct ms as [|kv' ms'].
  - simpl join. simpl map. rewrite Hentry.
    change (N_of_ascii dquote =? 34)%N with true. cbv iota.
    rewrite parse_escape.
    change (skip_ws (":" ++ ser x ++ "}" ++ rest))
      with (String ":" (ser x ++ "}" ++ rest)).
    change (N_of_ascii ":" =? 58)%N with true. cbv iota.
    rewrite (Hx f ("}" ++ rest)) by (try reflexivity; lia).
    reflexivity.
  - change (join "," (map entry ((k, x) :: kv' :: ms')))
      with (entry (k, x) ++ "," ++ join "," (map entry (kv' :: ms'))).
    rewrite !append_assoc. rewrite Hentry.
    change (N_of_ascii dquote =? 34)%N with true. cbv iota.
    rewrite parse_escape.
    match goal with
    | |- context [skip_ws (":" ++ ?t)] =>
        change (skip_ws (":" ++ t)) with (String ":" t)
    end.
    change (N_of_ascii ":" =? 58)%N with true. cbv iota.
    rewrite (Hx f) by (try reflexivity; lia).
    match goal with
    | |- context [skip_ws ("," ++ ?t)] =>
        change (skip_ws ("," ++ t)) with (String "," t)
    end.
    change (N_of_ascii "," =? 44)%N with true. cbv iota.
    rewrite IH; [reflexivity|discriminate|].
    unfold member_fuel. simpl. simpl in Hf. lia.
Qed.

Lemma flat_map_defined {A} (g : string * value -> A) fs :
  flat_map (fun kv : string * value =>
              let (k, x) := kv in
              if is_undefined x then [] else [g (k, x)]) fs
  = map g (defined_members fs).
Proof.
  induction fs as [|[k x] fs IH]; [reflexivity|].
  simpl. destruct (is_undefined x); simpl; now rewrite IH.
Qed.

Lemma ser_obj fs :
  ser (VObj fs) = "{" ++ join "," (map entry (defined_members fs)) ++ "}".
Proof.
  simpl. do 2 f_equal. f_equal. apply (flat_map_defined entry).
Qed.

Lemma json_clone_obj fs :
  json_clone (VObj fs)
  = VObj (obj_of_members
            (map (fun kv => (fst kv, json_clone (snd kv))) (defined_members fs))).
Proof.
  simpl. do 2 f_equal.
  apply (flat_map_defined (fun kv => (fst kv, json_clone (snd kv)))).
Qed.

Lemma fuel_of_obj fs :
  fuel_of (VObj fs) = S (member_fuel (defined_members fs)).
Proof.
  simpl. f_equal. unfold member_fuel.
  induction fs as [|[k x] fs IH]; [reflexivity|].
  simpl. destruct (is_undefined x); simpl; now rewrite IH.
Qed.

Lemma entry_start kv t : exists r, entry kv ++ t = String dquote r.
Proof. unfold entry, quote. simpl. eauto. Qed.

(** The reader inverts [ser], whatever text follows. *)
Theorem parse_ser_value v : parses v.
Proof.
  induction v as [| | b | n | s | l IH | fs IH] using value_ind'.
  - intros [|f] rest Hf Hr; [simpl in Hf; lia|]. reflexivity.
  - intros [|f] rest Hf Hr; [simpl in Hf; lia|]. reflexivity.
  - intros [|f] rest Hf Hr; [simpl in Hf; lia|]. destruct b; reflexivity.
  - apply parses_num.
  - apply parses_str.
  - intros [|f] rest Hf Hr; [simpl in Hf; lia|].
    rewrite parse_value_S. simpl ser. simpl append.
    rewrite append_assoc.
    match goal with
    | |- context [skip_ws (String "[" ?t)] =>
        change (skip_ws (String "[" t)) with (String "[" t)
    end.
    cbv beta iota zeta. change (N_of_ascii "[") with 91%N.
    cbn [N.eqb Pos.eqb].
    destruct l as [|x l'].
    + reflexivity.
    + assert (Hs : exists c t, join "," (map ser (x :: l')) ++ "]" ++ rest
                               = String c t /\ value_start c = true).
      { destruct (ser_start x) as (c & t & E & Hc).
        destruct l'; simpl join; simpl map; rewrite ?E; simpl; eauto. }
      destruct Hs as (c & t & E & Hc).
      pose proof (parse_elems_ser (x :: l') ltac:(discriminate) IH f rest) as Hp.
      rewrite E in *.
      apply value_start_spec in Hc. destruct Hc as (Hw & H93 & _).
      rewrite (skip_ws_start _ _ Hw), H93.
      rewrite Hp; [reflexivity|]. simpl in Hf. unfold elem_fuel. simpl. lia.
  - intros [|f] rest Hf Hr; [simpl in Hf; lia|].
    rewrite fuel_of_obj in Hf.
    rewrite parse_value_S, ser_obj, json_clone_obj. simpl append.
    rewrite append_assoc.
    match goal with
    | |- context [skip_ws (String "{" ?t)] =>
        change (skip_ws (String "{" t)) with (String "{" t)
    end.
    cbv beta iota zeta. change (N_of_ascii "{") with 123%N.
    cbn [N.eqb Pos.eqb].
    assert (IH' : Forall (fun kv => parses (snd kv)) (defined_members fs)).
    { unfold defined_members. rewrite Forall_forall in *.
      intros kv Hkv. apply filter_In in Hkv. now apply IH. }
    destruct (defined_members fs) as [|kv ms] eqn:Ems.
    + reflexivity.
    + pose proof (parse_members_ser (kv :: ms) ltac:(discriminate) IH' f rest) as Hp.
      assert (Hs : exists t, join "," (map entry (kv :: ms)) ++ "}" ++ rest
                             = String dquote t).
      { destruct ms as [|kv' ms'].
        - simpl join. simpl map. apply entry_start.
        - change (join "," (map entry (kv :: kv' :: ms')))
            with (entry kv ++ "," ++ join "," (map entry (kv' :: ms'))).
          rewrite append_assoc. apply entry_start. }
      destruct Hs as (t & E). rewrite E in *.
      change (skip_ws (String dquote t)) with (String dquote t).
      change (N_of_ascii dquote =? 125)%N with false. cbv iota.
      rewrite Hp; [reflexivity|]. lia.
Qed.

(** The fuel given by [JSON_parse] is enough. *)

Lemma length_append (a b : string) :
  String.length (a ++ b) = (String.length a + String.length b)%nat.
Proof. induction a; simpl; [reflexivity | now rewrite IHa]. Qed.

Lemma ser_length_pos v : (1 <= String.length (ser v))%nat.
Proof.
  destruct (ser_start v) as (c & t & E & _). rewrite E. simpl. lia.
Qed.

Lemma join_length_elems l :
  Forall (fun x => (fuel_of x <= String.length (ser x))%nat) l ->
  (elem_fuel l <= S (String.length (join "," (map ser l))))%nat.
Proof.
  induction 1 as [|x l Hx Hl IH]; [unfold elem_fuel; simpl; lia|].
  change (elem_fuel (x :: l)) with (S (fuel_of x) + elem_fuel l)%nat.
  destruct l as [|y l'].
  - unfold elem_fuel. simpl. lia.
  - change (join "," (map ser (x :: y :: l')))
      with (ser x ++ "," ++ join "," (map ser (y :: l'))).
    rewrite !length_append. simpl (String.length ","). lia.
Qed.

Lemma entry_length kv :
  (S (S (String.length (ser (snd kv)))) <= String.length (entry kv))%nat.
Proof.
  unfold entry, quote. simpl String.length. rewrite !length_append.
  simpl String.length. lia.
Qed.

Lemma join_length_members ms :
  Forall (fun kv : string * value =>
            (fuel_of (snd kv) <= String.length (ser (snd kv)))%nat) ms ->
  (member_fuel ms <= S (String.length (join "," (map entry ms))))%nat.
Proof.
  induction 1 as [|kv l Hx Hl IH]; [unfold member_fuel; simpl; lia|].
  change (member_fuel (kv :: l))
    with (S (fuel_of (snd kv)) + member_fuel l)%nat.
  pose proof (entry_length kv) as He.
  destruct l as [|y l'].
  - change (member_fuel []) with 0%nat.
    change (join "," (map entry [kv])) with (entry kv). lia.
  - change (join "," (map entry (kv :: y :: l')))
      with (entry kv ++ "," ++ join "," (map entry (y :: l'))).
    rewrite !length_append. simpl (String.length ","). lia.
Qed.

Lemma fuel_of_length v : (fuel_of v <= String.length (ser v))%nat.
Proof.
  induction v as [| | b | n | s | l IH | fs IH] using value_ind';
    try apply ser_length_pos.
  - pose proof (join_length_elems l IH) as H.
    change (fuel_of (VArr l)) with (S (elem_fuel l)).
    simpl ser. simpl String.length. rewrite length_append. simpl. lia.
  - assert (IH' : Forall (fun kv : string * value =>
              (fuel_of (snd kv) <= String.length (ser (snd kv)))%nat)
              (defined_members fs)).
    { unfold defined_members. rewrite Forall_forall in *.
      intros kv Hkv. apply filter_In in Hkv. now apply IH. }
    pose proof (join_length_members _ IH') as H.
    rewrite fuel_of_obj, ser_obj.
    simpl String.length. rewrite length_append. simpl. lia.
Qed.

(** [JSON.parse(JSON.stringify(v))] is the clone of [v]. *)
Theorem JSON_parse_ser v : JSON_parse (ser v) = Some (json_clone v).
Proof.
  unfold JSON_parse.
  pose proof (parse_ser_value v (S (String.length (ser v))) EmptyString) as H.
  rewrite append_nil_r in H. rewrite H; [reflexivity| |reflexivity].
  pose proof (fuel_of_length v). lia.
Qed.

(* ================================================================== *)
(** ** Facts: the sanitizer *)

Local Open Scope list_scope.
Arguments mem : simpl never.

Lemma strip_nullish v : nullish (stripUndefinedDeep v) = nullish v.
Proof. destruct v as [| | | | |[|[] l]|]; reflexivity. Qed.

Lemma strip_not_undefined v : is_undefined (stripUndefinedDeep v) = false.
Proof. destruct v as [| | | | |[|[] l]|]; reflexivity. Qed.

Lemma strip_isArray v : isArray (stripUndefinedDeep v) = true -> isArray v = true.
Proof. destruct v as [| | | | |[|[] l]|]; simpl; congruence. Qed.

Lemma strip_array_eq l :
  stripUndefinedDeep (VArr l) =
  match l with
  | x :: _ => if isArray x then VStr (ser (VArr l))
              else VArr (filter (fun item => negb (nullish item)) (map stripUndefinedDeep l))
  | [] => VArr []
  end.
Proof. destruct l as [|[] l]; reflexivity. Qed.

Lemma filter_map_strip_twice l :
  Forall (fun v => stripUndefinedDeep (stripUndefinedDeep v) = stripUndefinedDeep v) l ->
  filter (fun item => negb (nullish item))
    (map stripUndefinedDeep
       (filter (fun item => negb (nullish item)) (map stripUndefinedDeep l)))
  = filter (fun item => negb (nullish item)) (map stripUndefinedDeep l).
Proof.
  induction 1 as [|x l Hx Hl IH]; simpl; [reflexivity|].
  destruct (nullish (stripUndefinedDeep x)) eqn:E; simpl; [exact IH|].
  rewrite Hx, E. simpl. now rewrite IH.
Qed.

Lemma print_Z_nonempty n : print_Z n <> EmptyString.
Proof.
  unfold print_Z, NilZero.string_of_int.
  destruct (Z.to_int n) as [d|d]; [|discriminate].
  unfold NilZero.string_of_uint. destruct d; discriminate.
Qed.

Lemma ser_truthy_nonempty v :
  truthy v = true -> is_string v = false -> truthy (VStr (ser v)) = true.
Proof.
  intros Ht Hs. simpl. apply negb_true_iff, String.eqb_neq.
  destruct v as [| |[]| | | |]; try discriminate.
  - simpl. apply print_Z_nonempty.
Qed.

Lemma strip_field_twice kv :
  (plain_key (fst kv) = true ->
   stripUndefinedDeep (stripUndefinedDeep (snd kv)) = stripUndefinedDeep (snd kv)) ->
  flat_map (strip_field stripUndefinedDeep) (strip_field stripUndefinedDeep kv)
  = strip_field stripUndefinedDeep kv.
Proof.
  destruct kv as [k v]. simpl. intros H.
  unfold plain_key in H.
  destruct (is_undefined v) eqn:Eu; [reflexivity|].
  destruct (mem k oversized_keys) eqn:Eo; [reflexivity|].
  destruct (mem k heavy_keys) eqn:Eh.
  - destruct (truthy v) eqn:Et; simpl.
    + destruct (is_string v) eqn:Es; simpl.
      * rewrite Eu, Eo, Eh, Et, Es. reflexivity.
      * rewrite Eo, Eh.
        pose proof (ser_truthy_nonempty v Et Es) as Hn. simpl in Hn.
        rewrite Hn. reflexivity.
    + reflexivity.
  - destruct (String.eqb k "__proto__") eqn:Ep; [reflexivity|].
    simpl. rewrite strip_not_undefined, Eo, Eh, Ep, H by reflexivity.
    reflexivity.
Qed.

Lemma heads_defined_array x l :
  isArray x = false ->
  heads_defined (VArr (x :: l))
  = negb (nullish x) && forallb heads_defined (x :: l).
Proof. destruct x; intros E; try reflexivity; discriminate. Qed.

(** A second pass changes nothing when no cleaned array begins with
    [null] or [undefined]. *)
Lemma strip_idempotent_when v :
  heads_defined v = true ->
  stripUndefinedDeep (stripUndefinedDeep v) = stripUndefinedDeep v.
Proof.
  induction v as [| | b | n | s | l IH | fs IH] using value_ind'; intros Hd;
    try reflexivity.
  - rewrite strip_array_eq. destruct l as [|x l]; [reflexivity|].
    destruct (isArray x) eqn:Ex; [reflexivity|].
    assert (Hd' : nullish x = false /\ forallb heads_defined (x :: l) = true).
    { rewrite (heads_defined_array _ _ Ex) in Hd.
      apply andb_true_iff in Hd. destruct Hd as [H1 H2].
      apply negb_true_iff in H1. now split. }
    destruct Hd' as [Hx Hall].
    assert (Hfix : Forall (fun v => stripUndefinedDeep (stripUndefinedDeep v)
                                    = stripUndefinedDeep v) (x :: l)).
    { rewrite Forall_forall in *. intros y Hy. apply IH; [exact Hy|].
      rewrite forallb_forall in Hall. now apply Hall. }
    pose proof (filter_map_strip_twice _ Hfix) as Htw.
    change (map stripUndefinedDeep (x :: l))
      with (stripUndefinedDeep x :: map stripUndefinedDeep l) in *.
    cbn [filter] in *. rewrite strip_nullish, Hx in *. cbn [negb] in *.
    rewrite strip_array_eq.
    destruct (isArray (stripUndefinedDeep x)) eqn:Ex'.
    { apply strip_isArray in Ex'. congruence. }
    f_equal. exact Htw.
  - simpl. f_equal.
    induction IH as [|kv fs Hkv Hfs IHfs]; [reflexivity|].
    simpl in Hd. apply andb_true_iff in Hd. destruct Hd as [Hk Hrest].
    simpl. rewrite flat_map_app. rewrite IHfs by exact Hrest.
    f_equal. apply strip_field_twice. intros Hp. apply Hkv.
    destruct kv as [k x]. simpl in *. rewrite Hp in Hk. exact Hk.
Qed.

(** *** JSON data *)

Lemma mem_In k l : mem k l = true <-> In k l.
Proof.
  unfold mem. rewrite existsb_exists. split.
  - intros (x & Hx & E). apply String.eqb_eq in E. now subst.
  - intros H. exists k. split; [exact H | apply String.eqb_refl].
Qed.

Lemma mem_false k l : mem k l = false <-> ~ In k l.
Proof.
  rewrite <- mem_In. destruct (mem k l); split; intros; congruence.
Qed.

Lemma obj_set_fresh k v acc :
  ~ In k (keys acc) -> obj_set k v acc = acc ++ [(k, v)].
Proof.
  induction acc as [|[k' v'] acc IH]; simpl; intros H; [reflexivity|].
  destruct (String.eqb_spec k k') as [->|Hne]; [tauto|].
  rewrite IH; [reflexivity|tauto].
Qed.

Lemma fold_obj_set_distinct l acc :
  distinct (keys l) = true ->
  (forall k, In k (keys l) -> ~ In k (keys acc)) ->
  fold_left (fun a kv => obj_set (fst kv) (snd kv) a) l acc = acc ++ l.
Proof.
  revert acc. induction l as [|[k v] l IH]; intros acc Hd Hfresh; simpl.
  - now rewrite app_nil_r.
  - simpl in Hd. apply andb_true_iff in Hd. destruct Hd as [Hk Hd].
    apply negb_true_iff, mem_false in Hk.
    rewrite obj_set_fresh by (apply Hfresh; now left).
    rewrite IH; [now rewrite <- app_assoc|exact Hd|].
    intros k' Hk' Hin. unfold keys in Hin. rewrite map_app in Hin.
    apply in_app_or in Hin. destruct Hin as [Hin|[<-|[]]].
    + apply (Hfresh k'); [now right|exact Hin].
    + exact (Hk Hk').
Qed.

Lemma obj_of_members_distinct l :
  distinct (keys l) = true -> obj_of_members l = l.
Proof.
  intros H. unfold obj_of_members.
  now rewrite fold_obj_set_distinct by (auto; intros ? ? []).
Qed.

Lemma json_clone_data v : json_data v = true -> json_clone v = v.
Proof.
  induction v as [| | b | n | s | l IH | fs IH] using value_ind';
    intros Hd; try reflexivity; try discriminate.
  - simpl in *. f_equal. rewrite forallb_forall in Hd.
    rewrite Forall_forall in IH.
    rewrite <- (map_id l) at 2. apply map_ext_in. intros x Hx. auto.
  - rewrite json_clone_obj. simpl in Hd.
    apply andb_true_iff in Hd. destruct Hd as [Hk Hv].
    rewrite forallb_forall in Hv. rewrite Forall_forall in IH.
    assert (Hdef : defined_members fs = fs).
    { unfold defined_members. apply forallb_filter_id.
      apply forallb_forall. intros kv Hkv. specialize (Hv kv Hkv).
      destruct (snd kv); simpl in *; congruence. }
    rewrite Hdef.
    assert (Hmap : map (fun kv : string * value => (fst kv, json_clone (snd kv))) fs = fs).
    { rewrite <- (map_id fs) at 2. apply map_ext_in. intros [k x] Hx.
      simpl. f_equal. apply (IH (k, x) Hx). apply (Hv (k, x) Hx). }
    rewrite Hmap. f_equal. now apply obj_of_members_distinct.
Qed.

Lemma JSON_parse_ser_data v :
  json_data v = true -> JSON_parse (ser v) = Some v.
Proof. intros H. now rewrite JSON_parse_ser, json_clone_data. Qed.

(** The sanitizer keeps JSON data JSON data. *)

Lemma strip_field_keys rec kv k :
  In k (keys (strip_field rec kv)) -> k = fst kv.
Proof.
  destruct kv as [k0 v]. unfold strip_field.
  destruct (is_undefined v); [intros []|].
  destruct (mem k0 oversized_keys); [intros []|].
  destruct (mem k0 heavy_keys).
  - destruct (truthy v && negb (is_string v)); [intros [<-|[]]; reflexivity|].
    destruct (truthy v); [intros [<-|[]]; reflexivity|intros []].
  - destruct (String.eqb k0 "__proto__"); [intros []|].
    intros [<-|[]]; reflexivity.
Qed.

Lemma strip_fields_keys rec fs k :
  In k (keys (flat_map (strip_field rec) fs)) -> In k (keys fs).
Proof.
  induction fs as [|kv fs IH]; simpl; [tauto|].
  unfold keys in *. rewrite map_app. intros H. apply in_app_or in H.
  destruct H as [H|H]; [left; symmetry; now apply strip_field_keys in H|].
  right. now apply IH.
Qed.

Lemma strip_field_shape rec k v :
  strip_field rec (k, v) = [] \/ exists x, strip_field rec (k, v) = [(k, x)].
Proof.
  unfold strip_field.
  destruct (is_undefined v); [now left|].
  destruct (mem k oversized_keys); [now left|].
  destruct (mem k heavy_keys).
  - destruct (truthy v && negb (is_string v)); [right; eauto|].
    destruct (truthy v); [right; eauto|now left].
  - destruct (String.eqb k "__proto__"); [now left|right; eauto].
Qed.

Lemma strip_fields_distinct rec fs :
  distinct (keys fs) = true ->
  distinct (keys (flat_map (strip_field rec) fs)) = true.
Proof.
  induction fs as [|[k0 v] fs IH]; [reflexivity|].
  intros H. change (distinct (keys ((k0, v) :: fs)))
    with (negb (mem k0 (keys fs)) && distinct (keys fs)) in H.
  apply andb_true_iff in H. destruct H as [Hk Hd].
  specialize (IH Hd).
  assert (Hfresh : mem k0 (keys (flat_map (strip_field rec) fs)) = false).
  { apply mem_false. intros Hin. apply strip_fields_keys in Hin.
    apply negb_true_iff, mem_false in Hk. now apply Hk. }
  change (flat_map (strip_field rec) ((k0, v) :: fs))
    with (strip_field rec (k0, v) ++ flat_map (strip_field rec) fs).
  destruct (strip_field_shape rec k0 v) as [E|[x E]]; rewrite E.
  - exact IH.
  - change (distinct (keys ([(k0, x)] ++ flat_map (strip_field rec) fs)))
      with (negb (mem k0 (keys (flat_map (strip_field rec) fs)))
            && distinct (keys (flat_map (strip_field rec) fs))).
    now rewrite Hfresh, IH.
Qed.

Lemma strip_json_data v :
  json_data v = true -> json_data (stripUndefinedDeep v) = true.
Proof.
  induction v as [| | b | n | s | l IH | fs IH] using value_ind';
    intros Hd; try reflexivity; try discriminate.
  - rewrite strip_array_eq. destruct l as [|x l]; [reflexivity|].
    destruct (isArray x); [reflexivity|].
    change (json_data (VArr ?l)) with (forallb json_data l) in *.
    rewrite forallb_forall in *. rewrite Forall_forall in IH.
    intros y Hy. apply filter_In in Hy. destruct Hy as [Hy _].
    apply in_map_iff in Hy. destruct Hy as (z & <- & Hz). auto.
  - simpl in Hd. apply andb_true_iff in Hd. destruct Hd as [Hk Hv].
    simpl. apply andb_true_iff. split.
    + now apply strip_fields_distinct.
    + rewrite forallb_forall in *. rewrite Forall_forall in IH.
      intros [k x] Hin. apply in_flat_map in Hin.
      destruct Hin as ([k0 v0] & Hin0 & Hin).
      specialize (IH _ Hin0). specialize (Hv _ Hin0). simpl in IH, Hv.
      unfold strip_field in Hin.
      destruct (is_undefined v0); [destruct Hin|].
      destruct (mem k0 oversized_keys); [destruct Hin|].
      destruct (mem k0 heavy_keys).
      * destruct (truthy v0 && negb (is_string v0)).
        { destruct Hin as [[= <- <-]|[]]. reflexivity. }
        destruct (truthy v0); [|destruct Hin].
        destruct Hin as [[= <- <-]|[]]. exact Hv.
      * destruct (String.eqb k0 "__proto__"); [destruct Hin|].
        destruct Hin as [[= <- <-]|[]]. simpl. auto.
Qed.

(** *** Properties of the sanitized object *)

Lemma lookup_app_single k k0 (x : value) r :
  lookup k ([(k0, x)] ++ r) = if String.eqb k k0 then Some x else lookup k r.
Proof. reflexivity. Qed.

Lemma lookup_strip_skip rec k k0 v r :
  String.eqb k k0 = false ->
  lookup k (strip_field rec (k0, v) ++ r) = lookup k r.
Proof.
  intros Hne. destruct (strip_field_shape rec k0 v) as [E|[x E]]; rewrite E.
  - reflexivity.
  - now rewrite lookup_app_single, Hne.
Qed.

Lemma strip_field_plain rec k v :
  plain_key k = true -> is_undefined v = false ->
  strip_field rec (k, v) = [(k, rec v)].
Proof.
  unfold plain_key, strip_field. intros Hp ->.
  apply andb_true_iff in Hp. destruct Hp as [Hp Hq].
  apply andb_true_iff in Hp. destruct Hp as [Ho Hh].
  apply negb_true_iff in Ho. apply negb_true_iff in Hh.
  apply negb_true_iff in Hq. now rewrite Ho, Hh, Hq.
Qed.

Lemma lookup_strip_plain rec k fs x :
  plain_key k = true -> lookup k fs = Some x -> is_undefined x = false ->
  lookup k (flat_map (strip_field rec) fs) = Some (rec x).
Proof.
  intros Hp Hl Hx. induction fs as [|[k0 v] fs IH]; [discriminate|].
  change (flat_map (strip_field rec) ((k0, v) :: fs))
    with (strip_field rec (k0, v) ++ flat_map (strip_field rec) fs).
  simpl in Hl. destruct (String.eqb k k0) eqn:E.
  - apply String.eqb_eq in E. subst k0. injection Hl as ->.
    rewrite strip_field_plain by assumption.
    now rewrite lookup_app_single, String.eqb_refl.
  - rewrite lookup_strip_skip by exact E. auto.
Qed.

Lemma lookup_strip_heavy rec k fs x :
  mem k oversized_keys = false -> mem k heavy_keys = true ->
  lookup k fs = Some x -> truthy x = true -> is_string x = false ->
  lookup k (flat_map (strip_field rec) fs) = Some (VStr (ser x)).
Proof.
  intros Ho Hh Hl Ht Hs. induction fs as [|[k0 v] fs IH]; [discriminate|].
  change (flat_map (strip_field rec) ((k0, v) :: fs))
    with (strip_field rec (k0, v) ++ flat_map (strip_field rec) fs).
  simpl in Hl. destruct (String.eqb k k0) eqn:E.
  - apply String.eqb_eq in E. subst k0. injection Hl as ->.
    unfold strip_field. rewrite Ho, Hh, Ht, Hs.
    assert (Hu : is_undefined x = false) by (destruct x; try reflexivity; discriminate).
    rewrite Hu. simpl. now rewrite String.eqb_refl.
  - rewrite lookup_strip_skip by exact E. auto.
Qed.

Lemma lookup_strip_oversized rec k fs :
  mem k oversized_keys = true ->
  lookup k (flat_map (strip_field rec) fs) = None.
Proof.
  intros Ho. induction fs as [|[k0 v] fs IH]; [reflexivity|].
  change (flat_map (strip_field rec) ((k0, v) :: fs))
    with (strip_field rec (k0, v) ++ flat_map (strip_field rec) fs).
  destruct (String.eqb k k0) eqn:E.
  - apply String.eqb_eq in E. subst k0. unfold strip_field. rewrite Ho.
    destruct (is_undefined v); exact IH.
  - rewrite lookup_strip_skip by exact E. exact IH.
Qed.

Lemma lookup_strip_proto rec fs :
  lookup "__proto__" (flat_map (strip_field rec) fs) = None.
Proof.
  induction fs as [|[k0 v] fs IH]; [reflexivity|].
  change (flat_map (strip_field rec) ((k0, v) :: fs))
    with (strip_field rec (k0, v) ++ flat_map (strip_field rec) fs).
  destruct (String.eqb "__proto__" k0) eqn:E.
  - apply String.eqb_eq in E. subst k0. unfold strip_field.
    destruct (is_undefined v); exact IH.
  - rewrite lookup_strip_skip by exact E. exact IH.
Qed.

Lemma lookup_strip_undefined rec k fs :
  (forall x, In (k, x) fs -> x = VUndef) ->
  lookup k (flat_map (strip_field rec) fs) = None.
Proof.
  induction fs as [|[k0 v] fs IH]; intros H; [reflexivity|].
  change (flat_map (strip_field rec) ((k0, v) :: fs))
    with (strip_field rec (k0, v) ++ flat_map (strip_field rec) fs).
  destruct (String.eqb k k0) eqn:E.
  - apply String.eqb_eq in E. subst k0.
    rewrite (H v) by now left. simpl. apply IH. intros x Hx. apply H. now right.
  - rewrite lookup_strip_skip by exact E. apply IH. intros x Hx. apply H. now right.
Qed.

Lemma lookup_obj_set_same k v fs : lookup k (obj_set k v fs) = Some v.
Proof.
  induction fs as [|[k' v'] fs IH]; simpl.
  - now rewrite String.eqb_refl.
  - destruct (String.eqb k k') eqn:E; simpl; rewrite E; auto.
Qed.

Lemma lookup_obj_set_other k k' v fs :
  String.eqb k k' = false -> lookup k (obj_set k' v fs) = lookup k fs.
Proof.
  intros Hne. induction fs as [|[k0 v0] fs IH]; simpl.
  - now rewrite Hne.
  - destruct (String.eqb k' k0) eqn:E; simpl.
    + apply String.eqb_eq in E. subst k0. now rewrite Hne.
    + now rewrite IH.
Qed.

Lemma get_reparse_same k d o :
  get (VObj (reparse_field k d o)) k = or_else (safeParse (get (VObj o) k)) d.
Proof. unfold reparse_field. simpl. now rewrite lookup_obj_set_same. Qed.

Lemma get_reparse_other k k' d o :
  String.eqb k k' = false ->
  get (VObj (reparse_field k' d o)) k = get (VObj o) k.
Proof.
  intros H. unfold reparse_field. simpl. now rewrite lookup_obj_set_other.
Qed.

Lemma get_path_undefined p : get_path VUndef p = VUndef.
Proof. induction p; simpl; auto. Qed.

Lemma json_data_lookup fs k x :
  json_data (VObj fs) = true -> lookup k fs = Some x -> json_data x = true.
Proof.
  simpl. intros H Hl. apply andb_true_iff in H. destruct H as [_ H].
  rewrite forallb_forall in H.
  induction fs as [|[k0 v] fs IH]; [discriminate|].
  simpl in Hl. destruct (String.eqb k k0).
  - injection Hl as ->. apply (H (k0, x)). now left.
  - apply IH; [|exact Hl]. intros y Hy. apply H. now right.
Qed.

Lemma json_data_get v k x :
  json_data v = true -> get v k = x -> x <> VUndef -> json_data x = true.
Proof.
  destruct v; simpl; intros H E Hx; try congruence.
  destruct (lookup k fs) eqn:El; [|congruence].
  subst. eapply json_data_lookup; eauto.
Qed.

Lemma safeParse_ser v :
  json_data v = true -> safeParse (VStr (ser v)) = v.
Proof. intros H. simpl. now rewrite JSON_parse_ser_data. Qed.

(** Sanitizer: what happens to a property, at any depth. *)

Lemma get_strip_plain fs k x :
  plain_key k = true -> get (VObj fs) k = x -> x <> VUndef ->
  get (stripUndefinedDeep (VObj fs)) k = stripUndefinedDeep x.
Proof.
  simpl. intros Hp E Hx. destruct (lookup k fs) as [y|] eqn:El; [|congruence].
  subst y. rewrite (lookup_strip_plain _ _ _ _ Hp El); [reflexivity|].
  destruct x; try reflexivity. congruence.
Qed.

Lemma get_path_strip v p fs :
  forallb plain_key p = true ->
  get_path v p = VObj fs ->
  get_path (stripUndefinedDeep v) p = stripUndefinedDeep (VObj fs).
Proof.
  revert v. induction p as [|k p IH]; intros v Hp Hv; simpl in *.
  - now subst.
  - apply andb_true_iff in Hp. destruct Hp as [Hk Hp].
    destruct v as [| | | | | |vfs];
      try (simpl in Hv; rewrite get_path_undefined in Hv; discriminate).
    assert (Hne : get (VObj vfs) k <> VUndef).
    { intros E. rewrite E, get_path_undefined in Hv. discriminate. }
    rewrite (get_strip_plain vfs k _ Hk eq_refl Hne). now apply IH.
Qed.


Lemma forallb_filter_same {A} (f : A -> bool) l :
  forallb f (filter f l) = true.
Proof.
  induction l as [|x l IH]; [reflexivity|].
  simpl. destruct (f x) eqn:E; simpl; [now rewrite E|exact IH].
Qed.

Lemma strip_array_no_null l l' :
  stripUndefinedDeep (VArr l) = VArr l' ->
  forallb (fun x => negb (nullish x)) l' = true.
Proof.
  rewrite strip_array_eq. destruct l as [|x l]; [now intros [= <-]|].
  destruct (isArray x); [discriminate|]. intros [= <-].
  exact (forallb_filter_same (fun y => negb (nullish y))
           (map stripUndefinedDeep (x :: l))).
Qed.

Lemma filter_map_strip l :
  filter (fun item => negb (nullish item)) (map stripUndefinedDeep l)
  = map stripUndefinedDeep (filter (fun item => negb (nullish item)) l).
Proof.
  induction l as [|x l IH]; [reflexivity|].
  simpl. rewrite strip_nullish. destruct (nullish x); simpl; now rewrite IH.
Qed.

(** An array that is not a matrix comes out as its entries other than
    [null] and [undefined], sanitized, in order. *)
Lemma strip_array_entries l :
  is_matrix l = false ->
  stripUndefinedDeep (VArr l)
  = VArr (map stripUndefinedDeep
            (filter (fun item => negb (nullish item)) l)).
Proof.
  intros H. rewrite strip_array_eq. destruct l as [|x l]; [reflexivity|].
  simpl in H. rewrite H. now rewrite filter_map_strip.
Qed.

(** The second pass never meets an array that begins with [null]. *)
Lemma strip_heads_defined v : heads_defined (stripUndefinedDeep v) = true.
Proof.
  induction v as [| | b | n | s | l IH | fs IH] using value_ind';
    try reflexivity.
  - rewrite strip_array_eq. destruct l as [|x l]; [reflexivity|].
    destruct (isArray x); [reflexivity|].
    set (out := filter (fun item => negb (nullish item))
                  (map stripUndefinedDeep (x :: l))).
    assert (Hnn : forallb (fun y => negb (nullish y)) out = true)
      by exact (forallb_filter_same _ _).
    assert (Hhd : forallb heads_defined out = true).
    { apply forallb_forall. intros y Hy. unfold out in Hy.
      apply filter_In in Hy.
      destruct Hy as [Hy _]. apply in_map_iff in Hy.
      destruct Hy as (z & <- & Hz). rewrite Forall_forall in IH. auto. }
    clearbody out. destruct out as [|y out']; [reflexivity|].
    simpl in Hnn. apply andb_true_iff in Hnn. destruct Hnn as [Hy _].
    destruct (isArray y) eqn:Ey.
    + destruct y; try discriminate. reflexivity.
    + rewrite (heads_defined_array _ _ Ey). now rewrite Hy, Hhd.
  - simpl. apply forallb_forall. intros [k x] Hin.
    apply in_flat_map in Hin. destruct Hin as ([k0 v0] & Hin0 & Hin).
    rewrite Forall_forall in IH. specialize (IH _ Hin0). simpl in IH.
    unfold strip_field in Hin.
    destruct (is_undefined v0); [destruct Hin|].
    destruct (mem k0 oversized_keys) eqn:Eo; [destruct Hin|].
    destruct (mem k0 heavy_keys) eqn:Eh.
    + assert (Hp : plain_key k0 = false)
        by (unfold plain_key; now rewrite Eh, andb_false_r).
      destruct (truthy v0 && negb (is_string v0)).
      { destruct Hin as [[= <- <-]|[]]. now rewrite Hp. }
      destruct (truthy v0); [|destruct Hin].
      destruct Hin as [[= <- <-]|[]]. now rewrite Hp.
    + destruct (String.eqb k0 "__proto__"); [destruct Hin|].
      destruct Hin as [[= <- <-]|[]]. rewrite IH. apply orb_true_r.
Qed.

(** A second pass always yields a value that a third pass leaves alone. *)
Lemma strip_settles v :
  stripUndefinedDeep (stripUndefinedDeep (stripUndefinedDeep v))
  = stripUndefinedDeep (stripUndefinedDeep v).
Proof. apply strip_idempotent_when, strip_heads_defined. Qed.

(* ================================================================== *)
(** ** Facts: the split *)

Lemma split_of_data elapsed raw :
  json_data raw = true ->
  split elapsed raw =
  match payloads_of (stripUndefinedDeep raw) elapsed with
  | Ok (mainPayload, sidecarData) =>
      Ok (stripUndefinedDeep mainPayload, stripUndefinedDeep sidecarData)
  | Throw m => Throw m
  end.
Proof.
  intros Hd. unfold split.
  assert (Hs : JSON_stringify (stripUndefinedDeep raw)
               = Some (ser (stripUndefinedDeep raw))).
  { pose proof (strip_not_undefined raw).
    destruct (stripUndefinedDeep raw); try reflexivity; discriminate. }
  rewrite Hs, JSON_parse_ser_data by now apply strip_json_data.
  reflexivity.
Qed.

Lemma or_else_truthy a b : truthy a = true -> or_else a b = a.
Proof. unfold or_else. now intros ->. Qed.

(* ================================================================== *)
(** ** Facts: what the sanitizer yields and what it leaves alone *)

Local Open Scope list_scope.

Lemma strip_field_heavy_out k v k' x :
  mem k heavy_keys = true ->
  In (k', x) (strip_field stripUndefinedDeep (k, v)) ->
  k' = k /\ mem k oversized_keys = false
  /\ is_string x = true /\ truthy x = true.
Proof.
  intros Hh Hin. unfold strip_field in Hin.
  destruct (is_undefined v); [destruct Hin|].
  destruct (mem k oversized_keys); [destruct Hin|].
  rewrite Hh in Hin.
  destruct (truthy v) eqn:Et; [|destruct Hin].
  destruct (is_string v) eqn:Es; simpl in Hin.
  - destruct Hin as [[= <- <-]|[]]. auto.
  - destruct Hin as [[= <- <-]|[]]. repeat split; try reflexivity.
    now apply ser_truthy_nonempty.
Qed.

Lemma strip_field_plain_out k v k' x :
  mem k heavy_keys = false ->
  In (k', x) (strip_field stripUndefinedDeep (k, v)) ->
  k' = k /\ mem k oversized_keys = false /\ x = stripUndefinedDeep v
  /\ String.eqb k "__proto__" = false.
Proof.
  intros Hh Hin. unfold strip_field in Hin.
  destruct (is_undefined v); [destruct Hin|].
  destruct (mem k oversized_keys); [destruct Hin|].
  rewrite Hh in Hin.
  destruct (String.eqb k "__proto__"); [destruct Hin|].
  destruct Hin as [[= <- <-]|[]]. auto.
Qed.

(** X1. Whatever the input, the output of the sanitizer holds no
    [undefined], no [null] in an array, none of the keys [heatmap],
    [pixel_diff] and [ela_analysis], and a non-empty string under each of
    [technical_details], [forensic_findings] and [agent_logs]. *)
Theorem sanitizer_output_clean v : sanitized (stripUndefinedDeep v) = true.
Proof.
  induction v as [| | b | n | s | l IH | fs IH] using value_ind';
    try reflexivity.
  - rewrite strip_array_eq. destruct l as [|x l]; [reflexivity|].
    destruct (isArray x); [reflexivity|].
    set (out := filter (fun item => negb (nullish item))
                  (map stripUndefinedDeep (x :: l))).
    assert (Hout : forall y, In y out ->
              negb (nullish y) = true
              /\ exists z, stripUndefinedDeep z = y /\ In z (x :: l)).
    { intros y Hy. apply filter_In in Hy. destruct Hy as [Hy Hn].
      apply in_map_iff in Hy. auto. }
    clearbody out. simpl. apply forallb_forall. intros y Hy.
    destruct (Hout y Hy) as (Hn & z & <- & Hz).
    rewrite Forall_forall in IH. now rewrite Hn, (IH z Hz).
  - simpl. apply forallb_forall. intros [k x] Hin.
    apply in_flat_map in Hin. destruct Hin as ([k0 v0] & Hin0 & Hin).
    rewrite Forall_forall in IH. specialize (IH _ Hin0). simpl in IH.
    destruct (mem k0 heavy_keys) eqn:Eh.
    + apply (strip_field_heavy_out _ _ _ _ Eh) in Hin.
      destruct Hin as (-> & Ho & Hs & Ht). now rewrite Ho, Eh, Hs, Ht.
    + apply (strip_field_plain_out _ _ _ _ Eh) in Hin.
      destruct Hin as (-> & Ho & -> & _). now rewrite Ho, Eh, IH.
Qed.

Lemma settled_matrix_free l :
  is_matrix l = false ->
  stripUndefinedDeep (VArr l)
  = VArr (filter (fun item => negb (nullish item)) (map stripUndefinedDeep l)).
Proof.
  intros H. rewrite strip_array_eq. destruct l as [|x l]; [reflexivity|].
  simpl in H. now rewrite H.
Qed.

Lemma settled_fixed v : settled v = true -> stripUndefinedDeep v = v.
Proof.
  induction v as [| | b | n | s | l IH | fs IH] using value_ind';
    try reflexivity; try discriminate.
  - intros H. simpl in H. apply andb_true_iff in H. destruct H as [Hm H].
    apply negb_true_iff in Hm. rewrite (settled_matrix_free _ Hm). f_equal.
    clear Hm. induction l as [|x l IHl]; [reflexivity|].
    simpl in H. apply andb_true_iff in H. destruct H as [Hx H].
    apply andb_true_iff in Hx. destruct Hx as [Hn Hx].
    inversion IH as [|? ? Hx' Hl']; subst.
    simpl. rewrite (Hx' Hx), Hn. f_equal. now apply IHl.
  - intros H. simpl in H. simpl. f_equal.
    induction fs as [|[k x] fs IHfs]; [reflexivity|].
    simpl in H. apply andb_true_iff in H. destruct H as [Hx H].
    apply andb_true_iff in Hx. destruct Hx as [Ho Hx].
    apply negb_true_iff in Ho.
    inversion IH as [|? ? Hx' Hl']; subst. simpl in Hx'.
    change (flat_map (strip_field stripUndefinedDeep) ((k, x) :: fs))
      with (strip_field stripUndefinedDeep (k, x)
            ++ flat_map (strip_field stripUndefinedDeep) fs).
    rewrite (IHfs Hl' H). unfold strip_field. rewrite Ho.
    destruct (mem k heavy_keys).
    + apply andb_true_iff in Hx. destruct Hx as [Hs Ht].
      rewrite Ht, Hs.
      assert (Hu : is_undefined x = false)
        by (destruct x; try reflexivity; discriminate).
      now rewrite Hu.
    + apply andb_true_iff in Hx. destruct Hx as [Hp Hx].
      apply negb_true_iff in Hp.
      assert (Hu : is_undefined x = false)
        by (destruct x; try reflexivity; discriminate).
      now rewrite Hu, Hp, (Hx' Hx).
Qed.

Lemma filter_same_length {A} (f : A -> bool) l :
  List.length (filter f l) = List.length l -> forallb f l = true.
Proof.
  induction l as [|x l IH]; [reflexivity|].
  simpl. destruct (f x) eqn:E; simpl; intros H.
  - apply IH. lia.
  - pose proof (filter_length_le f l). lia.
Qed.

Lemma filter_all {A} (f : A -> bool) l :
  forallb f l = true -> filter f l = l.
Proof.
  induction l as [|x l IH]; [reflexivity|].
  simpl. intros H. apply andb_true_iff in H. destruct H as [-> H].
  now rewrite IH.
Qed.

Lemma map_fixed {A} (f : A -> A) l :
  map f l = l -> Forall (fun x => f x = x) l.
Proof.
  induction l as [|x l IH]; simpl; intros H; [constructor|].
  injection H as Hx Hl. constructor; auto.
Qed.

Lemma strip_field_length kv :
  (List.length (strip_field stripUndefinedDeep kv) <= 1)%nat.
Proof.
  destruct kv as [k v]. unfold strip_field.
  repeat match goal with
         | |- context [if ?c then _ else _] => destruct c
         end; simpl; lia.
Qed.

Lemma flat_map_strip_length fs :
  (List.length (flat_map (strip_field stripUndefinedDeep) fs) <= List.length fs)%nat.
Proof.
  induction fs as [|kv fs IH]; [simpl; lia|].
  change (flat_map (strip_field stripUndefinedDeep) (kv :: fs))
    with (strip_field stripUndefinedDeep kv
          ++ flat_map (strip_field stripUndefinedDeep) fs).
  rewrite length_app. pose proof (strip_field_length kv). simpl. lia.
Qed.

Lemma flat_map_strip_fixed fs :
  flat_map (strip_field stripUndefinedDeep) fs = fs ->
  Forall (fun kv => strip_field stripUndefinedDeep kv = [kv]) fs.
Proof.
  induction fs as [|kv fs IH]; [constructor|].
  change (flat_map (strip_field stripUndefinedDeep) (kv :: fs))
    with (strip_field stripUndefinedDeep kv
          ++ flat_map (strip_field stripUndefinedDeep) fs).
  intros H. pose proof (strip_field_length kv) as Hl.
  pose proof (flat_map_strip_length fs) as Hf.
  destruct (strip_field stripUndefinedDeep kv) as [|y [|z r]] eqn:E.
  - simpl in H. rewrite H in Hf. simpl in Hf. lia.
  - simpl in H. injection H as Hy Hr. subst y. constructor; auto.
  - simpl in Hl. lia.
Qed.

Lemma strip_field_fixed k x :
  strip_field stripUndefinedDeep (k, x) = [(k, x)] ->
  mem k oversized_keys = false
  /\ (if mem k heavy_keys then is_string x && truthy x = true
      else String.eqb k "__proto__" = false /\ stripUndefinedDeep x = x).
Proof.
  unfold strip_field.
  destruct (is_undefined x) eqn:Eu; [discriminate|].
  destruct (mem k oversized_keys); [discriminate|].
  intros Hx. split; [reflexivity|].
  destruct (mem k heavy_keys).
  - destruct (truthy x); [|discriminate].
    destruct (is_string x) eqn:Es; [reflexivity|].
    simpl in Hx. injection Hx as Hx. rewrite <- Hx in Es. discriminate.
  - destruct (String.eqb k "__proto__"); [discriminate|].
    injection Hx as Hx. split; [reflexivity|exact Hx].
Qed.

Lemma fixed_settled v : stripUndefinedDeep v = v -> settled v = true.
Proof.
  induction v as [| | b | n | s | l IH | fs IH] using value_ind';
    try reflexivity; try discriminate.
  - rewrite strip_array_eq. destruct l as [|x l]; [reflexivity|].
    destruct (isArray x) eqn:Ex; [discriminate|].
    intros H. injection H as H.
    change (filter (fun item => negb (nullish item))
              (map stripUndefinedDeep (x :: l)) = x :: l) in H.
    assert (Hlen : List.length (filter (fun item => negb (nullish item))
                             (map stripUndefinedDeep (x :: l)))
                   = List.length (map stripUndefinedDeep (x :: l))).
    { rewrite H. simpl. now rewrite length_map. }
    apply filter_same_length in Hlen.
    rewrite (filter_all _ _ Hlen) in H.
    pose proof (map_fixed _ _ H) as Hfix.
    change (settled (VArr (x :: l)))
      with (negb (isArray x)
            && forallb (fun y => negb (nullish y) && settled y) (x :: l)).
    rewrite Ex. cbn [negb andb].
    apply forallb_forall. intros y Hy.
    rewrite Forall_forall in IH, Hfix.
    rewrite (IH y Hy (Hfix y Hy)), andb_true_r.
    rewrite forallb_forall in Hlen.
    rewrite <- (Hfix y Hy). apply Hlen. now apply in_map.
  - intros [= H]. apply flat_map_strip_fixed in H.
    simpl. apply forallb_forall. intros [k x] Hin.
    rewrite Forall_forall in IH, H.
    specialize (IH _ Hin). specialize (H _ Hin). simpl in IH.
    apply strip_field_fixed in H. destruct H as [-> H].
    destruct (mem k heavy_keys); [exact H|].
    destruct H as [-> H]. now rewrite (IH H).
Qed.

(** X2. The values that the sanitizer leaves as they are, are exactly the
    settled ones: clean, with no array that begins with an array and no
    property named [__proto__]. *)
Theorem sanitizer_fixed_points v :
  stripUndefinedDeep v = v <-> settled v = true.
Proof. split; [apply fixed_settled|apply settled_fixed]. Qed.

(** X3. Two passes of the sanitizer settle every value. *)
Theorem two_passes_settle v :
  settled (stripUndefinedDeep (stripUndefinedDeep v)) = true.
Proof. apply fixed_settled, strip_settles. Qed.

(** *** The second pass *)

Lemma isArray_strip x : isArray (stripUndefinedDeep x) = plain_array x.
Proof.
  destruct x as [| | | | |l|]; try reflexivity.
  rewrite strip_array_eq. destruct l as [|y l]; [reflexivity|].
  simpl. destruct (isArray y); reflexivity.
Qed.

Lemma stable_nullish x : nullish x = true -> stable x = true.
Proof. destruct x; try discriminate; reflexivity. Qed.

Lemma matrix_of_sanitized l :
  is_matrix (map stripUndefinedDeep
               (filter (fun item => negb (nullish item)) l))
  = match first_defined l with
    | Some y => plain_array y
    | None => false
    end.
Proof.
  induction l as [|x l IH]; [reflexivity|].
  simpl. destruct (nullish x); simpl; [exact IH|apply isArray_strip].
Qed.

Lemma settled_of_sanitized l :
  Forall (fun v => settled (stripUndefinedDeep v) = stable v) l ->
  forallb (fun x => negb (nullish x) && settled x)
    (map stripUndefinedDeep (filter (fun item => negb (nullish item)) l))
  = forallb stable l.
Proof.
  induction 1 as [|x l Hx Hl IH]; [reflexivity|].
  simpl. destruct (nullish x) eqn:En; simpl.
  - now rewrite (stable_nullish x En).
  - now rewrite strip_nullish, En, Hx, IH.
Qed.

Lemma settled_field k x :
  settled (stripUndefinedDeep x) = stable x ->
  forallb (fun kv : string * value =>
             let (k, x) := kv in
             negb (mem k oversized_keys)
             && (if mem k heavy_keys then is_string x && truthy x
                 else negb (String.eqb k "__proto__") && settled x))
    (strip_field stripUndefinedDeep (k, x))
  = negb (plain_key k) || stable x.
Proof.
  intros IH. unfold strip_field, plain_key.
  destruct (is_undefined x) eqn:Eu.
  { destruct x; try discriminate. now rewrite orb_true_r. }
  destruct (mem k oversized_keys) eqn:Eo; [reflexivity|].
  destruct (mem k heavy_keys) eqn:Eh.
  { destruct (truthy x) eqn:Et; [|reflexivity].
    destruct (is_string x) eqn:Es; simpl.
    - rewrite Eo, Eh, Es, Et. reflexivity.
    - rewrite Eo, Eh. simpl.
      pose proof (ser_truthy_nonempty x Et Es) as Hn. simpl in Hn.
      rewrite Hn. reflexivity. }
  destruct (String.eqb k "__proto__") eqn:Ep; [reflexivity|].
  simpl. rewrite Eo, Eh, Ep, IH. simpl. now rewrite andb_true_r.
Qed.

Lemma settled_strip v : settled (stripUndefinedDeep v) = stable v.
Proof.
  induction v as [| | b | n | s | l IH | fs IH] using value_ind';
    try reflexivity.
  - destruct (is_matrix l) eqn:Em.
    + rewrite strip_array_eq. destruct l as [|x l]; [discriminate|].
      simpl in Em. rewrite Em. simpl. now rewrite Em.
    + rewrite (strip_array_entries l Em).
      change (stable (VArr l))
        with (is_matrix l
              || (negb (match first_defined l with
                        | Some y => plain_array y
                        | None => false
                        end)
                  && forallb stable l)).
      rewrite Em.
      change (settled (VArr ?o))
        with (negb (is_matrix o)
              && forallb (fun x => negb (nullish x) && settled x) o).
      now rewrite matrix_of_sanitized, (settled_of_sanitized l IH).
  - change (stripUndefinedDeep (VObj fs))
      with (VObj (flat_map (strip_field stripUndefinedDeep) fs)).
    change (settled (VObj ?o))
      with (forallb (fun kv : string * value =>
                       let (k, x) := kv in
                       negb (mem k oversized_keys)
                       && (if mem k heavy_keys then is_string x && truthy x
                           else negb (String.eqb k "__proto__")
                                && settled x)) o).
    change (stable (VObj fs))
      with (forallb (fun kv : string * value =>
                       let (k, x) := kv in
                       negb (plain_key k) || stable x) fs).
    induction IH as [|[k x] fs Hx Hfs IHfs]; [reflexivity|].
    change (flat_map (strip_field stripUndefinedDeep) ((k, x) :: fs))
      with (strip_field stripUndefinedDeep (k, x)
            ++ flat_map (strip_field stripUndefinedDeep) fs).
    rewrite forallb_app, IHfs. cbn [forallb]. f_equal.
    now apply settled_field.
Qed.

(** A second pass changes nothing exactly on the stable inputs. *)
Lemma second_pass_iff v :
  stripUndefinedDeep (stripUndefinedDeep v) = stripUndefinedDeep v
  <-> stable v = true.
Proof.
  rewrite <- settled_strip. split; [apply fixed_settled|apply settled_fixed].
Qed.
(* ================================================================== *)
(** ** Facts: sizes of JSON text *)

Local Open Scope string_scope.

Lemma js_length_cons c s : js_length (String c s) = 1 + js_length s.
Proof. unfold js_length. simpl String.length. lia. Qed.

Lemma js_length_append a b : js_length (a ++ b) = js_length a + js_length b.
Proof. unfold js_length. rewrite length_append. lia. Qed.

Lemma utf8_size_append a b : utf8_size (a ++ b) = utf8_size a + utf8_size b.
Proof. induction a as [|c a IH]; simpl; [reflexivity|]. rewrite IH. lia. Qed.

Lemma utf8_size_ascii s : ascii_only s = true -> utf8_size s = js_length s.
Proof.
  induction s as [|c s IH]; [reflexivity|].
  simpl ascii_only. intros H. apply andb_true_iff in H. destruct H as [Hc Hs].
  rewrite js_length_cons. simpl utf8_size. rewrite Hc, IH by exact Hs. reflexivity.
Qed.

Lemma nrepeat_succ c n : nrepeat c (N.succ n) = String c (nrepeat c n).
Proof. unfold nrepeat. now rewrite N.iter_succ. Qed.

Lemma escape_nrepeat c n :
  escape_char c = str1 c -> escape (nrepeat c n) = nrepeat c n.
Proof.
  intros Hc. induction n as [|n IH] using N.peano_ind; [reflexivity|].
  rewrite nrepeat_succ. simpl escape. now rewrite Hc, IH.
Qed.

Lemma js_length_nrepeat c n : js_length (nrepeat c n) = Z.of_N n.
Proof.
  induction n as [|n IH] using N.peano_ind; [reflexivity|].
  rewrite nrepeat_succ, js_length_cons, IH. lia.
Qed.

Lemma utf8_size_nrepeat c n :
  (N_of_ascii c <? 128)%N = false -> utf8_size (nrepeat c n) = 2 * Z.of_N n.
Proof.
  intros Hc. induction n as [|n IH] using N.peano_ind; [reflexivity|].
  rewrite nrepeat_succ. simpl utf8_size. rewrite Hc, IH. lia.
Qed.

Lemma ser_main_text t :
  ser (main_text t) = main_pre ++ escape t ++ main_post.
Proof.
  unfold main_text. rewrite ser_obj.
  change (defined_members (("ocr_text", VStr t) :: main_rest))
    with (("ocr_text", VStr t) :: main_rest).
  change (join "," (map entry (("ocr_text", VStr t) :: main_rest)))
    with (entry ("ocr_text", VStr t) ++ "," ++ join "," (map entry main_rest)).
  unfold entry at 1. cbn [fst snd]. change (ser (VStr t)) with (quote t).
  unfold main_pre, main_post.
  change (quote t) with (str1 dquote ++ (escape t ++ str1 dquote)).
  rewrite !append_assoc. reflexivity.
Qed.

Lemma split_text c t :
  split 2000 (raw_text (String c t)) = Ok (main_text (String c t), side_empty).
Proof. rewrite split_of_data by reflexivity. reflexivity. Qed.

Lemma escape_cons c s : escape (String c s) = escape_char c ++ escape s.
Proof. reflexivity. Qed.

Lemma utf8_size_cons c s :
  utf8_size (String c s)
  = (if (N_of_ascii c <? 128)%N then 1 else 2) + utf8_size s.
Proof. reflexivity. Qed.

Lemma big_text_sizes :
  js_length (ser (main_text big_text)) <= size_limit
  /\ size_limit < utf8_size (ser (main_text big_text)).
Proof.
  rewrite ser_main_text. unfold big_text.
  rewrite escape_cons, escape_nrepeat by reflexivity.
  change (escape_char eacute) with (str1 eacute).
  rewrite !js_length_append, !utf8_size_append.
  unfold str1. rewrite js_length_cons, utf8_size_cons.
  rewrite js_length_nrepeat, utf8_size_nrepeat by reflexivity.
  change (N_of_ascii eacute <? 128)%N with false. cbv iota.
  change (js_length EmptyString) with 0. change (utf8_size EmptyString) with 0.
  assert (H0 : js_length main_pre = 13) by reflexivity.
  assert (H1 : 0 <= js_length main_post < 1000) by (vm_compute; split; congruence).
  assert (H2 : 0 <= utf8_size main_post) by (vm_compute; congruence).
  assert (H3 : 0 <= utf8_size main_pre) by (vm_compute; congruence).
  unfold size_limit. lia.
Qed.

(* ================================================================== *)
(** ** Facts: serialized fields, the split and the messages *)

Local Open Scope string_scope.

Lemma heavy_not_oversized k :
  mem k heavy_keys = true -> mem k oversized_keys = false.
Proof.
  intros H. apply mem_In in H. simpl in H.
  destruct H as [<-|[<-|[<-|[]]]]; reflexivity.
Qed.

Lemma strip_truthy v : truthy (stripUndefinedDeep v) = truthy v.
Proof.
  destruct v as [| | | | |l|]; try reflexivity.
  rewrite strip_array_eq. destruct l as [|x l]; [reflexivity|].
  destruct (isArray x); [|reflexivity].
  now apply ser_truthy_nonempty.
Qed.

Lemma lookup_none_strip rec k fs :
  lookup k fs = None -> lookup k (flat_map (strip_field rec) fs) = None.
Proof.
  intros H. apply lookup_strip_undefined. intros x Hin. exfalso.
  induction fs as [|[k0 v] fs IH]; [destruct Hin|].
  simpl in H. destruct (String.eqb k k0) eqn:E; [discriminate|].
  destruct Hin as [[= -> ->]|Hin]; [|auto].
  now rewrite String.eqb_refl in E.
Qed.

Lemma is_object_or_else x :
  is_object (or_else (stripUndefinedDeep x) (VObj []))
  = negb (split_rejects x).
Proof.
  unfold or_else. rewrite strip_truthy.
  destruct x as [| |[]|n|s|l|fs]; try reflexivity.
  - simpl. destruct (n =? 0)%Z; reflexivity.
  - simpl. destruct (String.eqb s EmptyString); reflexivity.
  - simpl truthy. cbv iota. rewrite strip_array_eq.
    destruct l as [|x l]; [reflexivity|].
    simpl. destruct (isArray x); reflexivity.
Qed.

Lemma get_strip_forensic raw :
  json_data raw = true ->
  or_else (get (stripUndefinedDeep raw) "forensic_details") (VObj [])
  = or_else (stripUndefinedDeep (get raw "forensic_details")) (VObj []).
Proof.
  intros Hd. destruct raw as [| | | | |l|fs]; try reflexivity.
  - rewrite strip_array_eq. destruct l as [|x l]; [reflexivity|].
    destruct (isArray x); reflexivity.
  - simpl get. destruct (lookup "forensic_details" fs) as [x|] eqn:El.
    + rewrite (lookup_strip_plain stripUndefinedDeep "forensic_details" fs x
                 eq_refl El); [reflexivity|].
      pose proof (json_data_lookup _ _ _ Hd El).
      destruct x; try reflexivity; discriminate.
    + now rewrite lookup_none_strip.
Qed.

Lemma payloads_throws step2 elapsed :
  (exists m, payloads_of step2 elapsed = Throw m)
  <-> nullish step2 = true
      \/ is_object (or_else (get step2 "forensic_details") (VObj [])) = false.
Proof.
  unfold payloads_of. destruct (nullish step2).
  - split; eauto.
  - destruct (or_else (get step2 "forensic_details") (VObj []));
      simpl; split; eauto; try (intros [m H]; discriminate);
      intros [H|H]; discriminate.
Qed.

Lemma number_text_app a b :
  number_text (a ++ b) = number_text a && number_text b.
Proof.
  induction a as [|c a IH]; [reflexivity|].
  simpl. now rewrite IH, andb_assoc.
Qed.

Lemma number_text_uint d : number_text (NilEmpty.string_of_uint d) = true.
Proof. induction d; simpl; auto. Qed.

Lemma number_text_print_Z n : number_text (print_Z n) = true.
Proof.
  unfold print_Z, NilZero.string_of_int.
  destruct (Z.to_int n) as [d|d]; unfold NilZero.string_of_uint.
  - destruct d; try reflexivity; apply number_text_uint.
  - change (number_text ("-" ++ match d with
                               | Decimal.Nil => "0"
                               | _ => NilEmpty.string_of_uint d
                               end) = true).
    rewrite number_text_app. simpl.
    destruct d; try reflexivity; apply number_text_uint.
Qed.

Lemma number_text_toFixed n : number_text (toFixed2_div1024 n) = true.
Proof.
  unfold toFixed2_div1024.
  rewrite !number_text_app, !number_text_print_Z. reflexivity.
Qed.

Lemma toFixed_nonempty n : toFixed2_div1024 n <> EmptyString.
Proof.
  unfold toFixed2_div1024. intros H.
  pose proof (print_Z_nonempty ((n * 100 + 512) / 1024 / 100)) as Hp.
  destruct (print_Z ((n * 100 + 512) / 1024 / 100)); [now apply Hp|].
  discriminate.
Qed.

Lemma prefix_nil s : String.prefix EmptyString s = true.
Proof. now destruct s. Qed.

Lemma prefix_number n x rest :
  n <> EmptyString -> wordy n = true -> number_char x = true ->
  String.prefix n (String x rest) = false.
Proof.
  intros Hn Hw Hx. destruct n as [|c n]; [contradiction|].
  simpl. destruct (Ascii.ascii_dec c x) as [->|]; [|reflexivity].
  simpl in Hw. rewrite Hx in Hw. discriminate.
Qed.

Lemma prefix_app_number n pre x X post :
  n <> EmptyString -> wordy n = true -> number_char x = true ->
  String.prefix n (pre ++ String x X ++ post) = String.prefix n pre.
Proof.
  revert n. induction pre as [|p pre IH]; intros n Hn Hw Hx.
  - change (EmptyString ++ String x X ++ post) with (String x (X ++ post)).
    rewrite (prefix_number n x (X ++ post) Hn Hw Hx).
    destruct n; [contradiction|reflexivity].
  - destruct n as [|c n]; [contradiction|].
    simpl. destruct (Ascii.ascii_dec c p); [|reflexivity].
    destruct n as [|c' n]; [now rewrite !prefix_nil|].
    apply IH; [discriminate| |exact Hx].
    simpl in Hw. apply andb_true_iff in Hw. tauto.
Qed.

Lemma includes_number n X post :
  n <> EmptyString -> wordy n = true -> number_text X = true ->
  includes n (X ++ post) = includes n post.
Proof.
  intros Hn Hw. induction X as [|x X IH]; intros HX; [reflexivity|].
  simpl in HX. apply andb_true_iff in HX. destruct HX as [Hx HX].
  change (includes n (String x X ++ post))
    with (String.prefix n (String x (X ++ post)) || includes n (X ++ post)).
  now rewrite (prefix_number n x (X ++ post) Hn Hw Hx), IH.
Qed.

Lemma includes_app_number n pre X post :
  n <> EmptyString -> wordy n = true -> number_text X = true ->
  X <> EmptyString ->
  includes n (pre ++ X ++ post) = includes n pre || includes n post.
Proof.
  intros Hn Hw HX HX0. induction pre as [|p pre IH].
  - change (EmptyString ++ X ++ post) with (X ++ post).
    rewrite includes_number by assumption.
    destruct n; [contradiction|reflexivity].
  - change (includes n (String p pre ++ X ++ post))
      with (String.prefix n (String p pre ++ X ++ post)
            || includes n (pre ++ X ++ post)).
    change (includes n (String p pre))
      with (String.prefix n (String p pre) || includes n pre).
    rewrite IH, <- orb_assoc. f_equal.
    destruct X as [|x X]; [contradiction|].
    simpl in HX. apply andb_true_iff in HX.
    apply prefix_app_number; tauto.
Qed.

(** X4. A value that the sanitizer has serialized under one of the keys
    [technical_details], [forensic_findings] and [agent_logs] is read back
    by [safeParse] as it was, when it is JSON data. *)
Theorem serialized_field_reads_back fs k x :
  mem k heavy_keys = true -> lookup k fs = Some x ->
  truthy x = true -> is_string x = false -> json_data x = true ->
  safeParse (get (stripUndefinedDeep (VObj fs)) k) = x.
Proof.
  intros Hh Hl Ht Hs Hd. simpl get.
  rewrite (lookup_strip_heavy stripUndefinedDeep k fs x
             (heavy_not_oversized k Hh) Hh Hl Ht Hs).
  now apply safeParse_ser.
Qed.

Lemma serialized_field_reads_back_witness :
  safeParse
    (get (stripUndefinedDeep
            (VObj [("technical_details", VObj [("dpi", VNum 72)])]))
       "technical_details")
  = VObj [("dpi", VNum 72)].
Proof.
  apply (serialized_field_reads_back
           [("technical_details", VObj [("dpi", VNum 72)])]
           "technical_details" (VObj [("dpi", VNum 72)]));
    reflexivity.
Defined.

(** X5. The message submitted to the topic is JSON text of an object with
    the entity id, the hash and the time, whatever these strings are. *)
Theorem hcs_message_reads_back e entityId dataHash :
  JSON_parse (hcs_message e entityId dataHash)
  = Some (VObj [("entity_id", VStr entityId);
                ("data_hash", VStr dataHash);
                ("timestamp", VStr (now_iso e))]).
Proof. unfold hcs_message. now apply JSON_parse_ser_data. Qed.

(** X6. On a response that is JSON data the split throws exactly when the
    response is [null], or its [forensic_details] is [true], a number other
    than zero, a non-empty string or an array that begins with an array. *)
Theorem split_throws_iff elapsed raw :
  json_data raw = true ->
  ((exists m, split elapsed raw = Throw m)
   <-> raw = VNull \/ split_rejects (get raw "forensic_details") = true).
Proof.
  intros Hd. rewrite (split_of_data elapsed raw Hd).
  assert (Hp : (exists m,
                  match payloads_of (stripUndefinedDeep raw) elapsed with
                  | Ok (mainPayload, sidecarData) =>
                      Ok (stripUndefinedDeep mainPayload,
                          stripUndefinedDeep sidecarData)
                  | Throw m => Throw m
                  end = Throw m)
               <-> exists m,
                  payloads_of (stripUndefinedDeep raw) elapsed = Throw m).
  { destruct (payloads_of (stripUndefinedDeep raw) elapsed) as [[a b]|m'];
      split; intros [m H]; try discriminate; eauto. }
  rewrite Hp, payloads_throws, strip_nullish, (get_strip_forensic raw Hd),
    is_object_or_else, negb_false_iff.
  assert (Hn : nullish raw = true <-> raw = VNull).
  { destruct raw; simpl; split; intros H; try discriminate; reflexivity. }
  now rewrite Hn.
Qed.

Lemma split_throws_iff_witness :
  (exists m,
     split 2000
       (VObj [("forensic_details", VArr [VArr [VNum 1]])]) = Throw m)
  <-> VObj [("forensic_details", VArr [VArr [VNum 1]])] = VNull
      \/ split_rejects
           (get (VObj [("forensic_details", VArr [VArr [VNum 1]])])
              "forensic_details") = true.
Proof.
  apply (split_throws_iff 2000
           (VObj [("forensic_details", VArr [VArr [VNum 1]])])).
  reflexivity.
Defined.

(** X8. The error of the size check reaches the user as the message on
    data too large to store, whatever the size. *)
Theorem size_error_message n :
  getUserFriendlyError (size_error n)
  = "Analysis data is too large to store. This is a system limitation we are working to resolve.".
Proof.
  unfold getUserFriendlyError, size_error.
  pose proof (number_text_toFixed n) as HX.
  pose proof (toFixed_nonempty n) as HX0.
  set (X := toFixed2_div1024 n) in *.
  change (String.eqb ("Main payload size " ++ X
                      ++ "KB exceeds Firestore 1MB limit") EmptyString)
    with false.
  cbv iota.
  rewrite !(includes_app_number _ _ X)
    by (try assumption; try discriminate; reflexivity).
  reflexivity.
Qed.

(** X9. A timeout of the analyzer reaches the user as the message on data
    too large to store: the message thrown for it says [timed out] and
    [too large], not [timeout]. *)
Theorem timeout_message e :
  code_is "ECONNABORTED" e || includes "timeout" (ae_message e) = true ->
  getUserFriendlyError (classify_ai_error e)
  = "Analysis data is too large to store. This is a system limitation we are working to resolve.".
Proof. unfold classify_ai_error. now intros ->. Qed.

Lemma timeout_message_witness :
  getUserFriendlyError
    (classify_ai_error
       {| ae_code := Some "ECONNABORTED";
          ae_message := "timeout of 180000ms exceeded";
          ae_detail := VUndef; ae_data_message := VUndef |})
  = "Analysis data is too large to store. This is a system limitation we are working to resolve.".
Proof.
  apply (timeout_message
           {| ae_code := Some "ECONNABORTED";
              ae_message := "timeout of 180000ms exceeded";
              ae_detail := VUndef; ae_data_message := VUndef |}).
  reflexivity.
Defined.

(** X10. An analyzer that cannot be reached, and did not time out, reaches
    the user as the message on the service being unavailable. *)
Theorem unavailable_message e :
  code_is "ECONNABORTED" e || includes "timeout" (ae_message e) = false ->
  code_is "ECONNREFUSED" e || code_is "ENOTFOUND" e = true ->
  getUserFriendlyError (classify_ai_error e)
  = "Service temporarily unavailable. Please try again in a few minutes.".
Proof. unfold classify_ai_error. now intros -> ->. Qed.

Lemma unavailable_message_witness :
  getUserFriendlyError
    (classify_ai_error
       {| ae_code := Some "ENOTFOUND";
          ae_message := "getaddrinfo ENOTFOUND ai";
          ae_detail := VUndef; ae_data_message := VUndef |})
  = "Service temporarily unavailable. Please try again in a few minutes.".
Proof.
  apply (unavailable_message
           {| ae_code := Some "ENOTFOUND";
              ae_message := "getaddrinfo ENOTFOUND ai";
              ae_detail := VUndef; ae_data_message := VUndef |});
    reflexivity.
Defined.

(** X11. The message for the user is never the empty string. *)
Theorem friendly_error_nonempty m : getUserFriendlyError m <> EmptyString.
Proof.
  unfold getUserFriendlyError.
  destruct (String.eqb m EmptyString) eqn:E.
  - vm_compute. discriminate.
  - apply String.eqb_neq in E.
    repeat match goal with
           | |- context [if ?c then _ else _] => destruct c
           end; try discriminate; exact E.
Qed.
(** X27. On a response that is JSON data, the second layer of the split,
    [JSON.parse(JSON.stringify(...))] of the sanitized response, returns
    the sanitized response itself. *)
Theorem deep_clone_is_identity raw :
  json_data raw = true ->
  JSON_stringify (stripUndefinedDeep raw)
  = Some (ser (stripUndefinedDeep raw))
  /\ JSON_parse (ser (stripUndefinedDeep raw))
     = Some (stripUndefinedDeep raw).
Proof.
  intros Hd. split.
  - pose proof (strip_not_undefined raw).
    destruct (stripUndefinedDeep raw); try reflexivity; discriminate.
  - apply JSON_parse_ser_data. now apply strip_json_data.
Qed.

Lemma deep_clone_is_identity_witness :
  JSON_stringify (stripUndefinedDeep raw_A)
  = Some (ser (stripUndefinedDeep raw_A))
  /\ JSON_parse (ser (stripUndefinedDeep raw_A))
     = Some (stripUndefinedDeep raw_A).
Proof. apply (deep_clone_is_identity raw_A). reflexivity. Defined.

(* ================================================================== *)
(** ** Facts: the metadata of a Trust ID *)

Lemma escape_char_plain c : plain_char c = true -> escape_char c = str1 c.
Proof.
  destruct c as [[] [] [] [] [] [] [] []];
    vm_compute; intros H; try discriminate; reflexivity.
Qed.

Lemma escape_plain s : plain_text s = true -> escape s = s.
Proof.
  induction s as [|c s IH]; [reflexivity|].
  simpl plain_text. intros H. apply andb_true_iff in H. destruct H as [Hc Hs].
  rewrite escape_cons, (escape_char_plain c Hc), (IH Hs). reflexivity.
Qed.

Lemma plain_char_ascii c : plain_char c = true -> (N_of_ascii c <? 128)%N = true.
Proof.
  unfold plain_char. intros H.
  apply andb_true_iff in H. destruct H as [H _].
  apply andb_true_iff in H. destruct H as [H _].
  apply andb_true_iff in H. tauto.
Qed.

Lemma utf8_size_plain s : plain_text s = true -> utf8_size s = js_length s.
Proof.
  induction s as [|c s IH]; [reflexivity|].
  simpl plain_text. intros H. apply andb_true_iff in H. destruct H as [Hc Hs].
  rewrite utf8_size_cons, js_length_cons, (plain_char_ascii c Hc), (IH Hs).
  reflexivity.
Qed.

Lemma number_char_ascii c : number_char c = true -> (N_of_ascii c <? 128)%N = true.
Proof.
  unfold number_char, is_digit. intros H. apply N.ltb_lt.
  apply orb_true_iff in H. destruct H as [H|H].
  - apply orb_true_iff in H. destruct H as [H|H].
    + apply andb_true_iff in H. destruct H as [_ H].
      apply N.leb_le in H. lia.
    + apply N.eqb_eq in H. lia.
  - apply N.eqb_eq in H. lia.
Qed.

Lemma utf8_size_number s : number_text s = true -> utf8_size s = js_length s.
Proof.
  induction s as [|c s IH]; [reflexivity|].
  simpl number_text. intros H. apply andb_true_iff in H. destruct H as [Hc Hs].
  rewrite utf8_size_cons, js_length_cons, (number_char_ascii c Hc), (IH Hs).
  reflexivity.
Qed.

Lemma metadata_size businessId trustScore tier nowIso :
  plain_text businessId = true -> plain_text (before_T nowIso) = true ->
  utf8_size (ser (compactMetadata businessId trustScore tier nowIso))
  = 30 + js_length businessId + js_length (print_Z trustScore)
    + js_length (print_Z tier) + js_length (before_T nowIso).
Proof.
  intros Hi Hd. unfold compactMetadata. rewrite ser_obj.
  change (defined_members
            [("id", VStr businessId); ("ts", VNum trustScore);
             ("tier", VNum tier); ("v", VStr (before_T nowIso))])
    with [("id", VStr businessId); ("ts", VNum trustScore);
          ("tier", VNum tier); ("v", VStr (before_T nowIso))].
  unfold entry. cbn [map join fst snd ser]. unfold quote.
  rewrite (escape_plain _ Hi), (escape_plain _ Hd).
  repeat (rewrite utf8_size_append || rewrite utf8_size_cons).
  rewrite (utf8_size_plain _ Hi), (utf8_size_plain _ Hd).
  rewrite !(utf8_size_number (print_Z _)) by apply number_text_print_Z.
  repeat match goal with
         | |- context [if (N_of_ascii ?c <? 128)%N then 1 else 2] =>
             change (if (N_of_ascii c <? 128)%N then 1 else 2) with 1
         end.
  change (utf8_size (escape "id")) with 2.
  change (utf8_size (escape "ts")) with 2.
  change (utf8_size (escape "tier")) with 4.
  change (utf8_size (escape "v")) with 1.
  change (utf8_size (str1 dquote)) with 1.
  change (utf8_size EmptyString) with 0.
  lia.
Qed.

Lemma initial_score_cases tier :
  calculateInitialTrustScore tier = 50
  \/ calculateInitialTrustScore tier = 70
  \/ calculateInitialTrustScore tier = 85.
Proof.
  destruct tier as [|p|p]; simpl; auto.
  destruct p as [[p|p|]|[p|p|]|]; simpl; auto.
Qed.

Lemma initial_score_digits tier :
  js_length (print_Z (calculateInitialTrustScore tier)) = 2.
Proof.
  destruct (initial_score_cases tier) as [-> | [-> | ->]]; reflexivity.
Qed.

Lemma digit_length tier : 0 <= tier <= 9 -> js_length (print_Z tier) = 1.
Proof.
  intros H.
  assert (Hc : tier = 0 \/ tier = 1 \/ tier = 2 \/ tier = 3 \/ tier = 4
               \/ tier = 5 \/ tier = 6 \/ tier = 7 \/ tier = 8 \/ tier = 9)
    by lia.
  repeat (destruct Hc as [-> | Hc]; [reflexivity|]). now subst.
Qed.

(** X12. For a business id of plain ASCII characters, a tier of one digit
    and the score of that tier, the metadata of a Trust ID fit the 100 bytes
    exactly when the id has at most 57 characters: then the mint is
    submitted, otherwise the call throws and does nothing. *)
Theorem mint_fits_iff me businessId businessName tier t :
  plain_text businessId = true ->
  plain_text (before_T (mint_now_iso me)) = true ->
  js_length (before_T (mint_now_iso me)) = 10 ->
  0 <= tier <= 9 ->
  let metadata :=
    ser (compactMetadata businessId (calculateInitialTrustScore tier) tier
           (mint_now_iso me)) in
  let r :=
    mintTrustIdNFT me businessId businessName
      (calculateInitialTrustScore tier) tier t in
  utf8_size metadata = 43 + js_length businessId
  /\ (js_length businessId <= 57 ->
      exists rest, snd r = (t ++ MintTx (token_id me) metadata :: rest)%list)
  /\ (57 < js_length businessId ->
      r = (Throw (metadata_error (43 + js_length businessId)), t)).
Proof.
  intros Hi Hd Hlen Htier metadata r.
  assert (Hsize : utf8_size metadata = 43 + js_length businessId).
  { unfold metadata. rewrite (metadata_size _ _ _ _ Hi Hd).
    rewrite initial_score_digits, (digit_length tier Htier), Hlen. lia. }
  split; [exact Hsize|]. unfold r, mintTrustIdNFT. fold metadata.
  rewrite Hsize. split; intros H.
  - assert (Hgt : (43 + js_length businessId >? 100) = false)
      by (rewrite Z.gtb_ltb; apply Z.ltb_ge; lia).
    rewrite Hgt.
    destruct (mint_outcome me metadata) as [minted|m];
      [|exists []; reflexivity].
    destruct (nft_add_outcome me); [|exists []; reflexivity].
    destruct (business_update_outcome me); simpl;
      rewrite <- ?app_assoc; eexists; reflexivity.
  - assert (Hgt : (43 + js_length businessId >? 100) = true)
      by (rewrite Z.gtb_ltb; apply Z.ltb_lt; lia).
    now rewrite Hgt.
Qed.

Lemma mint_fits_iff_witness :
  utf8_size
    (ser (compactMetadata "biz_0001" (calculateInitialTrustScore 2) 2
            (mint_now_iso mint_env_ok)))
  = 43 + js_length "biz_0001"
  /\ (js_length "biz_0001" <= 57 ->
      exists rest,
        snd (mintTrustIdNFT mint_env_ok "biz_0001" "Shop"
               (calculateInitialTrustScore 2) 2 [])
        = ([] ++ MintTx (token_id mint_env_ok)
                   (ser (compactMetadata "biz_0001"
                           (calculateInitialTrustScore 2) 2
                           (mint_now_iso mint_env_ok))) :: rest)%list)
  /\ (57 < js_length "biz_0001" ->
      mintTrustIdNFT mint_env_ok "biz_0001" "Shop"
        (calculateInitialTrustScore 2) 2 []
      = (Throw (metadata_error (43 + js_length "biz_0001")), [])).
Proof.
  apply (mint_fits_iff mint_env_ok "biz_0001" "Shop" 2 []);
    try reflexivity.
  lia.
Defined.

(** X13. A mint adds to the trace a prefix of: the mint, the stored NFT,
    the update of the business; it returns the NFT exactly when it added
    all three, and the stored NFT is what it returns. *)
Theorem mint_effects_in_order me businessId businessName trustScore tier t :
  let r := mintTrustIdNFT me businessId businessName trustScore tier t in
  exists added,
    snd r = (t ++ added)%list
    /\ (added = []
        \/ (exists md, added = [MintTx (token_id me) md])
        \/ (exists md nft, added = [MintTx (token_id me) md; NftAdd nft])
        \/ (exists md nft upd,
              added = [MintTx (token_id me) md; NftAdd nft;
                       BusinessUpdate businessId upd]
              /\ fst r = Ok nft))
    /\ ((exists nft, fst r = Ok nft) <-> List.length added = 3%nat).
Proof.
  intros r. unfold r, mintTrustIdNFT.
  set (md := ser (compactMetadata businessId trustScore tier
                    (mint_now_iso me))).
  destruct (utf8_size md >? 100).
  { exists []. rewrite app_nil_r. split; [reflexivity|].
    split; [now left|]. split; [intros [nft H]|]; discriminate. }
  destruct (mint_outcome me md) as [minted|m].
  2:{ exists [MintTx (token_id me) md]. split; [reflexivity|].
      split; [right; left; now exists md|].
      split; [intros [nft H]|]; discriminate. }
  set (nft := nftData_of me businessId businessName trustScore tier minted).
  destruct (nft_add_outcome me).
  2:{ exists [MintTx (token_id me) md]. split; [reflexivity|].
      split; [right; left; now exists md|].
      split; [intros [x H]|]; discriminate. }
  destruct (business_update_outcome me).
  2:{ exists [MintTx (token_id me) md; NftAdd nft].
      split; [cbn [snd]; now rewrite <- app_assoc|].
      split; [right; right; left; now exists md, nft|].
      split; [intros [x H]|]; discriminate. }
  eexists [MintTx (token_id me) md; NftAdd nft; BusinessUpdate businessId _].
  split; [cbn [snd]; now rewrite <- !app_assoc|].
  split; [right; right; right; eexists md, nft, _; split; reflexivity|].
  split; [intros _; reflexivity|intros _; now exists nft].
Qed.

(* ================================================================== *)
(** ** Facts: the table of connected clients *)

Local Open Scope Z_scope.

Lemma map_get_in id c m : map_get id m = Some c -> In (id, c) m.
Proof.
  induction m as [|[k c'] m IH]; [discriminate|].
  simpl. destruct (String.eqb id k) eqn:E.
  - apply String.eqb_eq in E. intros [= ->]. left. now subst.
  - intros H. right. auto.
Qed.

Lemma count_of_nonneg id m : counts_positive m -> 0 <= count_of id m.
Proof.
  intros H. unfold count_of. destruct (map_get id m) as [c|] eqn:E; [|lia].
  apply map_get_in in E. unfold counts_positive in H.
  rewrite Forall_forall in H. specialize (H _ E). simpl in H. lia.
Qed.

Lemma map_set_positive id c m :
  1 <= c -> counts_positive m -> counts_positive (map_set id c m).
Proof.
  intros Hc H. induction H as [|[k c'] m Hk Hm IH]; simpl.
  - repeat constructor. exact Hc.
  - destruct (String.eqb id k); constructor; auto.
Qed.

Lemma map_delete_positive id m :
  counts_positive m -> counts_positive (map_delete id m).
Proof.
  intros H. induction H as [|[k c'] m Hk Hm IH]; simpl; [constructor|].
  destruct (String.eqb id k); [exact Hm|]. constructor; auto.
Qed.

Lemma gateway_step_positive m ev :
  counts_positive m -> counts_positive (gateway_step m ev).
Proof.
  intros H. destruct ev as [id|id]; simpl.
  - unfold handleConnection. apply map_set_positive; [|exact H].
    pose proof (count_of_nonneg id m H). lia.
  - unfold handleDisconnect. destruct (count_of id m <=? 1); [|exact H].
    now apply map_delete_positive.
Qed.

Lemma map_get_set_same id c m : map_get id (map_set id c m) = Some c.
Proof.
  induction m as [|[k c'] m IH]; simpl.
  - now rewrite String.eqb_refl.
  - destruct (String.eqb id k) eqn:E; simpl; rewrite E; auto.
Qed.

Lemma map_get_set_other id id' c m :
  String.eqb id id' = false ->
  map_get id (map_set id' c m) = map_get id m.
Proof.
  intros Hne. induction m as [|[k c'] m IH]; simpl.
  - now rewrite Hne.
  - destruct (String.eqb id' k) eqn:E; simpl.
    + apply String.eqb_eq in E. subst k. now rewrite Hne.
    + now rewrite IH.
Qed.

Lemma map_delete_set_fresh id c m :
  map_get id m = None -> map_delete id (map_set id c m) = m.
Proof.
  induction m as [|[k c'] m IH]; simpl.
  - now rewrite String.eqb_refl.
  - destruct (String.eqb id k) eqn:E; [discriminate|].
    intros H. simpl. rewrite E. now rewrite IH.
Qed.

(** X14. From the empty table, whatever the connections and
    disconnections, every count in the table is at least one. *)
Theorem connected_counts_positive evs :
  Forall (fun kc => 1 <= snd kc) (gateway_run evs []).
Proof.
  unfold gateway_run.
  assert (H : counts_positive (@nil (string * Z))) by constructor.
  revert H. generalize (@nil (string * Z)) as m.
  induction evs as [|ev evs IH]; intros m H; simpl; [exact H|].
  apply IH. now apply gateway_step_positive.
Qed.

(** X15. A client that connects while absent from the table and then
    disconnects leaves the table as it was. *)
Theorem connect_disconnect_fresh id m :
  map_get id m = None ->
  handleDisconnect id (handleConnection id m) = m.
Proof.
  intros H. unfold handleDisconnect, handleConnection, count_of.
  rewrite map_get_set_same, H. simpl.
  now apply map_delete_set_fresh.
Qed.

Lemma connect_disconnect_fresh_witness :
  handleDisconnect "a" (handleConnection "a" [("b", 1)]) = [("b", 1)].
Proof. apply (connect_disconnect_fresh "a" [("b", 1)]). reflexivity. Defined.

(** X16. The count of a client is never decreased: once it is two or
    more, no number of disconnections of that client changes the table. *)
Theorem disconnect_never_decrements id m n :
  2 <= count_of id m ->
  gateway_run (repeat (Disconnects id) n) m = m.
Proof.
  intros H. induction n as [|n IH]; [reflexivity|].
  unfold gateway_run in *. simpl. unfold handleDisconnect.
  assert (Hle : (count_of id m <=? 1) = false) by (apply Z.leb_gt; lia).
  rewrite Hle. exact IH.
Qed.

Lemma disconnect_never_decrements_witness :
  gateway_run (repeat (Disconnects "a") 5)
    (gateway_run [Connects "a"; Connects "a"] [])
  = gateway_run [Connects "a"; Connects "a"] [].
Proof.
  apply (disconnect_never_decrements "a"
           (gateway_run [Connects "a"; Connects "a"] []) 5).
  vm_compute. discriminate.
Defined.

Local Open Scope string_scope.
Local Open Scope list_scope.
(* ================================================================== *)
(** ** Facts: the pipeline *)

Local Open Scope list_scope.

Arguments stripUndefinedDeep : simpl never.
Arguments ser : simpl never.
Arguments JSON_parse : simpl never.
Arguments split : simpl never.
Arguments getUserFriendlyError : simpl never.
Arguments classify_ai_error : simpl never.
Arguments size_error : simpl never.
Arguments js_length : simpl never.
Arguments response_logs : simpl never.
Arguments JSON_stringify : simpl never.
Arguments merge_doc : simpl never.
Arguments update_fields : simpl never.
Arguments or_anonymous : simpl never.
Arguments hcs_message : simpl never.
Arguments anchor_of : simpl never.
Arguments anchor_value : simpl never.
Arguments Z.gtb : simpl never.
Arguments String.append : simpl never.

Ltac unfold_pipeline :=
  unfold scanReceipt, analyzeReceiptAsync, anchorReceiptToHedera, anchorToHCS,
    call_ai, doc_create, batch_commit, doc_update, emitProgress, emitComplete,
    emitError, read_doc, tell, lift, bind, try_catch, ret, throw.

Ltac step :=
  match goal with
  | |- context [match ?x with _ => _ end] =>
      lazymatch x with
      | context [match _ with _ => _ end] => fail
      | _ => destruct x eqn:?
      end
  end.

Ltac run := unfold_pipeline; cbn; repeat (step; cbn).

(** Rewriting with what is known of the outcomes, then case analysis. *)
Ltac run_with :=
  unfold_pipeline; cbn;
  repeat (progress (repeat match goal with
                           | H : _ = _ |- _ => rewrite H
                           end; cbn));
  repeat (step; cbn).


Lemma or_else_defined a b : is_undefined b = false -> is_undefined (or_else a b) = false.
Proof.
  unfold or_else. intros Hb. destruct (truthy a) eqn:E; [|exact Hb].
  destruct a; try reflexivity; discriminate.
Qed.

Lemma payloads_main step2 elapsed mainPayload sidecarData :
  payloads_of step2 elapsed = Ok (mainPayload, sidecarData) ->
  exists lf, mainPayload = mainPayload_of step2 lf elapsed.
Proof.
  unfold payloads_of. destruct (nullish step2); [discriminate|].
  destruct (or_else (get step2 "forensic_details") (VObj []));
    try discriminate; intros [= <- <-]; eauto.
Qed.

Lemma strip_mainPayload step2 lf elapsed :
  exists ocr an,
    stripUndefinedDeep (mainPayload_of step2 lf elapsed)
    = VObj [("ocr_text", ocr); ("analysis", VObj an);
            ("processing_time", VNum elapsed);
            ("status", VStr "completed")].
Proof.
  unfold mainPayload_of.
  unfold stripUndefinedDeep at 1. fold stripUndefinedDeep.
  cbn [flat_map].
  rewrite (strip_field_plain _ "ocr_text") by (try reflexivity; now apply or_else_defined).
  rewrite (strip_field_plain _ "analysis") by reflexivity.
  rewrite (strip_field_plain _ "processing_time") by reflexivity.
  rewrite (strip_field_plain _ "status") by reflexivity.
  eexists _, _. reflexivity.
Qed.

Lemma split_main_shape elapsed raw main side :
  split elapsed raw = Ok (main, side) ->
  exists ocr an,
    main = VObj [("ocr_text", ocr); ("analysis", VObj an);
                 ("processing_time", VNum elapsed);
                 ("status", VStr "completed")].
Proof.
  unfold split. destruct (JSON_stringify _); [|discriminate].
  destruct (JSON_parse _) as [step2|]; [|discriminate].
  destruct (payloads_of step2 elapsed) as [[mp sd]|] eqn:E; [|discriminate].
  intros [= <- <-]. apply payloads_main in E. destruct E as [lf ->].
  apply strip_mainPayload.
Qed.

Lemma split_status elapsed raw main side :
  split elapsed raw = Ok (main, side) ->
  get main "status" = VStr "completed".
Proof.
  intros H. apply split_main_shape in H. destruct H as (ocr & an & ->).
  reflexivity.
Qed.


Lemma get_obj_set_same k v fs : get (VObj (obj_set k v fs)) k = v.
Proof. simpl. now rewrite lookup_obj_set_same. Qed.

Lemma get_obj_set_other k k' v fs :
  String.eqb k k' = false ->
  get (VObj (obj_set k' v fs)) k = get (VObj fs) k.
Proof. intros H. simpl. now rewrite lookup_obj_set_other. Qed.

Lemma merge_value_obj old an : exists an', merge_value old (VObj an) = VObj an'.
Proof.
  destruct an as [|kv an]; [eexists; reflexivity|].
  destruct old; eexists; reflexivity.
Qed.

Lemma merge_value_fields d kv nfs :
  merge_value (VObj d) (VObj (kv :: nfs))
  = VObj (fold_left
            (fun acc kv =>
               obj_set (fst kv) (merge_value (get (VObj d) (fst kv)) (snd kv))
                 acc)
            (kv :: nfs) d).
Proof. reflexivity. Qed.

Lemma merge_value_leaf old new :
  (forall fs, new <> VObj fs) -> merge_value old new = new.
Proof. destruct new; intros H; try reflexivity. now destruct (H fs). Qed.

Lemma merge_doc_main d ocr an elapsed :
  exists ocr' an',
    merge_doc (Some d)
      (VObj [("ocr_text", ocr); ("analysis", VObj an);
             ("processing_time", VNum elapsed);
             ("status", VStr "completed")])
    = obj_set "status" (VStr "completed")
        (obj_set "processing_time" (VNum elapsed)
           (obj_set "analysis" (VObj an')
              (obj_set "ocr_text" ocr' d))).
Proof.
  unfold merge_doc. rewrite merge_value_fields.
  cbn [fold_left fst snd props].
  destruct (merge_value_obj (get (VObj d) "analysis") an) as [an' ->].
  rewrite (merge_value_leaf _ (VNum elapsed)) by discriminate.
  rewrite (merge_value_leaf _ (VStr "completed")) by discriminate.
  eexists _, _. reflexivity.
Qed.

Lemma record_ok_completed d main side elapsed raw :
  split elapsed raw = Ok (main, side) ->
  nullish (get (VObj d) "error") = true ->
  record_ok (merge_doc (Some d) main).
Proof.
  intros Hs He. apply split_main_shape in Hs. destruct Hs as (ocr & an & ->).
  destruct (merge_doc_main d ocr an elapsed) as (ocr' & an' & ->).
  split.
  - intros _. split.
    + rewrite !get_obj_set_other by reflexivity. now rewrite get_obj_set_same.
    + now rewrite !get_obj_set_other by reflexivity.
  - rewrite get_obj_set_same. discriminate.
Qed.

Lemma record_ok_anchor d x :
  record_ok d -> record_ok (update_fields [("hedera_anchor", x)] d).
Proof.
  unfold record_ok, update_fields. cbn [fold_left fst snd].
  now rewrite !get_obj_set_other by reflexivity.
Qed.

Lemma record_ok_failed d m ts :
  record_ok (update_fields
               [("status", VStr "failed"); ("error", VStr m);
                ("error_timestamp", VNum ts)] d).
Proof.
  unfold record_ok, update_fields. cbn [fold_left fst snd]. split.
  - rewrite !get_obj_set_other by reflexivity. rewrite get_obj_set_same.
    discriminate.
  - intros _. rewrite !get_obj_set_other by reflexivity.
    now rewrite get_obj_set_same.
Qed.

Lemma error_null_anchor d x :
  nullish (get (VObj d) "error") = true ->
  nullish (get (VObj (update_fields [("hedera_anchor", x)] d)) "error") = true.
Proof.
  unfold update_fields. cbn [fold_left fst snd].
  now rewrite get_obj_set_other by reflexivity.
Qed.


Ltac solve_record :=
  repeat first
    [ apply record_ok_failed
    | apply record_ok_anchor
    | eapply record_ok_completed; [eassumption | reflexivity]
    | split; cbn; intros; discriminate ].

Lemma scan_world_ok e receiptId userId anchorOnHedera :
  world_ok (snd (scanReceipt e receiptId userId anchorOnHedera world0)).
Proof.
  unfold world_ok. run.
  all: repeat match goal with
       | p : (value * value)%type |- _ => destruct p
       end; cbn [fst snd] in *.
  all: split; [repeat apply Forall_cons; try apply Forall_nil
              | intros d' [= <-]]; solve_record.
Qed.

Lemma anchor_world_ok e receiptId w :
  world_ok w -> world_ok (snd (anchorReceiptToHedera e receiptId w)).
Proof.
  unfold world_ok. intros [Hh Hd]. destruct w as [d sc an hi tr].
  cbn [doc history] in *. run.
  all: try (split; [assumption|assumption]).
  all: cbn [doc history] in *.
  all: split; [try apply Forall_app; try split; try assumption;
               repeat apply Forall_cons; try apply Forall_nil
              | intros d' [= <-]]; try apply record_ok_anchor; auto.
Qed.


(** The anchor field of a reachable record is [null] or an anchor. *)

Lemma anchor_field_completed d main side elapsed raw :
  split elapsed raw = Ok (main, side) ->
  anchor_field_ok d -> anchor_field_ok (merge_doc (Some d) main).
Proof.
  intros Hs Hd. apply split_main_shape in Hs. destruct Hs as (ocr & an & ->).
  destruct (merge_doc_main d ocr an elapsed) as (ocr' & an' & ->).
  unfold anchor_field_ok. now rewrite !get_obj_set_other by reflexivity.
Qed.

Lemma anchor_field_anchor d a :
  anchor_field_ok (update_fields [("hedera_anchor", anchor_value a)] d).
Proof.
  right. exists a. unfold update_fields. cbn [fold_left fst snd].
  apply get_obj_set_same.
Qed.

Lemma anchor_field_failed d m ts :
  anchor_field_ok d ->
  anchor_field_ok
    (update_fields [("status", VStr "failed"); ("error", VStr m);
                    ("error_timestamp", VNum ts)] d).
Proof.
  unfold anchor_field_ok, update_fields. cbn [fold_left fst snd].
  now rewrite !get_obj_set_other by reflexivity.
Qed.

Ltac solve_anchor_field :=
  repeat first
    [ apply anchor_field_anchor
    | apply anchor_field_failed
    | eapply anchor_field_completed; [eassumption|]
    | left; reflexivity ].

Lemma scan_anchor_field e receiptId userId anchorOnHedera d :
  doc (snd (scanReceipt e receiptId userId anchorOnHedera world0)) = Some d ->
  anchor_field_ok d.
Proof.
  run.
  all: repeat match goal with
       | p : (value * value)%type |- _ => destruct p
       end; cbn [fst snd] in *.
  all: try discriminate.
  all: intros [= <-]; solve_anchor_field.
Qed.

Lemma anchor_anchor_field e receiptId w :
  (forall d, doc w = Some d -> anchor_field_ok d) ->
  forall d, doc (snd (anchorReceiptToHedera e receiptId w)) = Some d ->
            anchor_field_ok d.
Proof.
  intros Hw. destruct w as [d0 sc an hi tr]. cbn [doc] in Hw. run.
  all: intros d' Hd'; cbn [doc] in Hd'; try discriminate.
  all: try (apply Hw; exact Hd').
  all: injection Hd' as <-; apply anchor_field_anchor.
Qed.

Lemma reachable_anchor_field receiptId w d :
  reachable receiptId w -> doc w = Some d -> anchor_field_ok d.
Proof.
  intros H. revert d. induction H.
  - intros d. apply scan_anchor_field.
  - now apply anchor_anchor_field.
Qed.

Section SizeCheck.
Variables (e : env) (receiptId : string) (userId : option string)
  (anchorOnHedera : bool) (up : upload_result) (raw main side : value).
Hypothesis Hup : upload_outcome e = Ok up.
Hypothesis Hcreate : create_outcome e = Ok tt.
Hypothesis Hai : ai_outcome e = inr raw.
Hypothesis Hlog : response_logs raw = true.
Hypothesis Hsplit : split (elapsed e) raw = Ok (main, side).

Let w := snd (scanReceipt e receiptId userId anchorOnHedera world0).

Lemma run_commits :
  (js_length (ser main) >? size_limit) = false ->
  commit_outcome e = Ok tt ->
  In (WBatch receiptId main side) (trace w) /\ sidecar w = Some side.
Proof.
  intros Hsize Hcommit. subst w. run_with.
  all: split; [|reflexivity].
  all: cbn; tauto.
Qed.

Lemma run_too_large :
  (js_length (ser main) >? size_limit) = true ->
  (forall rid m s, ~ In (WBatch rid m s) (trace w))
  /\ sidecar w = None
  /\ (fail_update_outcome e = Ok tt ->
      exists d, doc w = Some d
        /\ get (VObj d) "status" = VStr "failed"
        /\ get (VObj d) "error"
           = VStr (getUserFriendlyError (size_error (js_length (ser main))))
        /\ get (VObj d) "analysis" = VNull
        /\ In (EError receiptId
                 (getUserFriendlyError (size_error (js_length (ser main)))))
              (trace w)).
Proof.
  intros Hsize. subst w. run_with.
  all: split; [|split; [reflexivity|]].
  all: try (intros rid m s Hin; cbn in Hin; intuition discriminate).
  all: try discriminate.
  all: intros _; eexists; split; [reflexivity|].
  all: repeat split; try reflexivity.
  all: cbn; tauto.
Qed.

Lemma run_commit_refused m :
  (js_length (ser main) >? size_limit) = false ->
  commit_outcome e = Throw m ->
  fail_update_outcome e = Ok tt ->
  (forall rid m' s, ~ In (WBatch rid m' s) (trace w))
  /\ sidecar w = None
  /\ exists d, doc w = Some d
       /\ get (VObj d) "status" = VStr "failed"
       /\ get (VObj d) "error" = VStr (getUserFriendlyError m)
       /\ get (VObj d) "analysis" = VNull
       /\ In (EError receiptId (getUserFriendlyError m)) (trace w).
Proof.
  intros Hsize Hcommit Hfail. subst w. run_with.
  all: split; [|split; [reflexivity|]].
  all: try (intros rid m' s Hin; cbn in Hin; intuition discriminate).
  all: eexists; split; [reflexivity|].
  all: repeat split; try reflexivity.
  all: cbn; tauto.
Qed.

End SizeCheck.

Lemma batch_bounded e receiptId userId anchorOnHedera rid main side :
  In (WBatch rid main side)
     (trace (snd (scanReceipt e receiptId userId anchorOnHedera world0))) ->
  js_length (ser main) <= size_limit.
Proof.
  run.
  all: intros Hin; cbn in Hin.
  all: repeat match goal with
       | H : _ \/ _ |- _ => destruct H
       | H : False |- _ => destruct H
       | H : _ = _ :> effect |- _ => try discriminate H; injection H as ? ? ?
       end.
  all: subst.
  all: match goal with
       | H : (js_length _ >? size_limit) = false |- _ =>
           rewrite Z.gtb_ltb in H; apply Z.ltb_ge in H; exact H
       end.
Qed.


(* ================================================================== *)
(** ** Facts: the history of a job *)

Local Open Scope list_scope.
Arguments created_doc : simpl never.

Lemma last_opt_app {A} (l : list A) x : last_opt (l ++ [x]) = Some x.
Proof.
  induction l as [|y l IH]; [reflexivity|].
  simpl. rewrite IH. now destruct (l ++ [x]) eqn:E; [destruct l; discriminate|].
Qed.

Lemma chain_app {A} (R : A -> A -> Prop) l x y :
  chain R l -> last_opt l = Some x -> R x y -> chain R (l ++ [y]).
Proof.
  induction l as [|a l IH]; [discriminate|].
  destruct l as [|b l].
  - simpl. intros _ [= ->] H. auto.
  - intros [Hab Hc] Hl H. split; [exact Hab|]. apply IH; assumption.
Qed.

Lemma scan_history_ok e receiptId userId anchorOnHedera :
  history_ok receiptId
    (snd (scanReceipt e receiptId userId anchorOnHedera world0)).
Proof.
  unfold history_ok. run.
  all: repeat match goal with
       | p : (value * value)%type |- _ => destruct p
       end; cbn [fst snd] in *.
  all: (split; [reflexivity|]).
  all: (split; [try exact I; eexists _, _, _, _; reflexivity|]).
  all: repeat split;
    first [ exact I
          | eapply ev_completed; [reflexivity|eassumption]
          | apply ev_anchored
          | apply ev_failed ].
Qed.

Ltac solve_lookup :=
  first
    [ assumption
    | match goal with
      | H : lookup _ _ = _ |- _ => rewrite H; first [assumption|reflexivity]
      end ].

(** The two ways a call of [anchorReceiptToHedera] ends: the record and
    its history are as before, or a new version holds the anchor. *)
Lemma anchor_step e receiptId w :
  let r := anchorReceiptToHedera e receiptId w in
  sidecar (snd r) = sidecar w
  /\ ((doc (snd r) = doc w /\ history (snd r) = history w
       /\ (anchors (snd r) = anchors w
           \/ exists x, anchors (snd r) = anchors w ++ [x])
       /\ (forall x, fst r = Ok x ->
             exists d, doc w = Some d
               /\ truthy (get (VObj d) "hedera_anchor") = true
               /\ anchors (snd r) = anchors w))
      \/ (exists d a,
            doc w = Some d
            /\ truthy (get (VObj d) "hedera_anchor") = false
            /\ doc (snd r)
               = Some (update_fields
                         [("hedera_anchor", anchor_value a)]%string d)
            /\ history (snd r)
               = history w
                 ++ [update_fields
                       [("hedera_anchor", anchor_value a)]%string d]
            /\ anchors (snd r)
               = anchors w
                 ++ [VObj ([("entity_type", VStr "receipt");
                            ("entity_id", VStr receiptId)]%string
                           ++ props (anchor_value a)
                           ++ [("created_at", VNum (server_time e))]%string)]
            /\ exists x, fst r = Ok x)).
Proof.
  destruct w as [d sc an hi tr]. run.
  all: split; [reflexivity|].
  all: try (right; eexists _, _; split; [reflexivity|];
            split; [solve_lookup|];
            split; [reflexivity|]; split; [reflexivity|];
            split; [reflexivity|]; eexists; reflexivity).
  all: left; split; [reflexivity|]; split; [reflexivity|].
  all: split;
    [ first [ left; reflexivity | right; eexists; reflexivity ] |].
  all: intros x Hx; try discriminate.
  all: eexists; split; [reflexivity|]; split; [solve_lookup|reflexivity].
Qed.

Lemma anchor_history_ok e receiptId w :
  history_ok receiptId w ->
  history_ok receiptId (snd (anchorReceiptToHedera e receiptId w)).
Proof.
  unfold history_ok. intros (Hd & Hc & Hch).
  destruct (anchor_step e receiptId w) as [_ [(Hd' & Hh' & _)|H]].
  - now rewrite Hd', Hh'.
  - destruct H as (d & a & Hw & _ & Hd' & Hh' & _).
    rewrite Hd', Hh'. split; [now rewrite last_opt_app|].
    split.
    + destruct (history w); [rewrite Hw in Hd; discriminate|exact Hc].
    + eapply chain_app; [exact Hch| |apply ev_anchored].
      now rewrite <- Hd.
Qed.

Lemma reachable_history_ok receiptId w :
  reachable receiptId w -> history_ok receiptId w.
Proof.
  induction 1; [apply scan_history_ok|now apply anchor_history_ok].
Qed.

(** What a write keeps and what it sets. *)

Lemma get_created receiptId user url publicId ts k :
  get (VObj (created_doc receiptId user url publicId ts)) k
  = match lookup k (created_doc receiptId user url publicId ts) with
    | Some x => x
    | None => VUndef
    end.
Proof. reflexivity. Qed.

Lemma get_update_other k fields d :
  mem k (keys fields) = false ->
  get (VObj (update_fields fields d)) k = get (VObj d) k.
Proof.
  unfold update_fields. revert d.
  induction fields as [|[k' v] fields IH]; intros d H; [reflexivity|].
  cbn [fold_left fst snd]. unfold keys in H. cbn [map fst] in H.
  unfold mem in H. cbn [existsb] in H. apply orb_false_iff in H.
  destruct H as [Hk H]. rewrite IH by exact H.
  now apply get_obj_set_other.
Qed.

Lemma get_merge_main_other d main side elapsed raw k :
  split elapsed raw = Ok (main, side) ->
  mem k ["ocr_text"; "analysis"; "processing_time"; "status"]%string = false ->
  get (VObj (merge_doc (Some d) main)) k = get (VObj d) k.
Proof.
  intros Hs Hk. apply split_main_shape in Hs. destruct Hs as (ocr & an & ->).
  destruct (merge_doc_main d ocr an elapsed) as (ocr' & an' & ->).
  unfold mem in Hk. cbn [existsb] in Hk.
  repeat (apply orb_false_iff in Hk; destruct Hk as [? Hk]).
  now rewrite !get_obj_set_other by assumption.
Qed.

Lemma get_merge_main_status d main side elapsed raw :
  split elapsed raw = Ok (main, side) ->
  get (VObj (merge_doc (Some d) main)) "status" = VStr "completed".
Proof.
  intros Hs. apply split_main_shape in Hs. destruct Hs as (ocr & an & ->).
  destruct (merge_doc_main d ocr an elapsed) as (ocr' & an' & ->).
  apply get_obj_set_same.
Qed.

Lemma get_failed_status d m ts :
  get (VObj (update_fields
               [("status", VStr "failed"); ("error", VStr m);
                ("error_timestamp", VNum ts)]%string d)) "status"
  = VStr "failed".
Proof.
  unfold update_fields. cbn [fold_left fst snd].
  rewrite !get_obj_set_other by reflexivity. apply get_obj_set_same.
Qed.

Lemma get_failed_error d m ts :
  get (VObj (update_fields
               [("status", VStr "failed"); ("error", VStr m);
                ("error_timestamp", VNum ts)]%string d)) "error"
  = VStr m.
Proof.
  unfold update_fields. cbn [fold_left fst snd].
  rewrite !get_obj_set_other by reflexivity. apply get_obj_set_same.
Qed.

Lemma evolves_identity d d' k :
  evolves d d' -> In k identity_keys ->
  get (VObj d') k = get (VObj d) k.
Proof.
  intros H Hk. simpl in Hk.
  destruct H as [d elapsed raw main side Hp Hs|d a|d m ts].
  - eapply get_merge_main_other; [exact Hs|].
    repeat (destruct Hk as [<-|Hk]; [reflexivity|]). destruct Hk.
  - apply get_update_other.
    repeat (destruct Hk as [<-|Hk]; [reflexivity|]). destruct Hk.
  - apply get_update_other.
    repeat (destruct Hk as [<-|Hk]; [reflexivity|]). destruct Hk.
Qed.

Lemma evolves_rank d d' :
  status_rank d <= 2 ->
  evolves d d' -> status_rank d <= status_rank d' <= 2.
Proof.
  intros Hr H.
  destruct H as [d elapsed raw main side Hp Hs|d a|d m ts].
  - assert (H0 : status_rank d = 0) by (unfold status_rank; now rewrite Hp).
    assert (H1 : status_rank (merge_doc (Some d) main) = 1).
    { unfold status_rank.
      now rewrite (get_merge_main_status _ _ _ _ _ Hs). }
    lia.
  - assert (H1 : status_rank
                   (update_fields [("hedera_anchor", anchor_value a)]%string d)
                 = status_rank d).
    { unfold status_rank. now rewrite get_update_other by reflexivity. }
    lia.
  - assert (H1 : status_rank
                   (update_fields
                      [("status", VStr "failed");
                       ("error", VStr (getUserFriendlyError m));
                       ("error_timestamp", VNum ts)]%string d) = 2).
    { unfold status_rank. now rewrite get_failed_status. }
    lia.
Qed.

Lemma chain_ranks l :
  chain evolves l ->
  match l with d0 :: _ => status_rank d0 <= 2 | [] => True end ->
  nondecreasing (map status_rank l) = true
  /\ Forall (fun d => 0 <= status_rank d <= 2) l.
Proof.
  assert (Hnn : forall d, 0 <= status_rank d).
  { intros d. unfold status_rank. destruct (get (VObj d) "status"); try lia.
    repeat match goal with
           | |- context [if ?c then _ else _] => destruct c
           end; lia. }
  induction l as [|a l IH]; [split; [reflexivity|constructor]|].
  destruct l as [|b l].
  - intros _ H. split; [reflexivity|]. repeat constructor; auto.
  - intros [Hab Hc] Ha. destruct (evolves_rank a b Ha Hab) as [H1 H2].
    destruct (IH Hc H2) as [Hn Hf]. split.
    + change (nondecreasing (map status_rank (a :: b :: l)))
        with ((status_rank a <=? status_rank b)%Z
              && nondecreasing (map status_rank (b :: l)))%bool.
      rewrite Hn, andb_true_r. apply Z.leb_le. exact H1.
    + constructor; [|exact Hf]. split; [apply Hnn|exact Ha].
Qed.

Lemma chain_identity l d0 k :
  chain evolves (d0 :: l) -> In k identity_keys ->
  Forall (fun d => get (VObj d) k = get (VObj d0) k) (d0 :: l).
Proof.
  intros Hc Hk. constructor; [reflexivity|].
  revert d0 Hc. induction l as [|b l IH]; intros d0 Hc; [constructor|].
  destruct Hc as [Hab Hc]. constructor.
  - now apply evolves_identity.
  - specialize (IH b Hc). rewrite <- (evolves_identity _ _ k Hab Hk).
    exact IH.
Qed.

(** X17. Along the history of a job the status never goes back: it is
    [processing], then [completed], then [failed], each for any number of
    versions, and nothing else. *)
Theorem status_never_goes_back receiptId w :
  reachable receiptId w ->
  nondecreasing (map status_rank (history w)) = true
  /\ Forall (fun d => 0 <= status_rank d <= 2) (history w).
Proof.
  intros H. apply reachable_history_ok in H.
  destruct H as (_ & Hc & Hch). apply chain_ranks; [exact Hch|].
  destruct (history w) as [|d0 l]; [exact I|].
  destruct Hc as (user & url & pid & ts & ->). vm_compute. discriminate.
Qed.

Lemma status_never_goes_back_witness :
  let w := snd (anchorReceiptToHedera (env_ok raw_A) "RCP-1"
                  (snd (scanReceipt env_anchor_fails "RCP-1" None true
                          world0))) in
  nondecreasing (map status_rank (history w)) = true
  /\ Forall (fun d => 0 <= status_rank d <= 2) (history w).
Proof.
  apply (status_never_goes_back "RCP-1").
  apply reach_anchor, reach_scan.
Defined.

(** X18. The fields that identify a job are written once: every version of
    the record holds the job's id and the user, the storage path, the
    public id and the upload time of the first version. *)
Theorem identity_fields_are_kept receiptId w d0 l :
  reachable receiptId w -> history w = d0 :: l ->
  Forall (fun d =>
            get (VObj d) "receipt_id" = VStr receiptId
            /\ forall k, In k identity_keys ->
                 get (VObj d) k = get (VObj d0) k) (d0 :: l).
Proof.
  intros H Hh. apply reachable_history_ok in H.
  destruct H as (_ & Hc & Hch). rewrite Hh in Hc, Hch.
  destruct Hc as (user & url & pid & ts & Hd0).
  apply Forall_forall. intros d Hd.
  assert (Hk : forall k, In k identity_keys ->
                 get (VObj d) k = get (VObj d0) k).
  { intros k Hk. pose proof (chain_identity l d0 k Hch Hk) as Hf.
    rewrite Forall_forall in Hf. now apply Hf. }
  split; [|exact Hk].
  rewrite (Hk "receipt_id"%string) by (simpl; auto). now subst d0.
Qed.

Lemma identity_fields_are_kept_witness :
  let w := snd (anchorReceiptToHedera (env_ok raw_A) "RCP-1"
                  (snd (scanReceipt env_anchor_fails "RCP-1" None true
                          world0))) in
  Forall (fun d =>
            get (VObj d) "receipt_id" = VStr "RCP-1"
            /\ forall k, In k identity_keys ->
                 get (VObj d) k = get (VObj (hd [] (history w))) k)
    (hd [] (history w) :: tl (history w)).
Proof.
  apply (identity_fields_are_kept "RCP-1"
           (snd (anchorReceiptToHedera (env_ok raw_A) "RCP-1"
                   (snd (scanReceipt env_anchor_fails "RCP-1" None true
                           world0))))).
  - apply reach_anchor, reach_scan.
  - reflexivity.
Defined.

(* ================================================================== *)
(** ** Facts: intake, failures and the ledger *)

Arguments status_rank : simpl never.

(** X19. The answer of [scanReceipt] depends on the upload and on the
    creation of the record only.  When one of them fails the error is
    thrown, nothing is stored and only progress has been emitted; when both
    succeed the id is returned, whatever becomes of the analysis, and the
    first version of the record is the created one. *)
Theorem scan_answer e receiptId userId anchorOnHedera :
  let r := scanReceipt e receiptId userId anchorOnHedera world0 in
  match upload_outcome e with
  | Throw m =>
      r = (Throw m,
           log (EProgress receiptId 5 "uploading" "Starting upload...")
             world0)
  | Ok up =>
      match create_outcome e with
      | Throw m =>
          r = (Throw m,
               log (EProgress receiptId 15 "upload_complete"
                      "Image uploaded successfully")
                 (log (EProgress receiptId 5 "uploading"
                         "Starting upload...") world0))
      | Ok _ =>
          fst r = Ok receiptId
          /\ hd_error (history (snd r))
             = Some (created_doc receiptId (or_anonymous userId)
                       (secure_url up) (cloudinary_public_id up)
                       (server_time e))
      end
  end.
Proof.
  run.
  all: first [reflexivity | split; reflexivity].
Qed.

(** X20. When the analyzer fails and the store accepts the failure write,
    the job ends as follows: the record is the created one marked [failed]
    with the message for the user, no sidecar and no anchor exist, and the
    trace is the five progress and write events, the failure write and one
    error event. *)
Theorem analyzer_failure_outcome e receiptId userId anchorOnHedera up err :
  upload_outcome e = Ok up -> create_outcome e = Ok tt ->
  ai_outcome e = inl err -> fail_update_outcome e = Ok tt ->
  let w := snd (scanReceipt e receiptId userId anchorOnHedera world0) in
  let m := getUserFriendlyError (classify_ai_error err) in
  let d0 :=
    created_doc receiptId (or_anonymous userId) (secure_url up)
      (cloudinary_public_id up) (server_time e) in
  let failure :=
    [("status", VStr "failed"); ("error", VStr m);
     ("error_timestamp", VNum (server_time e))]%string in
  doc w = Some (update_fields failure d0)
  /\ sidecar w = None /\ anchors w = []
  /\ trace w
     = [EProgress receiptId 5 "uploading" "Starting upload...";
        EProgress receiptId 15 "upload_complete"
          "Image uploaded successfully";
        WCreate receiptId d0;
        EProgress receiptId 20 "ocr_started" "Extracting text with AI...";
        EProgress receiptId 40 "forensics_running"
          "Running forensic analysis...";
        WUpdate receiptId failure;
        EError receiptId m].
Proof.
  intros Hup Hcreate Hai Hfail. run_with.
  all: repeat split; reflexivity.
Qed.

Lemma analyzer_failure_outcome_witness :
  let e := env_ai_timeout in
  let up := {| secure_url := "https://cdn/r.jpg"%string;
               cloudinary_public_id := "r"%string |} in
  let w := snd (scanReceipt e "RCP-1" None true world0) in
  let m := getUserFriendlyError
             (classify_ai_error
                {| ae_code := Some "ECONNABORTED"%string;
                   ae_message := "timeout of 180000ms exceeded"%string;
                   ae_detail := VUndef;
                   ae_data_message := VUndef |}) in
  let d0 :=
    created_doc "RCP-1" (or_anonymous None) (secure_url up)
      (cloudinary_public_id up) (server_time e) in
  let failure :=
    [("status", VStr "failed"); ("error", VStr m);
     ("error_timestamp", VNum (server_time e))]%string in
  doc w = Some (update_fields failure d0)
  /\ sidecar w = None /\ anchors w = []
  /\ trace w
     = [EProgress "RCP-1" 5 "uploading" "Starting upload...";
        EProgress "RCP-1" 15 "upload_complete"
          "Image uploaded successfully";
        WCreate "RCP-1" d0;
        EProgress "RCP-1" 20 "ocr_started" "Extracting text with AI...";
        EProgress "RCP-1" 40 "forensics_running"
          "Running forensic analysis...";
        WUpdate "RCP-1" failure;
        EError "RCP-1" m].
Proof.
  apply (analyzer_failure_outcome env_ai_timeout "RCP-1" None true
           {| secure_url := "https://cdn/r.jpg"%string;
              cloudinary_public_id := "r"%string |}
           {| ae_code := Some "ECONNABORTED"%string;
              ae_message := "timeout of 180000ms exceeded"%string;
              ae_detail := VUndef;
              ae_data_message := VUndef |});
    reflexivity.
Defined.

(** X28. A response that the logging after the call cannot read ([null], or
    an [ocr_text] that is neither absent nor a string) ends the job as a
    failed analysis, although the analyzer answered: when the store accepts
    the failure write, the record is the created one marked [failed] with
    the generic message, and nothing of the response is stored. *)
Theorem unreadable_response_fails e receiptId userId anchorOnHedera up raw :
  upload_outcome e = Ok up -> create_outcome e = Ok tt ->
  ai_outcome e = inr raw -> response_logs raw = false ->
  fail_update_outcome e = Ok tt ->
  let w := snd (scanReceipt e receiptId userId anchorOnHedera world0) in
  let m := "AI analysis failed. Please try again with a clearer image."%string in
  let d0 :=
    created_doc receiptId (or_anonymous userId) (secure_url up)
      (cloudinary_public_id up) (server_time e) in
  let failure :=
    [("status", VStr "failed"); ("error", VStr m);
     ("error_timestamp", VNum (server_time e))]%string in
  doc w = Some (update_fields failure d0)
  /\ sidecar w = None /\ anchors w = []
  /\ trace w
     = [EProgress receiptId 5 "uploading" "Starting upload...";
        EProgress receiptId 15 "upload_complete"
          "Image uploaded successfully";
        WCreate receiptId d0;
        EProgress receiptId 20 "ocr_started" "Extracting text with AI...";
        EProgress receiptId 40 "forensics_running"
          "Running forensic analysis...";
        WUpdate receiptId failure;
        EError receiptId m].
Proof.
  intros Hup Hcreate Hai Hlog Hfail. run_with.
  all: repeat split; reflexivity.
Qed.

Lemma unreadable_response_fails_witness :
  let e := env_ok (VObj [("ocr_text", VNum 5)]%string) in
  let up := {| secure_url := "https://cdn/r.jpg"%string;
               cloudinary_public_id := "r"%string |} in
  let w := snd (scanReceipt e "RCP-1" None true world0) in
  let m := "AI analysis failed. Please try again with a clearer image."%string in
  let d0 :=
    created_doc "RCP-1" (or_anonymous None) (secure_url up)
      (cloudinary_public_id up) (server_time e) in
  let failure :=
    [("status", VStr "failed"); ("error", VStr m);
     ("error_timestamp", VNum (server_time e))]%string in
  doc w = Some (update_fields failure d0)
  /\ sidecar w = None /\ anchors w = []
  /\ trace w
     = [EProgress "RCP-1" 5 "uploading" "Starting upload...";
        EProgress "RCP-1" 15 "upload_complete"
          "Image uploaded successfully";
        WCreate "RCP-1" d0;
        EProgress "RCP-1" 20 "ocr_started" "Extracting text with AI...";
        EProgress "RCP-1" 40 "forensics_running"
          "Running forensic analysis...";
        WUpdate "RCP-1" failure;
        EError "RCP-1" m].
Proof.
  apply (unreadable_response_fails
           (env_ok (VObj [("ocr_text", VNum 5)]%string)) "RCP-1" None true
           {| secure_url := "https://cdn/r.jpg"%string;
              cloudinary_public_id := "r"%string |}
           (VObj [("ocr_text", VNum 5)]%string));
    reflexivity.
Defined.

(** X22. A call of [anchorReceiptToHedera] that throws leaves the record,
    its history and the sidecar as they were, and adds at most one document
    to [hedera_anchors]. *)
Theorem failed_anchoring_keeps_record e receiptId w m :
  fst (anchorReceiptToHedera e receiptId w) = Throw m ->
  let w' := snd (anchorReceiptToHedera e receiptId w) in
  doc w' = doc w /\ history w' = history w /\ sidecar w' = sidecar w
  /\ (anchors w' = anchors w \/ exists x, anchors w' = anchors w ++ [x]).
Proof.
  intros H w'. subst w'.
  destruct (anchor_step e receiptId w) as [Hs [(Hd & Hh & Ha & _)|Hb]].
  - auto.
  - destruct Hb as (d & a & _ & _ & _ & _ & _ & x & Hx).
    rewrite Hx in H. discriminate.
Qed.

Lemma failed_anchoring_keeps_record_witness :
  let w := snd (scanReceipt (env_ok raw_A) "RCP-1" None false world0) in
  let w' := snd (anchorReceiptToHedera env_anchor_fails "RCP-1" w) in
  doc w' = doc w /\ history w' = history w /\ sidecar w' = sidecar w
  /\ (anchors w' = anchors w \/ exists x, anchors w' = anchors w ++ [x]).
Proof.
  apply (failed_anchoring_keeps_record env_anchor_fails "RCP-1"
           (snd (scanReceipt (env_ok raw_A) "RCP-1" None false world0))
           "INSUFFICIENT_PAYER_BALANCE"%string).
  reflexivity.
Defined.

(* ================================================================== *)
(** ** Facts: the sidecar, the anchors and the reads *)

Lemma rank_created receiptId user url publicId ts :
  status_rank (created_doc receiptId user url publicId ts) = 0.
Proof. reflexivity. Qed.

Lemma rank_completed d main side elapsed raw :
  split elapsed raw = Ok (main, side) ->
  status_rank (merge_doc (Some d) main) = 1.
Proof.
  intros Hs. unfold status_rank.
  now rewrite (get_merge_main_status _ _ _ _ _ Hs).
Qed.

Lemma rank_anchored d x :
  status_rank (update_fields [("hedera_anchor", x)]%string d)
  = status_rank d.
Proof. unfold status_rank. now rewrite get_update_other by reflexivity. Qed.

Lemma rank_failed d m ts :
  status_rank
    (update_fields
       [("status", VStr "failed"); ("error", VStr m);
        ("error_timestamp", VNum ts)]%string d) = 2.
Proof. unfold status_rank. now rewrite get_failed_status. Qed.

Lemma scan_sidecar e receiptId userId anchorOnHedera :
  let w := snd (scanReceipt e receiptId userId anchorOnHedera world0) in
  has_completed w = match sidecar w with Some _ => true | None => false end.
Proof.
  unfold has_completed. run.
  all: repeat match goal with
       | p : (value * value)%type |- _ => destruct p
       end; cbn [fst snd] in *.
  all: repeat match goal with
       | H : split _ _ = Ok (?m, _) |- context [merge_doc (Some ?d) ?m] =>
           rewrite (rank_completed d _ _ _ _ H)
       | |- _ => rewrite rank_failed
       | |- _ => rewrite rank_anchored
       end.
  all: reflexivity.
Qed.

Lemma last_opt_in {A} (l : list A) x : last_opt l = Some x -> In x l.
Proof.
  induction l as [|a l IH]; [discriminate|].
  destruct l as [|b l].
  - intros [= ->]. now left.
  - intros H. right. now apply IH.
Qed.

Lemma existsb_absorb {A} (f : A -> bool) l x :
  In x l -> existsb f (l ++ [x]) = existsb f l.
Proof.
  intros H. rewrite existsb_app. simpl. rewrite orb_false_r.
  destruct (f x) eqn:E; [|apply orb_false_r].
  rewrite orb_true_r. symmetry. apply existsb_exists. eauto.
Qed.

Lemma anchor_sidecar e receiptId w :
  doc w = last_opt (history w) ->
  has_completed (snd (anchorReceiptToHedera e receiptId w)) = has_completed w
  /\ sidecar (snd (anchorReceiptToHedera e receiptId w)) = sidecar w.
Proof.
  intros Hd. unfold has_completed.
  destruct (anchor_step e receiptId w) as [Hs [(_ & Hh & _)|Hb]].
  - now rewrite Hh.
  - destruct Hb as (d & a & Hw & _ & _ & Hh & _). rewrite Hh. split; [|exact Hs].
    rewrite existsb_app. cbn [existsb]. rewrite rank_anchored, orb_false_r.
    destruct (status_rank d =? 1)%Z eqn:E; [|apply orb_false_r].
    rewrite orb_true_r. symmetry. apply existsb_exists. exists d.
    split; [|exact E]. apply last_opt_in. now rewrite <- Hd.
Qed.

(** X21. In every world of a job the sidecar exists exactly when some
    version of the record is [completed]. *)
Theorem sidecar_iff_completed receiptId w :
  reachable receiptId w ->
  existsb (fun d => (status_rank d =? 1)%Z) (history w)
  = match sidecar w with Some _ => true | None => false end.
Proof.
  intros H. change (has_completed w
                    = match sidecar w with Some _ => true | None => false end).
  induction H as [e userId anchorOnHedera|e w H IH].
  - apply scan_sidecar.
  - destruct (anchor_sidecar e receiptId w) as [-> ->]; [|exact IH].
    now destruct (reachable_history_ok receiptId w H).
Qed.

Lemma sidecar_iff_completed_witness :
  let w := snd (anchorReceiptToHedera (env_ok raw_A) "RCP-1"
                  (snd (scanReceipt (env_ok raw_A) "RCP-1" None false
                          world0))) in
  existsb (fun d => (status_rank d =? 1)%Z) (history w)
  = match sidecar w with Some _ => true | None => false end.
Proof.
  apply (sidecar_iff_completed "RCP-1").
  apply reach_anchor, reach_scan.
Defined.

(** The anchors of the ledger collection. *)

Lemma anchor_value_tx a a' :
  anchor_value a = anchor_value a' -> transaction_id a = transaction_id a'.
Proof. unfold anchor_value. now intros [= H _ _ _]. Qed.

Lemma field_is_anchor_doc e entityId a :
  field_is "transaction_id" (transaction_id a) (anchor_doc e entityId a)
  = true.
Proof. unfold field_is. cbn. apply String.eqb_refl. Qed.

Lemma get_anchor_same d x :
  get (VObj (update_fields [("hedera_anchor", x)]%string d)) "hedera_anchor"
  = x.
Proof. unfold update_fields. cbn [fold_left fst snd]. apply get_obj_set_same. Qed.

Lemma get_failed_anchor d m ts :
  get (VObj (update_fields
               [("status", VStr "failed"); ("error", VStr m);
                ("error_timestamp", VNum ts)]%string d)) "hedera_anchor"
  = get (VObj d) "hedera_anchor".
Proof. now apply get_update_other. Qed.

Lemma get_merge_anchor d main side elapsed raw :
  split elapsed raw = Ok (main, side) ->
  get (VObj (merge_doc (Some d) main)) "hedera_anchor"
  = get (VObj d) "hedera_anchor".
Proof. intros Hs. now apply (get_merge_main_other d main side elapsed raw). Qed.

Lemma scan_anchor_recorded e receiptId userId anchorOnHedera :
  anchor_recorded (snd (scanReceipt e receiptId userId anchorOnHedera world0)).
Proof.
  unfold anchor_recorded. run.
  all: repeat match goal with
       | p : (value * value)%type |- _ => destruct p
       end; cbn [fst snd] in *.
  all: intros d' a' Hd' Hg; try discriminate.
  all: injection Hd' as <-.
  all: match type of Hg with
       | match lookup ?k ?l with Some _ => _ | None => _ end = _ =>
           change (get (VObj l) k = anchor_value a') in Hg
       end.
  all: repeat match goal with
       | H : split _ _ = Ok (?m, _),
         Hg : context [merge_doc (Some ?d) ?m] |- _ =>
           rewrite (get_merge_anchor d _ _ _ _ H) in Hg
       | Hg : context [update_fields (("status"%string, _) :: _) _] |- _ =>
           rewrite get_failed_anchor in Hg
       | Hg : context [update_fields [("hedera_anchor"%string, _)] _] |- _ =>
           rewrite get_anchor_same in Hg
       end.
  all: try (unfold anchor_value in Hg; cbn in Hg; discriminate).
  all: apply anchor_value_tx in Hg; rewrite <- Hg.
  all: cbn [existsb]; apply orb_true_iff; left.
  all: apply (field_is_anchor_doc e receiptId).
Qed.

Lemma existsb_app_l {A} (f : A -> bool) l r :
  existsb f l = true -> existsb f (l ++ r) = true.
Proof. intros H. now rewrite existsb_app, H. Qed.

Lemma anchor_anchor_recorded e receiptId w :
  anchor_recorded w ->
  anchor_recorded (snd (anchorReceiptToHedera e receiptId w)).
Proof.
  unfold anchor_recorded. intros Hw d' a' Hd' Hg.
  destruct (anchor_step e receiptId w) as [_ [(Hd & _ & Ha & _)|Hb]].
  - rewrite Hd in Hd'. specialize (Hw d' a' Hd' Hg).
    destruct Ha as [->|[x ->]]; [exact Hw|now apply existsb_app_l].
  - destruct Hb as (d & a & _ & _ & Hd & _ & Ha & _).
    rewrite Hd in Hd'. injection Hd' as <-.
    rewrite get_anchor_same in Hg. apply anchor_value_tx in Hg.
    rewrite Ha, existsb_app, <- Hg. apply orb_true_iff. right.
    cbn [existsb]. apply orb_true_iff. left.
    apply (field_is_anchor_doc e receiptId).
Qed.

(** X23. In every world of a job, the anchor that the record holds is
    found by [verifyAnchor]: its transaction is in [hedera_anchors]. *)
Theorem recorded_anchor_verifies receiptId w d a :
  reachable receiptId w ->
  doc w = Some d -> get (VObj d) "hedera_anchor" = anchor_value a ->
  verifyAnchor (Ok tt) (transaction_id a) w = (Ok true, w).
Proof.
  intros H Hd Hg. unfold verifyAnchor. f_equal. f_equal.
  assert (Hr : anchor_recorded w).
  { clear Hd Hg. induction H;
      [apply scan_anchor_recorded|now apply anchor_anchor_recorded]. }
  exact (Hr d a Hd Hg).
Qed.

Lemma recorded_anchor_verifies_witness :
  let w := snd (scanReceipt (env_ok raw_A) "RCP-1" None true world0) in
  let a := anchor_of (env_ok raw_A) "ab12"
             ("0.0.1@1.2", "1.000000002")%string in
  verifyAnchor (Ok tt) (transaction_id a) w = (Ok true, w).
Proof.
  apply (recorded_anchor_verifies "RCP-1"
           (snd (scanReceipt (env_ok raw_A) "RCP-1" None true world0))
           (match doc (snd (scanReceipt (env_ok raw_A) "RCP-1" None true
                              world0)) with
            | Some d => d
            | None => []
            end)
           (anchor_of (env_ok raw_A) "ab12"
              ("0.0.1@1.2", "1.000000002")%string)).
  - apply reach_scan.
  - reflexivity.
  - reflexivity.
Defined.

(** X24. After [anchorToHCS] has returned an anchor, [verifyAnchor] finds
    its transaction; and [verifyAnchor] answers [false] when the read of
    the collection fails, without throwing. *)
Theorem anchor_then_verify e entityId data w a w' :
  anchorToHCS e entityId data w = (Ok a, w') ->
  verifyAnchor (Ok tt) (transaction_id a) w' = (Ok true, w')
  /\ forall m t, verifyAnchor (Throw m) t w' = (Ok false, w').
Proof.
  intros H. split; [|reflexivity].
  unfold verifyAnchor. f_equal. f_equal.
  revert H. destruct w as [d sc an hi tr]. run.
  all: try discriminate.
  all: intros [= <- <-]; cbn [anchors add_anchor log].
  all: rewrite existsb_app; apply orb_true_iff; right.
  all: cbn [existsb]; apply orb_true_iff; left.
  all: unfold field_is; cbn; apply String.eqb_refl.
Qed.

Lemma anchor_then_verify_witness :
  let r := anchorToHCS (env_ok raw_A) "RCP-1" raw_A world0 in
  verifyAnchor (Ok tt) "0.0.1@1.2" (snd r) = (Ok true, snd r)
  /\ forall m t, verifyAnchor (Throw m) t (snd r) = (Ok false, snd r).
Proof.
  apply (anchor_then_verify (env_ok raw_A) "RCP-1" raw_A world0
           (anchor_of (env_ok raw_A) "ab12" ("0.0.1@1.2", "1.000000002")%string)).
  reflexivity.
Defined.

(* ================================================================== *)
(** ** Facts: trust updates, reads and the summary *)

Lemma anchorToHCS_ok e entityId data w a w' :
  anchorToHCS e entityId data w = (Ok a, w') ->
  anchors w' = anchors w ++ [anchor_doc e entityId a]
  /\ doc w' = doc w /\ history w' = history w /\ sidecar w' = sidecar w.
Proof.
  destruct w as [d sc an hi tr]. run.
  all: try discriminate.
  all: intros [= <- <-]; repeat split.
Qed.

Lemma anchorToHCS_throw e entityId data w m w' :
  anchorToHCS e entityId data w = (Throw m, w') ->
  anchors w' = anchors w /\ doc w' = doc w /\ history w' = history w.
Proof.
  destruct w as [d sc an hi tr]. run.
  all: try discriminate.
  all: intros [= <- <-]; repeat split.
Qed.

(** X25. A trust update is stored only together with its anchor.  Without
    a Trust ID the call throws and touches nothing; when the call returns,
    the update holds the old and the new score, the anchor is in
    [hedera_anchors] under the entity [TRUST_UPDATE_] followed by the
    business id, and [verifyAnchor] finds it; when the call throws, no
    update is stored. *)
Theorem trust_update_is_anchored e business_read add_outcome recordTime
    businessId newTrustScore w updates :
  let r :=
    updateTrustScore e business_read add_outcome recordTime businessId
      newTrustScore (w, updates) in
  (forall business,
     business_read = Ok business ->
     truthy (get (get business "hedera") "trust_id_nft") = false ->
     r = (Throw "No Trust ID NFT found for this business", (w, updates)))
  /\ (forall x, fst r = Ok x ->
      exists business a,
        business_read = Ok business
        /\ ur_update_record x
           = updateRecord_of business businessId newTrustScore recordTime
        /\ ur_hedera_anchor x = anchor_value a
        /\ snd (snd r)
           = updates
             ++ [VObj (props (ur_update_record x)
                       ++ [("hedera_anchor", anchor_value a);
                           ("created_at", VNum (server_time e))]%string)]
        /\ anchors (fst (snd r))
           = anchors w
             ++ [anchor_doc e ("TRUST_UPDATE_" ++ businessId)%string a]
        /\ verifyAnchor (Ok tt) (transaction_id a) (fst (snd r))
           = (Ok true, fst (snd r)))
  /\ (forall m, fst r = Throw m -> snd (snd r) = updates).
Proof.
  intros r. subst r. unfold updateTrustScore.
  destruct business_read as [business|m0].
  2:{ split; [intros b Hb; discriminate|].
      split; [intros x Hx; discriminate|reflexivity]. }
  destruct (truthy (get (get business "hedera") "trust_id_nft")) eqn:Et.
  2:{ split; [intros b [= <-] _; reflexivity|].
      split; [intros x Hx; discriminate|reflexivity]. }
  cbv [negb].
  split; [intros b [= <-] Hb; rewrite Hb in Et; discriminate|].
  destruct (anchorToHCS e ("TRUST_UPDATE_" ++ businessId)%string
              (updateRecord_of business businessId newTrustScore recordTime)
              w) as [[a|m] w1] eqn:E.
  2:{ split; [intros x Hx; discriminate|reflexivity]. }
  destruct add_outcome as [u|m].
  2:{ split; [intros x Hx; discriminate|reflexivity]. }
  split; [|intros m Hm; discriminate].
  intros x [= <-]. exists business, a.
  destruct (anchorToHCS_ok _ _ _ _ _ _ E) as (Ha & _).
  cbn [fst snd ur_update_record ur_hedera_anchor].
  repeat split; try reflexivity; try exact Ha.
  unfold verifyAnchor. rewrite Ha, existsb_app.
  cbn [existsb]. rewrite field_is_anchor_doc. cbn [orb].
  now rewrite orb_true_r.
Qed.

Lemma last_opt_none {A} (l : list A) : last_opt l = None -> l = [].
Proof.
  induction l as [|a l IH]; [reflexivity|].
  destruct l as [|b l]; [discriminate|]. intros H.
  specialize (IH H). discriminate.
Qed.

Lemma history_receipt_id receiptId w d :
  history_ok receiptId w -> In d (history w) ->
  get (VObj d) "receipt_id" = VStr receiptId.
Proof.
  intros (_ & Hc & Hch) Hin.
  destruct (history w) as [|d0 l]; [destruct Hin|].
  destruct Hc as (user & url & pid & ts & Hd0).
  pose proof (chain_identity l d0 "receipt_id"%string Hch) as Hf.
  rewrite Forall_forall in Hf. rewrite (Hf (or_introl eq_refl) d Hin).
  now subst d0.
Qed.

(** X26. [getReceipt] changes nothing.  On the world of a job, when the
    read succeeds, it throws [Receipt not found] exactly when no record was
    created, and otherwise returns the last version of the record, which
    holds the id of the job. *)
Theorem getReceipt_reads_record e receiptId w :
  reachable receiptId w -> get_outcome e = Ok tt ->
  snd (getReceipt e receiptId w) = w
  /\ match doc w with
     | None =>
         fst (getReceipt e receiptId w) = Throw "Receipt not found"
         /\ history w = []
     | Some d =>
         fst (getReceipt e receiptId w)
         = Ok {| rr_success := true; rr_data := VObj d |}
         /\ last_opt (history w) = Some d
         /\ get (VObj d) "receipt_id" = VStr receiptId
     end.
Proof.
  intros H Hget. apply reachable_history_ok in H.
  pose proof H as (Hd & _).
  unfold getReceipt, lift, bind, read_doc, throw, ret. rewrite Hget.
  destruct (doc w) as [d|] eqn:Ed.
  - repeat split; [now symmetry|].
    apply (history_receipt_id receiptId w d H).
    apply last_opt_in. now symmetry.
  - repeat split. apply last_opt_none. now symmetry.
Qed.

Lemma getReceipt_reads_record_witness :
  let w := snd (scanReceipt (env_ok raw_A) "RCP-1" None false world0) in
  snd (getReceipt (env_ok raw_A) "RCP-1" w) = w
  /\ match doc w with
     | None =>
         fst (getReceipt (env_ok raw_A) "RCP-1" w)
         = Throw "Receipt not found"
         /\ history w = []
     | Some d =>
         fst (getReceipt (env_ok raw_A) "RCP-1" w)
         = Ok {| rr_success := true; rr_data := VObj d |}
         /\ last_opt (history w) = Some d
         /\ get (VObj d) "receipt_id" = VStr "RCP-1"
     end.
Proof.
  apply (getReceipt_reads_record (env_ok raw_A) "RCP-1"
           (snd (scanReceipt (env_ok raw_A) "RCP-1" None false world0))).
  - apply reach_scan.
  - reflexivity.
Defined.

(** The summary. *)

Lemma payloads_main_forensics step2 elapsed mainPayload sidecarData :
  payloads_of step2 elapsed = Ok (mainPayload, sidecarData) ->
  exists fd agentLogs,
    mainPayload
    = mainPayload_of step2 (lightForensics_of fd agentLogs) elapsed.
Proof.
  unfold payloads_of. destruct (nullish step2); [discriminate|].
  destruct (or_else (get step2 "forensic_details") (VObj []));
    try discriminate; intros [= <- <-]; eauto.
Qed.

Lemma truthy_or_else a b : truthy (or_else a b) = truthy a || truthy b.
Proof. unfold or_else. destruct (truthy a) eqn:E; [exact E|reflexivity]. Qed.

Lemma strip_analysis step2 lf :
  is_undefined lf = false ->
  stripUndefinedDeep
    (VObj [("trust_score", or_else (get step2 "trust_score") (VNum 0));
           ("verdict", or_else (get step2 "verdict") (VStr "unknown"));
           ("issues", or_else (get step2 "issues") (VArr []));
           ("recommendation",
              or_else (get step2 "recommendation") (VStr EmptyString));
           ("merchant", or_else (get step2 "merchant") VNull);
           ("forensic_details", lf)]%string)
  = VObj [("trust_score",
             stripUndefinedDeep (or_else (get step2 "trust_score") (VNum 0)));
          ("verdict",
             stripUndefinedDeep
               (or_else (get step2 "verdict") (VStr "unknown")));
          ("issues",
             stripUndefinedDeep (or_else (get step2 "issues") (VArr [])));
          ("recommendation",
             stripUndefinedDeep
               (or_else (get step2 "recommendation") (VStr EmptyString)));
          ("merchant",
             stripUndefinedDeep (or_else (get step2 "merchant") VNull));
          ("forensic_details", stripUndefinedDeep lf)]%string.
Proof.
  intros Hlf.
  unfold stripUndefinedDeep at 1. fold stripUndefinedDeep.
  cbn [flat_map].
  rewrite (strip_field_plain _ "trust_score")
    by (try reflexivity; now apply or_else_defined).
  rewrite (strip_field_plain _ "verdict")
    by (try reflexivity; now apply or_else_defined).
  rewrite (strip_field_plain _ "issues")
    by (try reflexivity; now apply or_else_defined).
  rewrite (strip_field_plain _ "recommendation")
    by (try reflexivity; now apply or_else_defined).
  rewrite (strip_field_plain _ "merchant")
    by (try reflexivity; now apply or_else_defined).
  rewrite (strip_field_plain _ "forensic_details")
    by (try reflexivity; exact Hlf).
  reflexivity.
Qed.

(** X7. The analysis of every stored summary has the six fields
    [trust_score], [verdict], [issues], [recommendation], [merchant] and
    [forensic_details], in this order; the verdict and the issues are never
    empty or missing, and the forensic details are an object. *)
Theorem summary_analysis_shape elapsed raw main side :
  split elapsed raw = Ok (main, side) ->
  exists ts vd iss rc mc fd,
    get main "analysis"
    = VObj [("trust_score", ts); ("verdict", vd); ("issues", iss);
            ("recommendation", rc); ("merchant", mc);
            ("forensic_details", VObj fd)]%string
    /\ truthy vd = true /\ truthy iss = true
    /\ is_undefined mc = false.
Proof.
  unfold split. destruct (JSON_stringify _); [|discriminate].
  destruct (JSON_parse _) as [step2|]; [|discriminate].
  destruct (payloads_of step2 elapsed) as [[mp sd]|] eqn:E; [|discriminate].
  intros [= <- <-]. apply payloads_main_forensics in E.
  destruct E as (fd & al & ->).
  unfold mainPayload_of.
  unfold stripUndefinedDeep at 1. fold stripUndefinedDeep.
  cbn [flat_map].
  rewrite (strip_field_plain _ "ocr_text")
    by (try reflexivity; now apply or_else_defined).
  rewrite (strip_field_plain _ "analysis") by reflexivity.
  rewrite (strip_field_plain _ "processing_time") by reflexivity.
  rewrite (strip_field_plain _ "status") by reflexivity.
  rewrite strip_analysis by reflexivity.
  eexists _, _, _, _, _, _. split; [reflexivity|].
  rewrite !strip_truthy, !truthy_or_else, strip_not_undefined.
  repeat split; apply orb_true_r.
Qed.

Lemma summary_analysis_shape_witness :
  exists ts vd iss rc mc fd,
    get main_A "analysis"
    = VObj [("trust_score", ts); ("verdict", vd); ("issues", iss);
            ("recommendation", rc); ("merchant", mc);
            ("forensic_details", VObj fd)]%string
    /\ truthy vd = true /\ truthy iss = true
    /\ is_undefined mc = false.
Proof.
  apply (summary_analysis_shape 2000 raw_A main_A
           (snd (match split 2000 raw_A with
                 | Ok p => p
                 | Throw _ => (VNull, VNull)
                 end))).
  vm_compute. reflexivity.
Defined.
(* ================================================================== *)
(** ** The properties of the specification *)

(** C1.  After a successful analysis and a successful atomic write of the
    summary and the sidecar, a failure of the ledger anchor call sends the
    job through the catch block of [analyzeReceiptAsync]: at
    [env_anchor_fails] the record ends with [status = "failed"] and the
    ledger's message in [error], the anchor still [null] and the analysis
    still stored, where the specification has [status = "completed"] and
    [error = null]. *)
Theorem anchor_failure_marks_job_failed :
  let w := snd (scanReceipt env_anchor_fails "RCP-1" None true world0) in
  exists d,
    doc w = Some d
    /\ sidecar w = Some side_empty
    /\ In (WBatch "RCP-1" main_A side_empty) (trace w)
    /\ get (VObj d) "status" = VStr "failed"
    /\ get (VObj d) "error" = VStr "INSUFFICIENT_PAYER_BALANCE"
    /\ get (VObj d) "hedera_anchor" = VNull
    /\ nullish (get (VObj d) "analysis") = false
    /\ In (EError "RCP-1" "INSUFFICIENT_PAYER_BALANCE") (trace w).
Proof.
  vm_compute. eexists. repeat split; try reflexivity; tauto.
Qed.

(** The sidecar never holds one of the oversized fields: the final cleaning
    of the sidecar drops them. *)
Lemma sidecar_drops_oversized elapsed raw main side k :
  split elapsed raw = Ok (main, side) ->
  mem k oversized_keys = true ->
  get side k = VUndef.
Proof.
  unfold split. destruct (JSON_stringify _); [|discriminate].
  destruct (JSON_parse _) as [step2|]; [|discriminate].
  destruct (payloads_of step2 elapsed) as [[mp sd]|] eqn:E; [|discriminate].
  intros [= <- <-] Hk.
  unfold payloads_of in E. destruct (nullish step2); [discriminate|].
  destruct (or_else (get step2 "forensic_details") (VObj []));
    try discriminate; injection E as <- <-;
    unfold sidecarData_of; unfold stripUndefinedDeep at 1;
    fold stripUndefinedDeep; unfold get;
    now rewrite lookup_strip_oversized.
Qed.

(** C2.  At [raw_heatmap], whose forensic details carry a heatmap, a pixel
    diff and (as text) an ELA analysis, the job completes and the persisted
    sidecar holds none of the three fields, where the specification has
    them in the sidecar; the summary holds none either. *)
Theorem oversized_fields_never_reach_sidecar :
  let w := snd (scanReceipt (env_ok raw_heatmap) "RCP-2" None false world0) in
  isArray (get_path raw_heatmap ["forensic_details"; "heatmap"]) = true
  /\ exists d side,
      doc w = Some d /\ sidecar w = Some side
      /\ get (VObj d) "status" = VStr "completed"
      /\ get side "heatmap" = VUndef
      /\ get side "pixel_diff" = VUndef
      /\ get side "ela_analysis" = VUndef
      /\ get_path (VObj d) ["analysis"; "forensic_details"; "heatmap"]
         = VUndef.
Proof.
  vm_compute. split; [reflexivity|]. eexists _, _. repeat split; reflexivity.
Qed.

(** C3.  The size check measures [JSON.stringify(cleanedMain).length], the
    number of UTF-16 code units of the text, against the 1,048,576 bytes of
    the store's limit.  The summary of a response whose text is 600000 times
    U+00E9 has a JSON text of more than 1,048,576 bytes and of less than
    1,048,576 code units: the check lets it through and the batch is
    committed with it, where the specification has the size error raised
    before the write.  Whatever the store answers: when it accepts the
    batch the summary is written, and when it refuses the job fails with
    the store's error, not with the size error. *)
Theorem oversized_summary_passes_size_check (c : result unit) :
  let raw := raw_text big_text in
  let main := main_text big_text in
  let w := snd (scanReceipt (env_store c raw) "RCP-3" None false world0) in
  split 2000 raw = Ok (main, side_empty)
  /\ size_limit < utf8_size (ser main)
  /\ (js_length (ser main) >? size_limit) = false
  /\ match c with
     | Ok _ =>
         In (WBatch "RCP-3" main side_empty) (trace w)
         /\ sidecar w = Some side_empty
     | Throw m =>
         sidecar w = None
         /\ exists d,
             doc w = Some d
             /\ get (VObj d) "status" = VStr "failed"
             /\ get (VObj d) "error" = VStr (getUserFriendlyError m)
             /\ In (EError "RCP-3" (getUserFriendlyError m)) (trace w)
     end.
Proof.
  cbv zeta. destruct big_text_sizes as [Hlen Hbytes].
  assert (Hcheck : (js_length (ser (main_text big_text)) >? size_limit)
                   = false).
  { rewrite Z.gtb_ltb. now apply Z.ltb_ge. }
  split; [exact (split_text _ _)|]. split; [exact Hbytes|].
  split; [exact Hcheck|].
  destruct c as [[]|m].
  - exact (run_commits (env_store (Ok tt) (raw_text big_text)) "RCP-3" None
             false
             {| secure_url := "https://cdn/r.jpg";
                cloudinary_public_id := "r" |}
             (raw_text big_text) (main_text big_text) side_empty
             eq_refl eq_refl eq_refl eq_refl (split_text _ _) Hcheck eq_refl).
  - destruct (run_commit_refused (env_store (Throw m) (raw_text big_text))
                "RCP-3" None false
                {| secure_url := "https://cdn/r.jpg";
                   cloudinary_public_id := "r" |}
                (raw_text big_text) (main_text big_text) side_empty
                eq_refl eq_refl eq_refl eq_refl (split_text _ _) m
                Hcheck eq_refl eq_refl)
      as (_ & Hside & d & Hd & Hst & Herr & _ & Hev).
    split; [exact Hside|]. exists d.
    exact (conj Hd (conj Hst (conj Herr Hev))).
Qed.

(** C4 (amended).  The percents of the progress events of a job never
    decrease and at most one terminal event is emitted; when one is emitted
    it is the last effect of the job, after a write of the final status of
    the record; and one is emitted whenever the record was created and the
    store accepts the failure write. *)
Theorem progress_and_terminal (e : env) (receiptId : string)
    (userId : option string) (anchorOnHedera : bool) :
  let t := trace (snd (scanReceipt e receiptId userId anchorOnHedera world0)) in
  nondecreasing (percents t) = true
  /\ (terminal_count t <= 1)%nat
  /\ (terminal_count t = 1%nat -> ends_with_terminal t = true)
  /\ (forall up, upload_outcome e = Ok up -> create_outcome e = Ok tt ->
      fail_update_outcome e = Ok tt -> terminal_count t = 1%nat).
Proof.
  run.
  all: repeat match goal with
       | H : split _ _ = Ok ?p |- _ =>
           destruct p; apply split_status in H; cbn [fst snd]; rewrite ?H
       end.
  all: split; [reflexivity|split; [cbn; lia|split]].
  all: cbn; intros; try reflexivity; try discriminate; try congruence.
Qed.


Lemma progress_and_terminal_witness :
  let t := trace (snd (scanReceipt (env_ok raw_A) "RCP-1" None true world0)) in
  terminal_count t = 1%nat /\ ends_with_terminal t = true.
Proof.
  intros t.
  destruct (progress_and_terminal (env_ok raw_A) "RCP-1" None true)
    as (_ & _ & Hlast & Hone).
  pose proof (Hone _ eq_refl eq_refl eq_refl) as H1.
  split; [exact H1 | exact (Hlast H1)].
Defined.

(** C4, counterexample: when the analyzer is unreachable and the store
    refuses the failure write, the job ends without any terminal event and
    its record stays in [processing]. *)
Lemma terminal_event_can_be_missing :
  let w := snd (scanReceipt env_store_down "RCP-1" None false world0) in
  (exists d, doc w = Some d /\ get (VObj d) "status" = VStr "processing")
  /\ terminal_count (trace w) = 0%nat.
Proof. vm_compute. split; [eexists; split; reflexivity | reflexivity]. Qed.

(** C5.  Every version of the record of a job, after [scanReceipt] with its
    background task and after any calls of [anchorReceiptToHedera],
    satisfies: [completed] implies a stored analysis and no error, [failed]
    implies an error. *)
Theorem job_record_invariant receiptId w :
  reachable receiptId w -> Forall record_ok (history w).
Proof.
  intros H. enough (world_ok w) by (now destruct H0).
  induction H.
  - apply scan_world_ok.
  - now apply anchor_world_ok.
Qed.

Lemma job_record_invariant_witness :
  let w := snd (anchorReceiptToHedera (env_ok raw_A) "RCP-1"
                  (snd (scanReceipt (env_ok raw_A) "RCP-1" None false
                          world0))) in
  reachable "RCP-1" w /\ Forall record_ok (history w).
Proof.
  intros w.
  pose proof (reach_anchor "RCP-1" (env_ok raw_A) _
                (reach_scan "RCP-1" (env_ok raw_A) None false)) as H.
  split; [exact H | exact (job_record_invariant "RCP-1" w H)].
Defined.

(** C6 (amended).  Along any path of ordinary property names, a property
    whose value is [undefined] is absent from the output and a property
    whose value is [null] is kept as [null]; an array under such a property,
    unless its first entry is an array, comes out as its entries other than
    [null] and [undefined], sanitized, in order; [undefined] itself comes
    out as [null]; and no property of the output is named [__proto__],
    which is not an ordinary name. *)
Theorem sanitizer_undefined_and_null (v : value) (p : list string)
    (fs : list (string * value)) (k : string) :
  forallb plain_key p = true ->
  plain_key k = true ->
  get_path v p = VObj fs ->
  exists fs',
    get_path (stripUndefinedDeep v) p = VObj fs'
    /\ ((forall x, In (k, x) fs -> x = VUndef) -> lookup k fs' = None)
    /\ (lookup k fs = Some VNull -> lookup k fs' = Some VNull)
    /\ (forall l,
          lookup k fs = Some (VArr l) -> is_matrix l = false ->
          lookup k fs'
          = Some (VArr (map stripUndefinedDeep
                          (filter (fun x => negb (nullish x)) l))))
    /\ stripUndefinedDeep VUndef = VNull
    /\ lookup "__proto__" fs' = None
    /\ plain_key "__proto__" = false.
Proof.
  intros Hp Hk Hv.
  exists (flat_map (strip_field stripUndefinedDeep) fs).
  split; [exact (get_path_strip v p fs Hp Hv)|].
  split; [|split; [|split; [|split; [|split]]]].
  - apply lookup_strip_undefined.
  - intros Hl.
    now rewrite (lookup_strip_plain stripUndefinedDeep k fs VNull Hk Hl).
  - intros l Hl Hm.
    rewrite (lookup_strip_plain stripUndefinedDeep k fs (VArr l) Hk Hl)
      by reflexivity.
    now rewrite strip_array_entries.
  - reflexivity.
  - apply lookup_strip_proto.
  - reflexivity.
Qed.

Lemma sanitizer_undefined_and_null_witness :
  let fs := [("merchant", VNull); ("tax", VUndef);
             ("lines", VArr [VNum 1; VNull; VNum 2])] in
  forallb plain_key ["report"] = true
  /\ plain_key "tax" = true
  /\ get_path nested_example ["report"] = VObj fs
  /\ get_path (stripUndefinedDeep nested_example) ["report"; "tax"] = VUndef.
Proof.
  intros fs.
  split; [reflexivity|]. split; [reflexivity|]. split; [reflexivity|].
  destruct (sanitizer_undefined_and_null nested_example ["report"] fs "tax"
              eq_refl eq_refl eq_refl) as (fs' & Hpath & Hundef & _).
  change (get_path (stripUndefinedDeep nested_example) ["report"; "tax"])
    with (get (get_path (stripUndefinedDeep nested_example) ["report"]) "tax").
  rewrite Hpath. unfold get. rewrite Hundef; [reflexivity|].
  intros x [H|[H|[H|[]]]]; now inversion H.
Defined.

(** C6, counterexample: a [null] entry of an array is dropped, a [null]
    under one of the serialized keys is dropped, and an [undefined] entry
    of a matrix is written [null]. *)
Lemma sanitizer_drops_null_entries :
  stripUndefinedDeep (VObj [("tags", VArr [VNull; VStr "x"])])
  = VObj [("tags", VArr [VStr "x"])]
  /\ stripUndefinedDeep (VObj [("agent_logs", VNull); ("note", VNull)])
     = VObj [("note", VNull)]
  /\ stripUndefinedDeep (VArr [VArr [VUndef; VNum 1]]) = VStr "[[null,1]]".
Proof. repeat split; reflexivity. Qed.

Lemma forallb_firstn {A} (f : A -> bool) n l :
  forallb f l = true -> forallb f (firstn n l) = true.
Proof.
  revert l. induction n as [|n IH]; intros [|x l]; try reflexivity.
  simpl. intros H. apply andb_true_iff in H. destruct H as [-> H].
  now apply IH.
Qed.

(** C7 (amended).  For a response that is JSON data and whose findings list
    has more than five entries, the summary holds under [forensic_findings]
    a string, the JSON text of the list of the first five entries as they
    came, which reads back as these five entries; and the sidecar holds
    under [forensic_findings_full], for a list that does not begin with an
    array, the entries of the whole list other than [null], each sanitized,
    in order, and for a list that begins with an array the JSON text of the
    whole list. *)
Theorem findings_excerpt (elapsed : Z) (raw : value)
    (fd : list (string * value)) (l : list value) :
  json_data raw = true ->
  get raw "forensic_details" = VObj fd ->
  get (VObj fd) "forensic_findings" = VArr l ->
  (5 < List.length l)%nat ->
  exists main side,
    split elapsed raw = Ok (main, side)
    /\ get_path main ["analysis"; "forensic_details"; "forensic_findings"]
       = VStr (ser (VArr (firstn 5 l)))
    /\ JSON_parse (ser (VArr (firstn 5 l))) = Some (VArr (firstn 5 l))
    /\ List.length (firstn 5 l) = 5%nat
    /\ get side "forensic_findings_full"
       = (if is_matrix l then VStr (ser (VArr l))
          else VArr (map stripUndefinedDeep
                       (filter (fun x => negb (nullish x)) l))).
Proof.
  intros Hd Hfd Hff Hlen.
  destruct raw as [| | | | | |rfs]; try discriminate.
  assert (Hfd_data : json_data (VObj fd) = true).
  { eapply json_data_get; eauto. discriminate. }
  assert (Hl_data : json_data (VArr l) = true).
  { eapply json_data_get; eauto. discriminate. }
  rewrite split_of_data by exact Hd.
  (* the normalized response *)
  set (step2 := stripUndefinedDeep (VObj rfs)).
  assert (H2 : get step2 "forensic_details" = stripUndefinedDeep (VObj fd)).
  { apply get_strip_plain; [reflexivity|exact Hfd|discriminate]. }
  set (cfd := flat_map (strip_field stripUndefinedDeep) fd).
  change (stripUndefinedDeep (VObj fd)) with (VObj cfd) in H2.
  assert (Hc : get (VObj cfd) "forensic_findings" = VStr (ser (VArr l))).
  { simpl in Hff |- *. destruct (lookup "forensic_findings" fd) eqn:El;
      [|discriminate]. subst v.
    unfold cfd.
    now rewrite (lookup_strip_heavy stripUndefinedDeep "forensic_findings"
                   fd (VArr l) eq_refl eq_refl El eq_refl eq_refl). }
  unfold payloads_of.
  assert (Hn : nullish step2 = false) by reflexivity.
  rewrite Hn, H2. rewrite (or_else_truthy (VObj cfd)) by reflexivity.
  cbv beta iota zeta. change (props (VObj cfd)) with cfd.
  set (agentLogs := or_else (safeParse (get step2 "agent_logs")) (VArr [])).
  set (fdv := VObj (reparse_field "forensic_progress" (VArr [])
               (reparse_field "pixel_diff" (VObj [])
               (reparse_field "heatmap" (VArr [])
               (reparse_field "technical_details" (VObj [])
               (reparse_field "forensic_findings" (VArr []) cfd)))))).
  assert (Hfind : get fdv "forensic_findings" = VArr l).
  { unfold fdv. rewrite !get_reparse_other by reflexivity.
    rewrite get_reparse_same, Hc, safeParse_ser by exact Hl_data.
    reflexivity. }
  eexists _, _. split; [reflexivity|]. split; [|split; [|split]].
  - unfold mainPayload_of, get_path.
    rewrite (get_strip_plain _ "analysis" _ eq_refl eq_refl) by discriminate.
    cbn [get lookup String.eqb Ascii.eqb Bool.eqb].
    rewrite (get_strip_plain _ "forensic_details" _ eq_refl eq_refl)
      by discriminate.
    cbn [get lookup String.eqb Ascii.eqb Bool.eqb].
    unfold lightForensics_of. rewrite Hfind.
    unfold stripUndefinedDeep at 1. fold stripUndefinedDeep.
    unfold get.
    erewrite lookup_strip_heavy; reflexivity.
  - apply JSON_parse_ser_data.
    change (forallb json_data (firstn 5 l) = true).
    now apply forallb_firstn.
  - apply firstn_length_le. lia.
  - unfold sidecarData_of. rewrite Hfind.
    rewrite (get_strip_plain _ "forensic_findings_full" _ eq_refl eq_refl)
      by discriminate.
    rewrite (or_else_truthy (VArr l)) by reflexivity.
    change (stripUndefinedDeep (VArr l)
            = if is_matrix l then VStr (ser (VArr l))
              else VArr (map stripUndefinedDeep
                           (filter (fun x => negb (nullish x)) l))).
    destruct (is_matrix l) eqn:Em.
    + rewrite strip_array_eq. destruct l as [|x l']; [discriminate|].
      simpl in Em. now rewrite Em.
    + now apply strip_array_entries.
Qed.

Lemma findings_excerpt_witness :
  json_data raw_findings7 = true
  /\ List.length findings7 = 7%nat
  /\ exists main side,
      split 2000 raw_findings7 = Ok (main, side)
      /\ get_path main ["analysis"; "forensic_details"; "forensic_findings"]
         = VStr (ser (VArr [VObj [("kind", VStr "ela");
                                  ("heatmap", VArr [VNum 1])];
                            VStr "b"; VNull; VStr "d"; VStr "e"]))
      /\ JSON_parse (ser (VArr (firstn 5 findings7)))
         = Some (VArr (firstn 5 findings7))
      /\ List.length (firstn 5 findings7) = 5%nat
      /\ get side "forensic_findings_full"
         = VArr [VObj [("kind", VStr "ela")];
                 VStr "b"; VStr "d"; VStr "e"; VStr "f"; VStr "g"].
Proof.
  split; [reflexivity|]. split; [reflexivity|].
  apply (findings_excerpt 2000 raw_findings7
           [("forensic_findings", VArr findings7)] findings7);
    try reflexivity.
  simpl. lia.
Defined.

(** C7, counterexample: the summary's copy of six findings is a string, not
    a list of five entries; and of six findings the first of which is
    [null] the sidecar keeps five. *)
Lemma findings_summary_is_text :
  (exists main side,
      split 2000 raw_findings6 = Ok (main, side)
      /\ is_string
           (get_path main ["analysis"; "forensic_details"; "forensic_findings"])
         = true
      /\ get_path main ["analysis"; "forensic_details"; "forensic_findings"]
         <> VArr (firstn 5 findings6))
  /\ (exists main side,
        split 2000 raw_findings_null = Ok (main, side)
        /\ get side "forensic_findings_full" = VArr (firstn 5 findings6)).
Proof.
  split.
  - vm_compute. eexists _, _. split; [reflexivity|].
    split; [reflexivity|discriminate].
  - vm_compute. eexists _, _. split; reflexivity.
Qed.

(** C8.  The sanitizer is not idempotent.  Of the array of [null] and
    [[1]] the first pass drops the [null] and returns an array of arrays,
    which the sanitizer is meant to write as text and which the second pass
    turns into the text; the specification has the second pass change
    nothing.  A second pass changes nothing exactly on the stable inputs:
    those in which no array cleaned entry by entry has, as its first entry
    other than [null] and [undefined], an array that is itself cleaned
    entry by entry. *)
Theorem sanitizer_not_idempotent :
  let x := VArr [VNull; VArr [VNum 1]] in
  stripUndefinedDeep x = VArr [VArr [VNum 1]]
  /\ stripUndefinedDeep (stripUndefinedDeep x) = VStr "[[1]]"
  /\ stripUndefinedDeep (stripUndefinedDeep x) <> stripUndefinedDeep x
  /\ forall v,
       stripUndefinedDeep (stripUndefinedDeep v) = stripUndefinedDeep v
       <-> stable v = true.
Proof.
  split; [reflexivity|]. split; [reflexivity|]. split; [discriminate|].
  apply second_pass_iff.
Qed.

(** C9.  On a record that holds an anchor, [anchorReceiptToHedera] returns
    success with that anchor and leaves the world as it was: no call of the
    ledger client, no write. *)
Theorem anchor_is_idempotent (e : env) (receiptId : string) (w : world)
    (d : list (string * value)) (a : anchor) :
  doc w = Some d ->
  get_outcome e = Ok tt ->
  get (VObj d) "hedera_anchor" = anchor_value a ->
  anchorReceiptToHedera e receiptId w
  = (Ok {| success := true;
           message := "Receipt already anchored";
           hedera_anchor := anchor_value a |}, w).
Proof.
  intros Hd Hget Ha. unfold_pipeline. rewrite Hget, Hd, Ha. reflexivity.
Qed.

Lemma anchor_is_idempotent_witness :
  doc (world_of doc_anchored) = Some doc_anchored
  /\ get_outcome (env_ok raw_A) = Ok tt
  /\ get (VObj doc_anchored) "hedera_anchor" = anchor_value anchor_1
  /\ anchorReceiptToHedera (env_ok raw_A) "RCP-1" (world_of doc_anchored)
     = (Ok {| success := true;
              message := "Receipt already anchored";
              hedera_anchor := anchor_value anchor_1 |},
        world_of doc_anchored).
Proof.
  split; [reflexivity|]. split; [reflexivity|]. split; [reflexivity|].
  apply (anchor_is_idempotent (env_ok raw_A) "RCP-1" (world_of doc_anchored)
           doc_anchored anchor_1); reflexivity.
Defined.


(** C10.  On a record whose anchor is [null], whatever its status,
    [anchorReceiptToHedera] calls the ledger client on the [analysis] field
    of the record, and when the ledger and the store answer, the anchor
    returned is written into the record and returned. *)
Theorem anchor_ignores_status (e : env) (receiptId : string) (w : world)
    (d : list (string * value)) :
  doc w = Some d ->
  get_outcome e = Ok tt ->
  get (VObj d) "hedera_anchor" = VNull ->
  let r := anchorReceiptToHedera e receiptId w in
  let data := get (VObj d) "analysis" in
  (exists rest, trace (snd r) = trace w ++ CAnchor receiptId data :: rest)
  /\ (forall text tx,
        JSON_stringify data = Some text ->
        hcs_submit e (hcs_message e receiptId (sha256_hex e text)) = Ok tx ->
        anchors_add_outcome e = Ok tt ->
        anchor_update_outcome e = Ok tt ->
        let a := anchor_of e (sha256_hex e text) tx in
        fst r = Ok {| success := true;
                      message := "Successfully anchored to Hedera";
                      hedera_anchor := anchor_value a |}
        /\ doc (snd r)
           = Some (update_fields [("hedera_anchor", anchor_value a)] d)).
Proof.
  intros Hd Hget Ha r data. subst r data. cbn in Ha. split.
  - destruct w as [d0 sc an hi tr]. cbn [doc] in Hd. subst d0.
    unfold_pipeline. cbn. rewrite Hget. cbn. rewrite Ha. cbn.
    repeat (step; cbn); rewrite <- ?app_assoc; eexists; reflexivity.
  - intros text tx Htext Htx Hadd Hupd.
    destruct w as [d0 sc an hi tr]. cbn [doc] in Hd. subst d0.
    unfold_pipeline. cbn. rewrite Hget. cbn. rewrite Ha. cbn.
    cbn in Htext. rewrite Htext. cbn. rewrite Htx. cbn. rewrite Hadd. cbn. rewrite Hupd.
    cbn. split; reflexivity.
Qed.

Lemma anchor_ignores_status_witness :
  let e := env_ok raw_A in
  let r := anchorReceiptToHedera e "RCP-1" (world_of doc_processing) in
  get (VObj doc_processing) "status" = VStr "processing"
  /\ get (VObj doc_processing) "analysis" = VNull
  /\ trace (snd r) = [CAnchor "RCP-1" VNull;
                      WUpdate "RCP-1" [("hedera_anchor", anchor_value anchor_1)]]
  /\ get (match doc (snd r) with Some d => VObj d | None => VUndef end)
       "hedera_anchor" = anchor_value anchor_1.
Proof.
  intros e r.
  pose proof (anchor_ignores_status e "RCP-1" (world_of doc_processing)
                doc_processing eq_refl eq_refl eq_refl) as [_ H].
  specialize (H "null" ("0.0.1@1.2", "1.000000002")
                eq_refl eq_refl eq_refl eq_refl).
  destruct H as [_ Hdoc].
  split; [reflexivity|]. split; [reflexivity|]. split; [reflexivity|].
  subst r e. rewrite Hdoc. reflexivity.
Defined.
